(** * Structured JSON logging: formatter, severity filter, listener set-up

    A shallow embedding of [utils/logging/loggers.py] and
    [utils/logging/setup.py] (Python 3.12).  Python objects are modelled as
    follows.

    - A [dict] is an association list in insertion order ([pydict]);
      [d[k] = v] keeps the position of an existing key.
    - A value is a [pyval]: the JSON-native types; [PObj] for any other
      object whose [str()] returns, carried by that text; [PRaising] for one
      whose [str()] raises, carried by the exception; [PCircular] for a list
      or dict met again inside itself, which is how a value with a cycle
      looks to a walk over it.
    - An exception is a [Raise] result.  The limits of the interpreter
      (recursion depth, digits of an int converted to text, memory) are left
      out; the platform is Linux with a 64-bit [time_t].
    - [record.msg] is a str.
    - Text is a Rocq [string], each character read as the code point of the
      same number (U+0000 to U+00FF).
    - The JSON text that [json.dumps] writes is given character by
      character ([render]) from the document it stands for ([json]), and
      [json_loads] reads text back into a document. *)

From Stdlib Require Import ZArith List String Ascii Bool Lia.
From Stdlib Require Import DecimalString DecimalZ DecimalPos.
Import ListNotations.

Local Open Scope string_scope.
Local Open Scope list_scope.
Local Open Scope Z_scope.

Infix "+++" := String.append (at level 60, right associativity).

(** [lia] reads division and remainder by a constant. *)
Ltac Zify.zify_post_hook ::= Z.to_euclidean_division_equations.

(** ** Exceptions *)

Inductive pyerr : Type :=
| AttributeError (name : string)
| TypeError (what : string)
| ValueError (what : string)
| OverflowError (what : string)
| OSError (what : string)
| OtherError (cls what : string).      (* any other exception class *)

Inductive result (A : Type) : Type :=
| Ok (a : A)
| Raise (e : pyerr).

Arguments Ok {A} a.
Arguments Raise {A} e.

Definition bind {A B : Type} (m : result A) (k : A -> result B) : result B :=
  match m with
  | Ok a => k a
  | Raise e => Raise e
  end.

Notation "x <- m ;; k" := (bind m (fun x => k))
  (at level 61, m at next level, right associativity).

(** ** Text *)

Definition digit_char (d : Z) : ascii :=
  ascii_of_nat (48 + Z.to_nat d).

(** Decimal text of an int, as [int.__repr__] gives it. *)
Definition dec (z : Z) : string := NilZero.string_of_int (Z.to_int z).

Definition is_digit (c : ascii) : bool :=
  let n := nat_of_ascii c in Nat.leb 48 n && Nat.leb n 57.

Definition digit_val (c : ascii) : Z := Z.of_nat (nat_of_ascii c) - 48.

Definition quote : ascii := ascii_of_nat 34.
Definition backslash : ascii := ascii_of_nat 92.
Definition newline : ascii := ascii_of_nat 10.

(** ** JSON documents and their text *)

(** The JSON document the encoder writes.  An object keeps its members in
    the order written; numbers keep the text they are written with. *)
Unset Elimination Schemes.
Inductive json : Type :=
| JNull
| JBool (b : bool)
| JInt (z : Z)
| JFloat (text : string)
| JStr (s : string)
| JArr (items : list json)
| JObj (members : list (string * json)).
Set Elimination Schemes.

Definition hex_char (d : nat) : ascii :=
  if Nat.ltb d 10 then ascii_of_nat (48 + d) else ascii_of_nat (87 + d).

(** One character of a string, as [ensure_ascii] writes it. *)
Definition escape_char (c : ascii) : string :=
  let n := nat_of_ascii c in
  if Nat.eqb n 34 then String backslash (String quote "")
  else if Nat.eqb n 92 then String backslash (String backslash "")
  else if Nat.eqb n 10 then String backslash "n"
  else if Nat.eqb n 13 then String backslash "r"
  else if Nat.eqb n 9 then String backslash "t"
  else if Nat.eqb n 12 then String backslash "f"
  else if Nat.eqb n 8 then String backslash "b"
  else if Nat.ltb n 32 || Nat.ltb 126 n then
    String backslash
      (String "u" (String "0" (String "0"
         (String (hex_char (Nat.div n 16)) (String (hex_char (Nat.modulo n 16)) "")))))
  else String c "".

Fixpoint escape (s : string) : string :=
  match s with
  | EmptyString => ""
  | String c s' => escape_char c +++ escape s'
  end.

Definition encode_basestring_ascii (s : string) : string :=
  String quote (escape s +++ String quote "").

Fixpoint repeat_string (n : nat) (s : string) : string :=
  match n with
  | O => ""
  | S n' => s +++ repeat_string n' s
  end.

(** [' ' * indent]; a negative count gives the empty string. *)
Definition indent_unit (indent : Z) : string :=
  repeat_string (Z.to_nat indent) " ".

(** Line break and indentation before an item at nesting [level]; nothing
    when [indent] is None. *)
Definition newline_indent (indent : option Z) (level : nat) : string :=
  match indent with
  | None => ""
  | Some n => String newline (repeat_string level (indent_unit n))
  end.

Definition item_separator (indent : option Z) : string :=
  match indent with None => ", " | Some _ => "," end.

Definition key_separator : string := ": ".

(** The text of a JSON document. *)
Fixpoint render (indent : option Z) (level : nat) (j : json) : string :=
  match j with
  | JNull => "null"
  | JBool true => "true"
  | JBool false => "false"
  | JInt z => dec z
  | JFloat text => text
  | JStr s => encode_basestring_ascii s
  | JArr [] => "[]"
  | JArr (x :: items) =>
      "[" +++ newline_indent indent (S level) +++ render indent (S level) x
      +++ (fix rest (items : list json) : string :=
             match items with
             | [] => ""
             | y :: items' =>
                 item_separator indent +++ newline_indent indent (S level)
                 +++ render indent (S level) y +++ rest items'
             end) items
      +++ newline_indent indent level +++ "]"
  | JObj [] => "{}"
  | JObj ((k, x) :: members) =>
      "{" +++ newline_indent indent (S level)
      +++ encode_basestring_ascii k +++ key_separator
      +++ render indent (S level) x
      +++ (fix rest (members : list (string * json)) : string :=
             match members with
             | [] => ""
             | (k', y) :: members' =>
                 item_separator indent +++ newline_indent indent (S level)
                 +++ encode_basestring_ascii k' +++ key_separator
                 +++ render indent (S level) y +++ rest members'
             end) members
      +++ newline_indent indent level +++ "}"
  end.

(** ** Reading JSON text: [json.loads] *)

Definition is_ws (c : ascii) : bool :=
  let n := nat_of_ascii c in
  Nat.eqb n 32 || Nat.eqb n 10 || Nat.eqb n 13 || Nat.eqb n 9.

Fixpoint skip_ws (s : string) : string :=
  match s with
  | String c s' => if is_ws c then skip_ws s' else s
  | EmptyString => ""
  end.

Definition hex_val (c : ascii) : option nat :=
  let n := nat_of_ascii c in
  if Nat.leb 48 n && Nat.leb n 57 then Some (n - 48)%nat
  else if Nat.leb 97 n && Nat.leb n 102 then Some (n - 87)%nat
  else if Nat.leb 65 n && Nat.leb n 70 then Some (n - 55)%nat
  else None.

(** The character a two-character escape stands for. *)
Definition unescape (e : ascii) : option ascii :=
  let n := nat_of_ascii e in
  if Nat.eqb n 34 then Some quote
  else if Nat.eqb n 92 then Some backslash
  else if Nat.eqb n 47 then Some (ascii_of_nat 47)
  else if Nat.eqb n 98 then Some (ascii_of_nat 8)
  else if Nat.eqb n 102 then Some (ascii_of_nat 12)
  else if Nat.eqb n 110 then Some (ascii_of_nat 10)
  else if Nat.eqb n 114 then Some (ascii_of_nat 13)
  else if Nat.eqb n 116 then Some (ascii_of_nat 9)
  else None.

Definition cons_char (c : ascii) (r : option (string * string)) : option (string * string) :=
  match r with
  | Some (s, rest) => Some (String c s, rest)
  | None => None
  end.

(** The body of a string, after its opening quote: the text it stands
    for, and what follows the closing quote. *)
Fixpoint read_string (s : string) : option (string * string) :=
  match s with
  | EmptyString => None
  | String c s' =>
      if Ascii.eqb c quote then Some ("", s')
      else if Ascii.eqb c backslash then
        match s' with
        | String e s'' =>
            if Ascii.eqb e "u" then
              match s'' with
              | String h1 (String h2 (String h3 (String h4 s3))) =>
                  match hex_val h1, hex_val h2, hex_val h3, hex_val h4 with
                  | Some a, Some b, Some c, Some d =>
                      let n := (((a * 16 + b) * 16 + c) * 16 + d)%nat in
                      if Nat.ltb n 256 then cons_char (ascii_of_nat n) (read_string s3)
                      else None
                  | _, _, _, _ => None
                  end
              | _ => None
              end
            else
              match unescape e with
              | Some ch => cons_char ch (read_string s'')
              | None => None
              end
        | EmptyString => None
        end
      else if Nat.ltb (nat_of_ascii c) 32 then None
      else cons_char c (read_string s')
  end.

Fixpoint span (f : ascii -> bool) (s : string) : string * string :=
  match s with
  | String c s' =>
      if f c then let (t, rest) := span f s' in (String c t, rest) else ("", s)
  | EmptyString => ("", "")
  end.

Definition is_char (a : ascii) (c : ascii) : bool := Ascii.eqb a c.

Definition is_number_char (c : ascii) : bool :=
  is_digit c || is_char "-" c || is_char "+" c || is_char "." c
  || is_char "e" c || is_char "E" c.

Definition nonempty (s : string) : bool :=
  match s with EmptyString => false | _ => true end.

(** The number grammar for a number with a fraction or an exponent: an
    optional minus sign; a zero, or a digit from 1 to 9 and then any digits;
    a point and digits; an e or E, an optional sign and digits.  One at
    least of the last two parts is there. *)
Definition is_float_token (t : string) : bool :=
  let s1 := match t with
            | String c s' => if is_char "-" c then s' else t
            | EmptyString => t
            end in
  match s1 with
  | String c s2 =>
      if is_digit c then
        let s3 := if is_char "0" c then s2 else snd (span is_digit s2) in
        let (has_frac, s4) :=
          match s3 with
          | String d s' =>
              if is_char "." d then (true, snd (span is_digit s'))
              else (false, s3)
          | EmptyString => (false, s3)
          end in
        let frac_ok :=
          match s3 with
          | String d s' =>
              if is_char "." d then nonempty (fst (span is_digit s')) else true
          | EmptyString => true
          end in
        frac_ok
        && match s4 with
           | EmptyString => has_frac
           | String e s5 =>
               if is_char "e" e || is_char "E" e then
                 let s6 := match s5 with
                           | String g s' =>
                               if is_char "+" g || is_char "-" g then s' else s5
                           | EmptyString => s5
                           end in
                 let (x, r) := span is_digit s6 in
                 nonempty x && negb (nonempty r)
               else false
           end
      else false
  | EmptyString => false
  end.

(** A number token as a document: an int when it is one in canonical
    form, a float when it has a fraction or an exponent. *)
Definition number_of_token (t : string) : option json :=
  if is_float_token t then Some (JFloat t)
  else
    match NilZero.int_of_string t with
    | Some d =>
        let z := Z.of_int d in
        if String.eqb (dec z) t || String.eqb t "-0" then Some (JInt z) else None
    | None => None
    end.

Fixpoint strip_prefix (p s : string) : option string :=
  match p, s with
  | EmptyString, _ => Some s
  | String a p', String b s' => if Ascii.eqb a b then strip_prefix p' s' else None
  | String _ _, EmptyString => None
  end.

(** A value that is neither a string, an array nor an object. *)
Definition read_atom (s : string) : option (json * string) :=
  match strip_prefix "null" s with
  | Some rest => Some (JNull, rest)
  | None =>
  match strip_prefix "true" s with
  | Some rest => Some (JBool true, rest)
  | None =>
  match strip_prefix "false" s with
  | Some rest => Some (JBool false, rest)
  | None =>
  match strip_prefix "NaN" s with
  | Some rest => Some (JFloat "NaN", rest)
  | None =>
  match strip_prefix "Infinity" s with
  | Some rest => Some (JFloat "Infinity", rest)
  | None =>
  match strip_prefix "-Infinity" s with
  | Some rest => Some (JFloat "-Infinity", rest)
  | None =>
      let (t, rest) := span is_number_char s in
      match number_of_token t with
      | Some j => Some (j, rest)
      | None => None
      end
  end end end end end end.

(** A key and its colon. *)
Definition read_key (s : string) : option (string * string) :=
  match skip_ws s with
  | String c s' =>
      if Ascii.eqb c quote then
        match read_string s' with
        | Some (k, rest) =>
            match skip_ws rest with
            | String c' rest' => if is_char ":" c' then Some (k, rest') else None
            | EmptyString => None
            end
        | None => None
        end
      else None
  | EmptyString => None
  end.

Fixpoint parse_value (fuel : nat) (s : string) : option (json * string) :=
  match fuel with
  | O => None
  | S fuel' =>
      match skip_ws s with
      | EmptyString => None
      | String c s' =>
          if Ascii.eqb c quote then
            match read_string s' with
            | Some (str, rest) => Some (JStr str, rest)
            | None => None
            end
          else if is_char "[" c then
            match skip_ws s' with
            | EmptyString => None
            | String c' s'' =>
                if is_char "]" c' then Some (JArr [], s'')
                else
                  match parse_value fuel' s' with
                  | Some (x, rest) =>
                      match parse_items fuel' rest with
                      | Some (xs, rest') => Some (JArr (x :: xs), rest')
                      | None => None
                      end
                  | None => None
                  end
            end
          else if is_char "{" c then
            match skip_ws s' with
            | EmptyString => None
            | String c' s'' =>
                if is_char "}" c' then Some (JObj [], s'')
                else
                  match read_key s' with
                  | Some (k, rest) =>
                      match parse_value fuel' rest with
                      | Some (x, rest') =>
                          match parse_members fuel' rest' with
                          | Some (ms, rest'') => Some (JObj ((k, x) :: ms), rest'')
                          | None => None
                          end
                      | None => None
                      end
                  | None => None
                  end
            end
          else read_atom (String c s')
      end
  end
with parse_items (fuel : nat) (s : string) : option (list json * string) :=
  match fuel with
  | O => None
  | S fuel' =>
      match skip_ws s with
      | EmptyString => None
      | String c s' =>
          if is_char "]" c then Some ([], s')
          else if is_char "," c then
            match parse_value fuel' s' with
            | Some (x, rest) =>
                match parse_items fuel' rest with
                | Some (xs, rest') => Some (x :: xs, rest')
                | None => None
                end
            | None => None
            end
          else None
      end
  end
with parse_members (fuel : nat) (s : string) : option (list (string * json) * string) :=
  match fuel with
  | O => None
  | S fuel' =>
      match skip_ws s with
      | EmptyString => None
      | String c s' =>
          if is_char "}" c then Some ([], s')
          else if is_char "," c then
            match read_key s' with
            | Some (k, rest) =>
                match parse_value fuel' rest with
                | Some (x, rest') =>
                    match parse_members fuel' rest' with
                    | Some (ms, rest'') => Some ((k, x) :: ms, rest'')
                    | None => None
                    end
                | None => None
                end
            | None => None
            end
          else None
      end
  end.

(** [json.loads], keeping the members of an object in the order read. *)
Definition json_loads (s : string) : option json :=
  match parse_value (S (String.length s)) s with
  | Some (j, rest) =>
      match skip_ws rest with
      | EmptyString => Some j
      | String _ _ => None
      end
  | None => None
  end.

(** Every character of the text passes the test. *)
Fixpoint all_chars (f : ascii -> bool) (s : string) : bool :=
  match s with
  | EmptyString => true
  | String c s' => f c && all_chars f s'
  end.

(** Text that the encoder writes for a float. *)
Definition json_float_ok (t : string) : bool :=
  String.eqb t "NaN" || String.eqb t "Infinity" || String.eqb t "-Infinity"
  || (all_chars is_number_char t && is_float_token t).

(** Every float in the document has such a text. *)
Fixpoint json_ok (j : json) : bool :=
  match j with
  | JFloat t => json_float_ok t
  | JArr items => forallb json_ok items
  | JObj members => forallb (fun m => json_ok (snd m)) members
  | _ => true
  end.

(** Nodes of a document: the turns the reader needs at most. *)
Fixpoint json_size (j : json) : nat :=
  match j with
  | JArr items =>
      S ((fix sum (l : list json) : nat :=
            match l with [] => O | x :: l' => (S (json_size x) + sum l')%nat end) items)
  | JObj members =>
      S ((fix sum (l : list (string * json)) : nat :=
            match l with [] => O | m :: l' => (S (json_size (snd m)) + sum l')%nat end) members)
  | _ => 1%nat
  end.

Fixpoint items_size (l : list json) : nat :=
  match l with [] => O | x :: l' => (S (json_size x) + items_size l')%nat end.

Fixpoint members_size (l : list (string * json)) : nat :=
  match l with [] => O | m :: l' => (S (json_size (snd m)) + members_size l')%nat end.

(** What may follow a value: nothing, or a character no number holds. *)
Definition safe_rest (rest : string) : bool :=
  match rest with
  | EmptyString => true
  | String c _ => negb (is_number_char c)
  end.

(** The two inner loops of [render], by name. *)
Fixpoint render_items (indent : option Z) (level : nat) (items : list json) : string :=
  match items with
  | [] => ""
  | y :: items' =>
      item_separator indent +++ newline_indent indent level
      +++ render indent level y +++ render_items indent level items'
  end.

Fixpoint render_members (indent : option Z) (level : nat)
    (members : list (string * json)) : string :=
  match members with
  | [] => ""
  | (k', y) :: members' =>
      item_separator indent +++ newline_indent indent level
      +++ encode_basestring_ascii k' +++ key_separator
      +++ render indent level y +++ render_members indent level members'
  end.

(** Induction on documents, through the arrays and objects inside them. *)
Definition json_ind (P : json -> Prop)
    (HNull : P JNull)
    (HBool : forall b, P (JBool b))
    (HInt : forall z, P (JInt z))
    (HFloat : forall t, P (JFloat t))
    (HStr : forall s, P (JStr s))
    (HArr : forall items, Forall P items -> P (JArr items))
    (HObj : forall members, Forall (fun m => P (snd m)) members -> P (JObj members))
  : forall j, P j :=
  fix go (j : json) : P j :=
    match j with
    | JNull => HNull
    | JBool b => HBool b
    | JInt z => HInt z
    | JFloat t => HFloat t
    | JStr s => HStr s
    | JArr items =>
        HArr items ((fix all (l : list json) : Forall P l :=
                       match l with
                       | [] => Forall_nil P
                       | x :: l' => Forall_cons x (go x) (all l')
                       end) items)
    | JObj members =>
        HObj members ((fix all (l : list (string * json))
                         : Forall (fun m => P (snd m)) l :=
                         match l with
                         | [] => Forall_nil _
                         | m :: l' =>
                             Forall_cons (P := fun m => P (snd m)) m (go (snd m)) (all l')
                         end) members)
    end.

(** Text that opens with a digit, or a minus sign and a digit. *)
Definition starts_number (s : string) : bool :=
  match s with
  | String c s' =>
      is_digit c
      || (is_char "-" c && match s' with
                           | String c' _ => is_digit c'
                           | EmptyString => false
                           end)
  | EmptyString => false
  end.

(** A document reads back from its text, whatever follows it. *)
Definition reads_back (j : json) : Prop :=
  json_ok j = true ->
  forall ind lvl fuel rest,
    (json_size j <= fuel)%nat -> safe_rest rest = true ->
    parse_value fuel (render ind lvl j +++ rest) = Some (j, rest).

(** ** Values *)

(** Text that [float.__repr__] gives: nan, inf, -inf, or a number with a
    fraction or an exponent. *)
Definition float_repr_ok (t : string) : bool :=
  String.eqb t "nan" || String.eqb t "inf" || String.eqb t "-inf"
  || (all_chars is_number_char t && is_float_token t).

(** A float is carried by the two observations the program makes of it:
    the text [float.__repr__] gives, and the instant it denotes as a whole
    number of microseconds (rounded half to even, as
    [datetime.fromtimestamp] does), absent for nan and the infinities. *)
Record pyfloat : Type := mk_float {
  float_repr : string;
  float_micros : option Z;
  float_repr_wf : float_repr_ok float_repr = true
}.

(** Keys of a nested dict.  [KOther] is any hashable object that is not a
    str, int, float, bool or None (a tuple, a frozenset, ...). *)
Inductive pykey : Type :=
| KStr (s : string)
| KInt (z : Z)
| KBool (b : bool)
| KNone
| KFloat (f : pyfloat)
| KOther (str : string).

Unset Elimination Schemes.
Inductive pyval : Type :=
| PNone
| PBool (b : bool)
| PInt (z : Z)
| PFloat (f : pyfloat)
| PStr (s : string)
| PList (l : list pyval)               (* list or tuple *)
| PDict (d : list (pykey * pyval))
| PObj (str : string)                  (* any other object, with its str() *)
| PRaising (e : pyerr)                 (* any other object, whose str() raises *)
| PCircular.                           (* an enclosing list or dict, met again *)
Set Elimination Schemes.

Definition is_None (v : pyval) : bool :=
  match v with PNone => true | _ => false end.

(** Truth value of an object, as [if x:] tests it. *)
Definition truthy (v : pyval) : bool :=
  match v with
  | PNone => false
  | PBool b => b
  | PInt z => negb (z =? 0)
  | PFloat f => negb (String.eqb (float_repr f) "0.0" || String.eqb (float_repr f) "-0.0")
  | PStr s => negb (String.eqb s "")
  | PList l => match l with [] => false | _ => true end
  | PDict d => match d with [] => false | _ => true end
  | PObj _ => true
  | PRaising _ => true
  | PCircular => true
  end.

(** ** Dicts with str keys, in insertion order *)

Definition pydict : Type := list (string * pyval).

Definition dict_keys {V : Type} (d : list (string * V)) : list string := map fst d.

Fixpoint dict_get {V : Type} (k : string) (d : list (string * V)) : option V :=
  match d with
  | [] => None
  | (k', v) :: d' => if String.eqb k k' then Some v else dict_get k d'
  end.

(** [d[k] = v] *)
Fixpoint dict_set {V : Type} (k : string) (v : V) (d : list (string * V))
  : list (string * V) :=
  match d with
  | [] => [(k, v)]
  | (k', v') :: d' =>
      if String.eqb k k' then (k, v) :: d' else (k', v') :: dict_set k v d'
  end.

Definition dict_del {V : Type} (k : string) (d : list (string * V))
  : list (string * V) :=
  filter (fun kv => negb (String.eqb k (fst kv))) d.

(** [d.pop(k, None)]: the value found, if any, and the dict without [k]. *)
Definition dict_pop {V : Type} (k : string) (d : list (string * V))
  : option V * list (string * V) :=
  (dict_get k d, dict_del k d).

(** [d.update(other)] *)
Definition dict_update {V : Type} (d other : list (string * V))
  : list (string * V) :=
  fold_left (fun acc kv => dict_set (fst kv) (snd kv) acc) other d.

Definition mem (k : string) (l : list string) : bool :=
  existsb (String.eqb k) l.

(** ** Log records *)

(** [record.exc_info] when it is not None.  As the logger sets it, it is a
    tuple of three (the class, the exception and the traceback, or three
    times None outside an [except] block): [ExcTuple] carries its members
    and the text [traceback.print_exception] writes for it.  A caller can
    leave any other object there ([logger.info(..., exc_info=False)] leaves
    False): [ExcOther] carries the object and the exception that
    [formatException] raises when it takes it for such a tuple. *)
Inductive ExcInfo : Type :=
| ExcTuple (exc_type exc_value exc_traceback : pyval) (exc_printed : string)
| ExcOther (value : pyval) (error : pyerr).

(** [logging.LogRecord].  The first fields are the attributes that
    [LogRecord.__init__] sets, in its order.  [extra] holds the instance
    attributes added afterwards, in insertion order (those of [extra=], and
    [message] or [asctime] when a stock formatter saw the record first).
    [cls_attrs] holds what [getattr] finds on the class instead of the
    instance (methods and the like). *)
Record LogRecord : Type := mk_record {
  name : string;
  msg : string;
  args : pyval;
  levelname : string;
  levelno : Z;
  pathname : string;
  filename : string;
  module : string;
  exc_info : option ExcInfo;
  exc_text : option string;
  stack_info : option string;
  lineno : Z;
  funcName : option string;
  created : pyfloat;
  msecs : pyfloat;
  relativeCreated : pyfloat;
  thread : option Z;
  threadName : option string;
  processName : option string;
  process : option Z;
  taskName : option string;
  extra : pydict;
  cls_attrs : pydict
}.

Definition opt_val {A : Type} (f : A -> pyval) (o : option A) : pyval :=
  match o with Some a => f a | None => PNone end.

Definition exc_tuple (e : ExcInfo) : pyval :=
  match e with
  | ExcTuple exc_type exc_value exc_traceback _ =>
      PList [exc_type; exc_value; exc_traceback]
  | ExcOther value _ => value
  end.

(** The attributes set by [LogRecord.__init__]. *)
Definition init_attrs (r : LogRecord) : pydict :=
  [ ("name", PStr (name r));
    ("msg", PStr (msg r));
    ("args", args r);
    ("levelname", PStr (levelname r));
    ("levelno", PInt (levelno r));
    ("pathname", PStr (pathname r));
    ("filename", PStr (filename r));
    ("module", PStr (module r));
    ("exc_info", opt_val exc_tuple (exc_info r));
    ("exc_text", opt_val PStr (exc_text r));
    ("stack_info", opt_val PStr (stack_info r));
    ("lineno", PInt (lineno r));
    ("funcName", opt_val PStr (funcName r));
    ("created", PFloat (created r));
    ("msecs", PFloat (msecs r));
    ("relativeCreated", PFloat (relativeCreated r));
    ("thread", opt_val PInt (thread r));
    ("threadName", opt_val PStr (threadName r));
    ("processName", opt_val PStr (processName r));
    ("process", opt_val PInt (process r));
    ("taskName", opt_val PStr (taskName r)) ].

(** [record.__dict__] *)
Definition __dict__ (r : LogRecord) : pydict := init_attrs r ++ extra r.

(** [getattr(record, name)] *)
Definition getattr (r : LogRecord) (attr : string) : result pyval :=
  match dict_get attr (__dict__ r) with
  | Some v => Ok v
  | None =>
      match dict_get attr (cls_attrs r) with
      | Some v => Ok v
      | None => Raise (AttributeError attr)
      end
  end.

(** Levels of the [logging] module. *)
Definition DEBUG : Z := 10.
Definition INFO : Z := 20.
Definition WARNING : Z := 30.
Definition ERROR : Z := 40.
Definition CRITICAL : Z := 50.

(** ** Dates: [datetime.fromtimestamp(t, tz=utc).isoformat()] *)

(** ["%0wd" % n] for [0 <= n]: at least [w] digits, zero-padded. *)
Fixpoint zpad (w : nat) (n : Z) (acc : string) : string :=
  match w with
  | O => if n =? 0 then acc else dec n +++ acc
  | S w' => zpad w' (n / 10) (String (digit_char (n mod 10)) acc)
  end.

Definition _DAYS_IN_MONTH (month : Z) : Z :=
  match month with
  | 1 => 31 | 2 => 28 | 3 => 31 | 4 => 30 | 5 => 31 | 6 => 30
  | 7 => 31 | 8 => 31 | 9 => 30 | 10 => 31 | 11 => 30 | 12 => 31
  | _ => 0
  end.

Definition _DAYS_BEFORE_MONTH (month : Z) : Z :=
  match month with
  | 1 => 0 | 2 => 31 | 3 => 59 | 4 => 90 | 5 => 120 | 6 => 151
  | 7 => 181 | 8 => 212 | 9 => 243 | 10 => 273 | 11 => 304 | 12 => 334
  | _ => 0
  end.

(** Month and day of the [n]-th day (from 0) of a year. *)
Definition _month_day (n : Z) (leapyear : bool) : Z * Z :=
  let month := Z.shiftr (n + 50) 5 in
  let preceding :=
    _DAYS_BEFORE_MONTH month + (if (2 <? month) && leapyear then 1 else 0) in
  if n <? preceding then
    let month := month - 1 in
    let preceding :=
      preceding
      - (_DAYS_IN_MONTH month + (if (month =? 2) && leapyear then 1 else 0)) in
    (month, n - preceding + 1)
  else (month, n - preceding + 1).

(** Proleptic Gregorian ordinal (1 is 0001-01-01) to year, month, day. *)
Definition _ord2ymd (ordinal : Z) : Z * Z * Z :=
  let n := ordinal - 1 in
  let n400 := n / 146097 in
  let n := n mod 146097 in
  let year := n400 * 400 + 1 in
  let n100 := n / 36524 in
  let n := n mod 36524 in
  let n4 := n / 1461 in
  let n := n mod 1461 in
  let n1 := n / 365 in
  let n := n mod 365 in
  let year := year + n100 * 100 + n4 * 4 + n1 in
  if (n1 =? 4) || (n100 =? 4) then (year - 1, 12, 31)
  else
    let leapyear := (n1 =? 3) && (negb (n4 =? 24) || (n100 =? 3)) in
    let md := _month_day n leapyear in
    (year, fst md, snd md).

Record datetime : Type := mk_datetime {
  year : Z; month : Z; day : Z;
  hour : Z; minute : Z; second : Z; microsecond : Z
}.

Definition MINYEAR : Z := 1.
Definition MAXYEAR : Z := 9999.

(** Ordinal of 1970-01-01. *)
Definition EPOCH_ORDINAL : Z := 719163.

(** Range of the C type [time_t], and of the C type [int] that holds
    [tm_year]. *)
Definition TIME_T_MIN : Z := -9223372036854775808.
Definition TIME_T_MAX : Z := 9223372036854775807.
Definition INT_MIN : Z := -2147483648.
Definition INT_MAX : Z := 2147483647.

(** [datetime.fromtimestamp(t, tz=timezone.utc)]: the float is split into
    seconds and microseconds (ValueError for nan, OverflowError when the
    seconds do not fit [time_t]), [gmtime] turns the seconds into a date
    (OSError when the year does not fit [tm_year]), and the datetime is
    built (ValueError when the year is not within 1 .. 9999). *)
Definition fromtimestamp_utc (t : pyfloat) : result datetime :=
  match float_micros t with
  | None =>
      if String.eqb (float_repr t) "nan"
      then Raise (ValueError "Invalid value NaN (not a number)")
      else Raise (OverflowError "timestamp out of range for platform time_t")
  | Some m =>
      let secs := m / 1000000 in
      let us := m mod 1000000 in
      if (secs <? TIME_T_MIN) || (TIME_T_MAX <? secs) then
        Raise (OverflowError "timestamp out of range for platform time_t")
      else
      let days := secs / 86400 in
      let rem := secs mod 86400 in
      let ymd := _ord2ymd (days + EPOCH_ORDINAL) in
      let y := fst (fst ymd) in
      if (y - 1900 <? INT_MIN) || (INT_MAX <? y - 1900) then
        Raise (OSError "[Errno 75] Value too large for defined data type")
      else if (y <? MINYEAR) || (MAXYEAR <? y) then
        Raise (ValueError ("year " +++ dec y +++ " is out of range"))
      else
        Ok {| year := y; month := snd (fst ymd); day := snd ymd;
              hour := rem / 3600; minute := (rem mod 3600) / 60;
              second := rem mod 60; microsecond := us |}
  end.

(** [datetime.isoformat()] of a datetime whose tzinfo is UTC. *)
Definition isoformat (d : datetime) : string :=
  zpad 4 (year d) (String "-" (zpad 2 (month d) (String "-" (zpad 2 (day d)
    (String "T" (zpad 2 (hour d) (String ":" (zpad 2 (minute d) (String ":"
      (zpad 2 (second d)
         ((if microsecond d =? 0 then ""
           else String "." (zpad 6 (microsecond d) ""))
          +++ "+00:00"))))))))))).


(** ** The encoder: [json.dumps(obj, default=str, indent=indent)] *)

(** [float.__repr__], with the names the encoder gives the non-finite
    floats ([allow_nan] is left at its default). *)
Definition floatstr (f : pyfloat) : string :=
  if String.eqb (float_repr f) "nan" then "NaN"
  else if String.eqb (float_repr f) "inf" then "Infinity"
  else if String.eqb (float_repr f) "-inf" then "-Infinity"
  else float_repr f.

(** The text of a dict key; any key that is not a str, int, float, bool or
    None raises ([skipkeys] is left at its default). *)
Definition encode_key (k : pykey) : result string :=
  match k with
  | KStr s => Ok s
  | KFloat f => Ok (floatstr f)
  | KBool true => Ok "true"
  | KBool false => Ok "false"
  | KNone => Ok "null"
  | KInt z => Ok (dec z)
  | KOther _ =>
      Raise (TypeError "keys must be str, int, float, bool or None")
  end.

(** The encoder's walk over a value.  An object of any other type goes
    through [default], which is [str] here: the str it returns is then
    encoded, and the exception it raises is the encoder's.  A list or dict
    that the walk is already inside of raises ValueError. *)
Fixpoint encode (v : pyval) : result json :=
  match v with
  | PNone => Ok JNull
  | PBool b => Ok (JBool b)
  | PInt z => Ok (JInt z)
  | PFloat f => Ok (JFloat (floatstr f))
  | PStr s => Ok (JStr s)
  | PList l =>
      items <- (fix encode_items (l : list pyval) : result (list json) :=
                  match l with
                  | [] => Ok []
                  | x :: l' =>
                      j <- encode x ;;
                      js <- encode_items l' ;;
                      Ok (j :: js)
                  end) l ;;
      Ok (JArr items)
  | PDict d =>
      members <- (fix encode_members (d : list (pykey * pyval))
                    : result (list (string * json)) :=
                    match d with
                    | [] => Ok []
                    | (k, x) :: d' =>
                        ks <- encode_key k ;;
                        j <- encode x ;;
                        ms <- encode_members d' ;;
                        Ok ((ks, j) :: ms)
                    end) d ;;
      Ok (JObj members)
  | PObj str => Ok (JStr str)
  | PRaising e => Raise e
  | PCircular => Raise (ValueError "Circular reference detected")
  end.

(** The two inner loops of [encode], by name. *)
Fixpoint encode_items (l : list pyval) : result (list json) :=
  match l with
  | [] => Ok []
  | x :: l' =>
      j <- encode x ;;
      js <- encode_items l' ;;
      Ok (j :: js)
  end.

Fixpoint encode_members (d : list (pykey * pyval)) : result (list (string * json)) :=
  match d with
  | [] => Ok []
  | (k, x) :: d' =>
      ks <- encode_key k ;;
      j <- encode x ;;
      ms <- encode_members d' ;;
      Ok ((ks, j) :: ms)
  end.

(** [json.dumps(obj, default=str, indent=indent)] *)
Definition json_dumps (indent : option Z) (obj : pyval) : result string :=
  j <- encode obj ;;
  Ok (render indent O j).

(** ** [loggers.py] *)

Definition LOG_RECORD_BUILTIN_ATTRS : list string :=
  [ "args"; "asctime"; "created"; "exc_info"; "exc_text"; "filename";
    "funcName"; "levelname"; "levelno"; "lineno"; "message"; "module";
    "msecs"; "msg"; "name"; "pathname"; "process"; "processName";
    "relativeCreated"; "stack_info"; "taskName"; "thread"; "threadName" ].

(** [s[:-1]] when [s] ends in a line break, else [s]. *)
Fixpoint strip_final_newline (s : string) : string :=
  match s with
  | EmptyString => ""
  | String c EmptyString => if Ascii.eqb c newline then "" else s
  | String c s' => String c (strip_final_newline s')
  end.

(** [logging.Formatter.formatException] *)
Definition formatException (ei : ExcInfo) : result string :=
  match ei with
  | ExcTuple _ _ _ exc_printed => Ok (strip_final_newline exc_printed)
  | ExcOther _ error => Raise error
  end.

(** [logging.Formatter.formatStack] *)
Definition formatStack (stack_info : string) : string := stack_info.

(** The attributes that later definitions read from the formatter. *)
Record JsonFormatter : Type := mk_formatter {
  fmt_keys : list (string * string);
  indent : option Z      (* a bool counts as the int it is *)
}.

(** [JsonFormatter.__init__] *)
Definition JsonFormatter_init (fmt_keys : option (list (string * string)))
    (indent : option Z) : JsonFormatter :=
  {| fmt_keys := match fmt_keys with Some m => m | None => [] end;
     indent := indent |}.

Section Formatter.

(** [msg % args], the printf-style formatting of [str]: any behaviour of
    it is allowed for. *)
Variable str_mod : string -> pyval -> result string.

(** [LogRecord.getMessage] *)
Definition getMessage (record : LogRecord) : result string :=
  if truthy (args record) then str_mod (msg record) (args record)
  else Ok (msg record).

(** The dict [always_fields] as it stands before the field mapping is
    applied. *)
Definition always_fields (self : JsonFormatter) (record : LogRecord)
  : result pydict :=
  message <- getMessage record ;;
  stamp <- fromtimestamp_utc (created record) ;;
  let always_fields :=
    [("message", PStr message); ("timestamp", PStr (isoformat stamp))] in
  always_fields <-
    match exc_info record with
    | Some ei =>
        text <- formatException ei ;;
        Ok (dict_set "exc_info" (PStr text) always_fields)
    | None => Ok always_fields
    end ;;
  let always_fields :=
    match stack_info record with
    | Some si => dict_set "stack_info" (PStr (formatStack si)) always_fields
    | None => always_fields
    end in
  Ok always_fields.

(** The dict comprehension over [self.fmt_keys.items()]: the dict built
    so far, and what is left of [always_fields]. *)
Fixpoint apply_fmt_keys (record : LogRecord) (items : list (string * string))
    (always_fields message : pydict) : result (pydict * pydict) :=
  match items with
  | [] => Ok (message, always_fields)
  | (key, val) :: items' =>
      let (popped, always_fields') := dict_pop val always_fields in
      v <- match popped with
           | Some msg_val =>
               if is_None msg_val then getattr record val else Ok msg_val
           | None => getattr record val
           end ;;
      apply_fmt_keys record items' always_fields' (dict_set key v message)
  end.

(** The loop over [record.__dict__.items()]. *)
Definition add_custom_attrs (record : LogRecord) (message : pydict) : pydict :=
  fold_left
    (fun message kv =>
       if mem (fst kv) LOG_RECORD_BUILTIN_ATTRS then message
       else dict_set (fst kv) (snd kv) message)
    (__dict__ record) message.

(** [JsonFormatter._prepare_log_dict] *)
Definition _prepare_log_dict (self : JsonFormatter) (record : LogRecord)
  : result pydict :=
  always_fields <- always_fields self record ;;
  mapped <- apply_fmt_keys record (fmt_keys self) always_fields [] ;;
  let message := dict_update (fst mapped) (snd mapped) in
  Ok (add_custom_attrs record message).

(** A dict with str keys, as a value. *)
Definition as_value (d : pydict) : pyval :=
  PDict (map (fun kv => (KStr (fst kv), snd kv)) d).

(** [JsonFormatter.format] *)
Definition format (self : JsonFormatter) (record : LogRecord) : result string :=
  message <- _prepare_log_dict self record ;;
  json_dumps (indent self) (as_value message).

(** The JSON document that [format] writes out. *)
Definition format_json (self : JsonFormatter) (record : LogRecord) : result json :=
  message <- _prepare_log_dict self record ;;
  encode (as_value message).

End Formatter.

Module NonErrorFilter.

(** [NonErrorFilter.filter] *)
Definition filter (record : LogRecord) : bool := levelno record <=? INFO.

End NonErrorFilter.

(** ** Sample data *)

Definition no_str_mod (fmt : string) (args : pyval) : result string :=
  Raise (TypeError "not all arguments converted during string formatting").

Definition sample_created : pyfloat :=
  {| float_repr := "1730640000.123456"; float_micros := Some 1730640000123456;
     float_repr_wf := eq_refl |}.

(** The record of [logger.info("Started application", extra={"note": ...})]
    in [main.py]. *)
Definition started_record : LogRecord :=
  {| name := "app"; msg := "Started application"; args := PList [];
     levelname := "INFO"; levelno := INFO;
     pathname := "/srv/app/main.py"; filename := "main.py"; module := "main";
     exc_info := None; exc_text := None; stack_info := None;
     lineno := 12; funcName := Some "<module>";
     created := sample_created;
     msecs := mk_float "123.0" None eq_refl;
     relativeCreated := mk_float "3.5" None eq_refl;
     thread := Some 140001; threadName := Some "MainThread";
     processName := Some "MainProcess"; process := Some 4242;
     taskName := None;
     extra := [("note", PStr "some extra info here")];
     cls_attrs := [] |}.

Definition example_mapping : list (string * string) :=
  [("level", "levelname"); ("message", "message"); ("timestamp", "timestamp")].

(** A record with other custom attributes. *)
Definition with_extra (r : LogRecord) (e : pydict) : LogRecord :=
  {| name := name r; msg := msg r; args := args r;
     levelname := levelname r; levelno := levelno r;
     pathname := pathname r; filename := filename r; module := module r;
     exc_info := exc_info r; exc_text := exc_text r; stack_info := stack_info r;
     lineno := lineno r; funcName := funcName r; created := created r;
     msecs := msecs r; relativeCreated := relativeCreated r;
     thread := thread r; threadName := threadName r;
     processName := processName r; process := process r;
     taskName := taskName r; extra := e; cls_attrs := cls_attrs r |}.

(** [logger.info("Started application", extra={"timestamp": "yesterday"})] *)
Definition shadow_record : LogRecord :=
  with_extra started_record [("timestamp", PStr "yesterday")].

(** [logger.info("Started application", extra={"level": "override"})] *)
Definition level_record : LogRecord :=
  with_extra started_record [("level", PStr "override")].

(** [logger.info("Started application", extra={"d": {(1, 2): 3}})] *)
Definition tuple_key_record : LogRecord :=
  with_extra started_record [("d", PDict [(KOther "(1, 2)", PInt 3)])].

(** [l = []; l.append(l); logger.info("Started application", extra={"l": l})] *)
Definition circular_record : LogRecord :=
  with_extra started_record [("l", PList [PCircular])].

(** [logger.info("Started application", extra={"o": o})] for an object
    whose [__str__] raises RuntimeError("no text"). *)
Definition raising_str_record : LogRecord :=
  with_extra started_record [("o", PRaising (OtherError "RuntimeError" "no text"))].

(** [logger.info("Started application", extra={"where": [Path("/tmp/x"), 3]})] *)
Definition object_record : LogRecord :=
  with_extra started_record [("where", PList [PObj "/tmp/x"; PInt 3])].

Definition example_formatter : JsonFormatter :=
  JsonFormatter_init (Some example_mapping) None.

Definition default_formatter : JsonFormatter := JsonFormatter_init None None.

Definition renaming_formatter : JsonFormatter :=
  JsonFormatter_init (Some [("ts", "timestamp")]) None.

Definition message_renaming_formatter : JsonFormatter :=
  JsonFormatter_init (Some [("msg", "message")]) None.

Definition sample_stamp : string := "2024-11-03T13:20:00.123456+00:00".

Definition RESERVED : list string :=
  ["message"; "timestamp"; "exc_info"; "stack_info"].

(** ** Vocabulary of the properties *)

(** Keys of a JSON object, in the order written. *)
Definition json_keys (j : json) : list string :=
  match j with
  | JObj members => map fst members
  | _ => []
  end.

Definition json_member (k : string) (j : json) : option json :=
  match j with
  | JObj members => dict_get k members
  | _ => None
  end.

Definition is_object (j : json) : bool :=
  match j with JObj _ => true | _ => false end.

(** A list of names with a name added at the end unless it is there. *)
Definition add_key (l : list string) (k : string) : list string :=
  if mem k l then l else l ++ [k].

(** The names of a list at their first occurrence. *)
Definition first_occurrences (l : list string) : list string :=
  fold_left add_key l [].

(** Names of the implicit fields of a record, in the order
    [always_fields] gets them. *)
Definition implicit_fields (r : LogRecord) : list string :=
  ["message"; "timestamp"]
  ++ (match exc_info r with Some _ => ["exc_info"] | None => [] end)
  ++ (match stack_info r with Some _ => ["stack_info"] | None => [] end).

(** The implicit fields that no entry of the mapping names as its source. *)
Definition unconsumed_fields (self : JsonFormatter) (r : LogRecord) : list string :=
  filter (fun k => negb (mem k (map snd (fmt_keys self)))) (implicit_fields r).

(** Names of the record attributes outside the built-in set: the extra
    fields. *)
Definition extra_fields (r : LogRecord) : list string :=
  filter (fun k => negb (mem k LOG_RECORD_BUILTIN_ATTRS)) (dict_keys (__dict__ r)).

(** What is left of [always_fields] after the mapping. *)
Definition left_over (items : list (string * string)) (d : pydict) : pydict :=
  filter (fun kv => negb (mem (fst kv) (map snd items))) d.

(** The mapping emits [k], when it names it as a source, under its own
    name. *)
Definition not_remapped (self : JsonFormatter) (k : string) : Prop :=
  forall key, In (key, k) (fmt_keys self) -> key = k.

(** ** Nested structure of values *)

Definition key_ok (k : pykey) : bool :=
  match k with KOther _ => false | _ => true end.

(** A value that the encoder takes: every dict inside it has only str,
    int, float, bool or None keys, no list or dict inside it is met again
    inside itself, and [str()] returns for every object of another type. *)
Fixpoint serializable (v : pyval) : bool :=
  match v with
  | PList l => forallb serializable l
  | PDict d => forallb (fun kv => key_ok (fst kv) && serializable (snd kv)) d
  | PRaising _ => false
  | PCircular => false
  | _ => true
  end.

(** The same of the values of a dict with str keys. *)
Definition dict_serializable (d : pydict) : bool :=
  forallb (fun kv => serializable (snd kv)) d.

(** The text that stands for a key in a JSON object. *)
Definition key_text (k : pykey) : string :=
  match k with
  | KStr s => s
  | KInt z => dec z
  | KBool true => "true"
  | KBool false => "false"
  | KNone => "null"
  | KFloat f => floatstr f
  | KOther str => str
  end.

(** The document that the design asks for, in its own words: a value of a
    JSON-native type stands as it is, and a value of any other type as the
    string that [str()] gives for it, at any depth.  (Nothing is asked for
    where [str()] does not return or a container holds itself; null stands
    there.) *)
Fixpoint json_of (v : pyval) : json :=
  match v with
  | PNone => JNull
  | PBool b => JBool b
  | PInt z => JInt z
  | PFloat f => JFloat (floatstr f)
  | PStr s => JStr s
  | PList l => JArr (map json_of l)
  | PDict d => JObj (map (fun kv => (key_text (fst kv), json_of (snd kv))) d)
  | PObj str => JStr str
  | PRaising _ => JNull
  | PCircular => JNull
  end.

(** The JSON object asked for a dict with str keys. *)
Definition document_of (d : pydict) : json :=
  JObj (map (fun kv => (fst kv, json_of (snd kv))) d).

(** Induction on values, through the lists and dicts inside them. *)
Definition pyval_ind (P : pyval -> Prop)
    (HNone : P PNone)
    (HBool : forall b, P (PBool b))
    (HInt : forall z, P (PInt z))
    (HFloat : forall f, P (PFloat f))
    (HStr : forall s, P (PStr s))
    (HList : forall l, Forall P l -> P (PList l))
    (HDict : forall d, Forall (fun kv => P (snd kv)) d -> P (PDict d))
    (HObj : forall s, P (PObj s))
    (HRaising : forall e, P (PRaising e))
    (HCircular : P PCircular) : forall v, P v :=
  fix go (v : pyval) : P v :=
    match v with
    | PNone => HNone
    | PBool b => HBool b
    | PInt z => HInt z
    | PFloat f => HFloat f
    | PStr s => HStr s
    | PList l =>
        HList l ((fix all (l : list pyval) : Forall P l :=
                    match l with
                    | [] => Forall_nil P
                    | x :: l' => Forall_cons x (go x) (all l')
                    end) l)
    | PDict d =>
        HDict d ((fix all (d : list (pykey * pyval))
                    : Forall (fun kv => P (snd kv)) d :=
                    match d with
                    | [] => Forall_nil _
                    | kv :: d' =>
                        Forall_cons (P := fun kv => P (snd kv)) kv (go (snd kv)) (all d')
                    end) d)
    | PObj s => HObj s
    | PRaising e => HRaising e
    | PCircular => HCircular
    end.

(** ** ISO 8601 text with a UTC offset *)

(** A month and a day of the month in range. *)
Definition month_day_ok (md : Z * Z) : bool :=
  (1 <=? fst md) && (fst md <=? 12) && (1 <=? snd md) && (snd md <=? 31).


(** [n] digits, then the rest. *)
Fixpoint take_digits (n : nat) (s : string) : option string :=
  match n with
  | O => Some s
  | S n' =>
      match s with
      | String c s' => if is_digit c then take_digits n' s' else None
      | EmptyString => None
      end
  end.

(** Two digits whose number lies in [lo .. hi], then the rest. *)
Definition take_field (lo hi : Z) (s : string) : option string :=
  match s with
  | String a (String b rest) =>
      let v := 10 * digit_val a + digit_val b in
      if is_digit a && is_digit b && (lo <=? v) && (v <=? hi)
      then Some rest else None
  | _ => None
  end.

Definition take_char (c : ascii) (s : string) : option string :=
  match s with
  | String c' rest => if Ascii.eqb c c' then Some rest else None
  | EmptyString => None
  end.

Definition and_then {A B : Type} (o : option A) (f : A -> option B) : option B :=
  match o with Some a => f a | None => None end.

(** Date and time of day: [YYYY-MM-DDTHH:MM:SS], then the rest. *)
Definition take_date_time (s : string) : option string :=
  and_then (take_digits 4 s) (fun s =>
  and_then (take_char "-"%char s) (fun s =>
  and_then (take_field 1 12 s) (fun s =>
  and_then (take_char "-"%char s) (fun s =>
  and_then (take_field 1 31 s) (fun s =>
  and_then (take_char "T"%char s) (fun s =>
  and_then (take_field 0 23 s) (fun s =>
  and_then (take_char ":"%char s) (fun s =>
  and_then (take_field 0 59 s) (fun s =>
  and_then (take_char ":"%char s) (fun s =>
  take_field 0 59 s)))))))))).

(** [YYYY-MM-DDTHH:MM:SS+00:00] or [YYYY-MM-DDTHH:MM:SS.ffffff+00:00]. *)
Definition is_iso8601_utc (s : string) : bool :=
  match take_date_time s with
  | Some rest =>
      String.eqb rest "+00:00"
      || match and_then (take_char "."%char rest) (take_digits 6) with
         | Some zone => String.eqb zone "+00:00"
         | None => false
         end
  | None => false
  end.

(** ** The queue listener *)

Module AsyncBridge.

(** Modelled from the spec: the queue listener behind
    [queue_handler.listener], which [setup.py] starts and whose [stop] it
    registers as exit hook.  Its class is not among the repository's
    sources; what follows is the state machine of the design's section on
    the queue and its listener. *)
Inductive state : Type := UNSTARTED | RUNNING | STOPPING | STOPPED.

Section Bridge.

Context {R : Type}.

(** [queue]: records enqueued and not yet taken by the consumer, oldest
    first.  [delivered]: records handed to the dispatcher so far, oldest
    first. *)
Record bridge : Type := mk_bridge {
  phase : state;
  queue : list R;
  delivered : list R
}.

(** A bridge as constructed: queue created, no consumer running. *)
Definition create : bridge :=
  {| phase := UNSTARTED; queue := []; delivered := [] |}.

(** [start()]: UNSTARTED to RUNNING, one consumer spawned. *)
Definition start (b : bridge) : bridge :=
  match phase b with
  | UNSTARTED => {| phase := RUNNING; queue := queue b; delivered := delivered b |}
  | _ => b
  end.

(** [put(record)]: valid in RUNNING only. *)
Definition put (r : R) (b : bridge) : option bridge :=
  match phase b with
  | RUNNING =>
      Some {| phase := RUNNING; queue := queue b ++ [r]; delivered := delivered b |}
  | _ => None
  end.

(** One turn of the consumer's loop: emit the oldest queued record; with
    nothing queued, go on waiting (RUNNING) or exit (STOPPING). *)
Definition consume (b : bridge) : bridge :=
  match phase b, queue b with
  | RUNNING, r :: q | STOPPING, r :: q =>
      {| phase := phase b; queue := q; delivered := delivered b ++ [r] |}
  | STOPPING, [] => {| phase := STOPPED; queue := []; delivered := delivered b |}
  | _, _ => b
  end.

(** The stop signal: RUNNING to STOPPING. *)
Definition signal_stop (b : bridge) : bridge :=
  match phase b with
  | RUNNING => {| phase := STOPPING; queue := queue b; delivered := delivered b |}
  | _ => b
  end.

(** The caller waits while the consumer takes its turns. *)
Fixpoint join (turns : nat) (b : bridge) : bridge :=
  match turns with
  | O => b
  | S n => join n (consume b)
  end.

(** [stop()]: a no-op when UNSTARTED or STOPPED; else signal the consumer
    and wait until it has drained the queue and exited. *)
Definition stop (b : bridge) : bridge :=
  match phase b with
  | UNSTARTED | STOPPED => b
  | RUNNING | STOPPING =>
      let b' := signal_stop b in join (S (List.length (queue b'))) b'
  end.

(** What happens to a running bridge before [stop()] is called: a producer
    enqueues a record, or the consumer takes a turn. *)
Inductive event : Type :=
| Put (r : R)
| Turn.

Fixpoint run (events : list event) (b : bridge) : option bridge :=
  match events with
  | [] => Some b
  | Put r :: events' => and_then (put r b) (run events')
  | Turn :: events' => run events' (consume b)
  end.

(** The records enqueued by a run of events, in order. *)
Fixpoint enqueued (events : list event) : list R :=
  match events with
  | [] => []
  | Put r :: events' => r :: enqueued events'
  | Turn :: events' => enqueued events'
  end.

End Bridge.

Arguments bridge R : clear implicits.

End AsyncBridge.

(** ** [setup.py] *)

Module Setup.

(** A handler as [dictConfig] builds it: a queue handler comes with the
    listener made for it (by its index among the process's listeners);
    other handlers have no [listener] attribute. *)
Inductive Handler : Type :=
| QueueHandler (listener : nat)
| OtherHandler.

(** The handlers section of a configuration, already parsed: for each
    name, whether its class is the queue handler. *)
Definition Config : Type := list (string * bool).

(** What of the process the set-up touches: the registry of named
    handlers, the listener objects created so far, and the callbacks
    registered with [atexit] ([n] stands for the bound method [stop] of
    listener [n]), oldest first. *)
Record Process : Type := mk_process {
  handlers : list (string * Handler);
  listeners : list (AsyncBridge.bridge LogRecord);
  atexit_hooks : list nat
}.

Definition fresh_process : Process :=
  {| handlers := []; listeners := []; atexit_hooks := [] |}.

(** The handlers of a configuration, the listeners made for its queue
    handlers numbered from [next]. *)
Fixpoint build_handlers (cfg : Config) (next : nat)
  : list (string * Handler) * list (AsyncBridge.bridge LogRecord) :=
  match cfg with
  | [] => ([], [])
  | (name, true) :: cfg' =>
      let (hs, ls) := build_handlers cfg' (S next) in
      (dict_set name (QueueHandler next) hs, AsyncBridge.create :: ls)
  | (name, false) :: cfg' =>
      let (hs, ls) := build_handlers cfg' next in
      (dict_set name OtherHandler hs, ls)
  end.

(** [logging.config.dictConfig]: the registry is rebuilt from the
    configuration, with a new listener for each queue handler; listeners
    made before stay as they are. *)
Definition dictConfig (cfg : Config) (p : Process) : Process :=
  let (hs, ls) := build_handlers cfg (List.length (listeners p)) in
  {| handlers := hs; listeners := listeners p ++ ls;
     atexit_hooks := atexit_hooks p |}.

(** [logging.getHandlerByName] *)
Definition getHandlerByName (name : string) (p : Process) : option Handler :=
  dict_get name (handlers p).

Fixpoint update_nth {A : Type} (n : nat) (f : A -> A) (l : list A) : list A :=
  match l, n with
  | [], _ => []
  | x :: l', O => f x :: l'
  | x :: l', S n' => x :: update_nth n' f l'
  end.

(** [listener.start()] on listener [n]. *)
Definition listener_start (n : nat) (p : Process) : Process :=
  {| handlers := handlers p;
     listeners := update_nth n AsyncBridge.start (listeners p);
     atexit_hooks := atexit_hooks p |}.

(** [atexit.register(listener.stop)] for listener [n]. *)
Definition atexit_register (n : nat) (p : Process) : Process :=
  {| handlers := handlers p; listeners := listeners p;
     atexit_hooks := atexit_hooks p ++ [n] |}.

(** [setup_logging].  [file] is what opening and parsing the
    configuration file gives. *)
Definition setup_logging (file : result Config) (p : Process) : result Process :=
  log_config <- file ;;
  let p := dictConfig log_config p in
  match getHandlerByName "queue_handler" p with
  | Some (QueueHandler listener) =>
      Ok (atexit_register listener (listener_start listener p))
  | Some OtherHandler => Raise (AttributeError "listener")
  | None => Ok p
  end.

Definition is_running (b : AsyncBridge.bridge LogRecord) : bool :=
  match AsyncBridge.phase b with AsyncBridge.RUNNING => true | _ => false end.

Definition count_running (l : list (AsyncBridge.bridge LogRecord)) : nat :=
  List.length (List.filter is_running l).

(** Listener threads running. *)
Definition running_listeners (p : Process) : nat :=
  count_running (listeners p).

(** A callback registered by [setup_logging] runs: [stop()] of listener
    [n]. *)
Definition run_hook (n : nat) (p : Process) : Process :=
  {| handlers := handlers p;
     listeners := update_nth n AsyncBridge.stop (listeners p);
     atexit_hooks := atexit_hooks p |}.

(** Normal interpreter exit: [atexit] runs the registered callbacks, the
    last registered first. *)
Definition exit_process (p : Process) : Process :=
  fold_left (fun p n => run_hook n p) (rev (atexit_hooks p)) p.

(** The life of listener [n] between set-up and exit: producers enqueue
    records on its queue and its consumer takes its turns. *)
Definition listener_events (n : nat) (events : list (@AsyncBridge.event LogRecord))
    (p : Process) : option Process :=
  match nth_error (listeners p) n with
  | Some b =>
      match AsyncBridge.run events b with
      | Some b' =>
          Some {| handlers := handlers p;
                  listeners := update_nth n (fun _ => b') (listeners p);
                  atexit_hooks := atexit_hooks p |}
      | None => None
      end
  | None => None
  end.

Definition example_config : Config :=
  [("stdout", false); ("stderr", false); ("file", false); ("queue_handler", true)].

End Setup.

(** ** Vocabulary of the further properties *)

(** The record has the attribute, on the instance or on its class. *)
Definition has_attr (r : LogRecord) (attr : string) : bool :=
  match dict_get attr (__dict__ r), dict_get attr (cls_attrs r) with
  | None, None => false
  | _, _ => true
  end.

(** Every source of the mapping can be served: it is an implicit field of
    the record or one of its attributes. *)
(** A source of the mapping that the comprehension can resolve: an
    attribute of the record, or an implicit field that one entry only has
    as source (the first entry to name it pops it). *)
Definition source_available (self : JsonFormatter) (r : LogRecord)
    (val : string) : bool :=
  has_attr r val
  || (mem val (implicit_fields r)
      && Nat.eqb (count_occ string_dec (map snd (fmt_keys self)) val) 1).

Definition sources_available (self : JsonFormatter) (r : LogRecord) : bool :=
  forallb (source_available self r) (map snd (fmt_keys self)).

(** Printable ASCII: U+0020 to U+007E. *)
Definition printable (c : ascii) : bool :=
  let n := nat_of_ascii c in Nat.leb 32 n && Nat.leb n 126.

Definition printable_or_newline (c : ascii) : bool :=
  printable c || Ascii.eqb c newline.

(** A mapping that names an attribute no record has. *)
Definition missing_source_formatter : JsonFormatter :=
  JsonFormatter_init (Some [("level", "levelname"); ("user", "user_id")]) None.

(** Every listener whose thread runs has its [stop] among the exit
    hooks. *)
Definition hooked (p : Setup.Process) : Prop :=
  forall n b,
    nth_error (Setup.listeners p) n = Some b ->
    Setup.is_running b = true ->
    In n (Setup.atexit_hooks p).

(** A configuration whose handler queue_handler is no queue handler. *)
Definition plain_config : Setup.Config :=
  [("stdout", false); ("queue_handler", false)].

(** The formatter of the example, with an indent of two. *)
Definition indented_formatter : JsonFormatter :=
  JsonFormatter_init (Some example_mapping) (Some 2).

(** ** From a date back to its ordinal *)

(** [datetime._is_leap] *)
Definition _is_leap (year : Z) : bool :=
  (year mod 4 =? 0) && (negb (year mod 100 =? 0) || (year mod 400 =? 0)).

(** [datetime._days_before_year] *)
Definition _days_before_year (year : Z) : Z :=
  let y := year - 1 in
  y * 365 + y / 4 - y / 100 + y / 400.

(** [datetime._days_before_month] *)
Definition _days_before_month (year month : Z) : Z :=
  _DAYS_BEFORE_MONTH month + (if (2 <? month) && _is_leap year then 1 else 0).

(** [datetime._ymd2ord] *)
Definition _ymd2ord (year month day : Z) : Z :=
  _days_before_year year + _days_before_month year month + day.

(** The instant of a UTC datetime, in microseconds since the epoch. *)
Definition instant_of (d : datetime) : Z :=
  (((_ymd2ord (year d) (month d) (day d) - EPOCH_ORDINAL) * 86400
    + hour d * 3600 + minute d * 60 + second d) * 1000000)
  + microsecond d.

(** The record of the example, logged from another place of the program
    and by another thread. *)
Definition relocated_record : LogRecord :=
  {| name := "worker"; msg := "Started application"; args := PList [];
     levelname := "INFO"; levelno := INFO;
     pathname := "/srv/app/jobs/worker.py"; filename := "worker.py";
     module := "worker";
     exc_info := None; exc_text := None; stack_info := None;
     lineno := 87; funcName := Some "run";
     created := sample_created;
     msecs := mk_float "123.0" None eq_refl;
     relativeCreated := mk_float "912.25" None eq_refl;
     thread := Some 140777; threadName := Some "Thread-3";
     processName := Some "MainProcess"; process := Some 4242;
     taskName := None;
     extra := [("note", PStr "some extra info here")];
     cls_attrs := [] |}.

(** ** Dicts *)

Lemma eqb_sym_s (a b : string) : String.eqb a b = String.eqb b a.
Proof. apply String.eqb_sym. Qed.

Lemma mem_In (k : string) (l : list string) : mem k l = true <-> In k l.
Proof.
  unfold mem. rewrite existsb_exists. split.
  - intros [x [Hin Heq]]. apply String.eqb_eq in Heq. now subst.
  - intros Hin. exists k. split; [assumption | apply String.eqb_refl].
Qed.

Lemma mem_false (k : string) (l : list string) : mem k l = false <-> ~ In k l.
Proof.
  rewrite <- mem_In. destruct (mem k l); split; intro H; congruence.
Qed.

Lemma mem_app (k : string) (l1 l2 : list string) :
  mem k (l1 ++ l2) = mem k l1 || mem k l2.
Proof. unfold mem. apply existsb_app. Qed.

Section DictLemmas.

Context {V : Type}.
Implicit Types (d : list (string * V)) (k : string) (v : V).

Lemma dict_get_set k k' v d :
  dict_get k (dict_set k' v d) =
  if String.eqb k k' then Some v else dict_get k d.
Proof.
  induction d as [|[k0 v0] d IH]; simpl.
  - reflexivity.
  - destruct (String.eqb k' k0) eqn:E0; simpl.
    + apply String.eqb_eq in E0. subst k0.
      destruct (String.eqb k k'); reflexivity.
    + rewrite IH. destruct (String.eqb k k0) eqn:E1; [|reflexivity].
      apply String.eqb_eq in E1. subst k0.
      rewrite eqb_sym_s, E0. reflexivity.
Qed.

Lemma dict_keys_set k v d :
  dict_keys (dict_set k v d) = add_key (dict_keys d) k.
Proof.
  unfold add_key, dict_keys.
  induction d as [|[k0 v0] d IH]; simpl.
  - reflexivity.
  - destruct (String.eqb k k0) eqn:E0; simpl.
    + apply String.eqb_eq in E0. now subst.
    + rewrite IH. fold (mem k (map fst d)).
      destruct (mem k (map fst d)); reflexivity.
Qed.

Lemma dict_get_del k k' d :
  dict_get k (dict_del k' d) =
  if String.eqb k k' then None else dict_get k d.
Proof.
  unfold dict_del.
  induction d as [|[k0 v0] d IH]; simpl.
  - destruct (String.eqb k k'); reflexivity.
  - destruct (String.eqb k' k0) eqn:E0; simpl.
    + rewrite IH. destruct (String.eqb k k') eqn:E1; [reflexivity|].
      apply String.eqb_eq in E0. subst k0. now rewrite E1.
    + rewrite IH. destruct (String.eqb k k0) eqn:E1; [|reflexivity].
      apply String.eqb_eq in E1. subst k0. now rewrite eqb_sym_s, E0.
Qed.

Lemma dict_get_In k v d : dict_get k d = Some v -> In (k, v) d.
Proof.
  induction d as [|[k0 v0] d IH]; simpl; [discriminate|].
  destruct (String.eqb k k0) eqn:E.
  - apply String.eqb_eq in E. intros [= ->]. subst. now left.
  - intros H. right. auto.
Qed.

Lemma dict_get_None k d : dict_get k d = None <-> ~ In k (dict_keys d).
Proof.
  unfold dict_keys.
  induction d as [|[k0 v0] d IH]; simpl.
  - tauto.
  - destruct (String.eqb k k0) eqn:E.
    + apply String.eqb_eq in E. subst. split; [discriminate | tauto].
    + apply String.eqb_neq in E. rewrite IH. split; intro H.
      * intros [H1 | H1]; [congruence | tauto].
      * tauto.
Qed.

Lemma dict_keys_update d other :
  dict_keys (dict_update d other) =
  fold_left add_key (dict_keys other) (dict_keys d).
Proof.
  unfold dict_update. revert d.
  induction other as [|[k v] other IH]; intros d; simpl.
  - reflexivity.
  - rewrite IH, dict_keys_set. reflexivity.
Qed.

(** After [d.update(other)], a key of [other] holds the value [other]
    last gives it, any other key what it held. *)
Lemma dict_get_update k d other :
  dict_get k (dict_update d other) =
  match dict_get k (rev other) with
  | Some v => Some v
  | None => dict_get k d
  end.
Proof.
  unfold dict_update. revert d.
  induction other as [|[k0 v0] other IH]; intros d; simpl.
  - reflexivity.
  - rewrite IH, dict_get_set.
    assert (Hrev : dict_get k (rev other ++ [(k0, v0)]) =
                   match dict_get k (rev other) with
                   | Some v => Some v
                   | None => if String.eqb k k0 then Some v0 else None
                   end).
    { generalize (rev other). intros l.
      induction l as [|[k1 v1] l IHl]; simpl.
      - reflexivity.
      - destruct (String.eqb k k1); [reflexivity | apply IHl]. }
    rewrite Hrev. destruct (dict_get k (rev other)); [reflexivity|].
    destruct (String.eqb k k0); reflexivity.
Qed.

End DictLemmas.

(** ** Order of keys *)

Lemma add_key_In (k k' : string) (l : list string) :
  In k (add_key l k') <-> In k l \/ k = k'.
Proof.
  unfold add_key. destruct (mem k' l) eqn:E.
  - apply mem_In in E. split; [tauto|]. intros [H | ->]; assumption.
  - rewrite in_app_iff. simpl. intuition congruence.
Qed.

Lemma fold_add_key_In (k : string) (l acc : list string) :
  In k (fold_left add_key l acc) <-> In k acc \/ In k l.
Proof.
  revert acc. induction l as [|x l IH]; intros acc; simpl.
  - tauto.
  - rewrite IH, add_key_In. split; intros H.
    + destruct H as [[H | ->] | H]; auto.
    + destruct H as [H | [-> | H]]; auto.
Qed.

Lemma fold_add_key_NoDup (l acc : list string) :
  NoDup (acc ++ l) -> fold_left add_key l acc = acc ++ l.
Proof.
  revert acc. induction l as [|x l IH]; intros acc Hnd; simpl.
  - now rewrite app_nil_r.
  - assert (Hx : mem x acc = false).
    { apply mem_false. intros Hin. apply NoDup_remove_2 in Hnd.
      apply Hnd. apply in_or_app. now left. }
    unfold add_key at 2. rewrite Hx.
    rewrite IH; rewrite <- app_assoc; simpl; [reflexivity | assumption].
Qed.

Lemma first_occurrences_NoDup (l : list string) :
  NoDup l -> first_occurrences l = l.
Proof. intros H. unfold first_occurrences. now rewrite fold_add_key_NoDup. Qed.

Lemma filter_twice {A : Type} (p q : A -> bool) (l : list A) :
  filter p (filter q l) = filter (fun x => q x && p x) l.
Proof.
  induction l as [|x l IH]; simpl; [reflexivity|].
  destruct (q x); simpl; [destruct (p x)|]; now rewrite IH.
Qed.

Lemma dict_keys_filter {V : Type} (f : string -> bool) (d : list (string * V)) :
  dict_keys (filter (fun kv => f (fst kv)) d) = filter f (dict_keys d).
Proof.
  unfold dict_keys.
  induction d as [|[k v] d IH]; simpl; [reflexivity|].
  destruct (f k); simpl; now rewrite IH.
Qed.

Lemma apply_fmt_keys_shape (r : LogRecord) (items : list (string * string)) :
  forall af message message' af',
    apply_fmt_keys r items af message = Ok (message', af') ->
    dict_keys message' = fold_left add_key (map fst items) (dict_keys message)
    /\ af' = left_over items af.
Proof.
  induction items as [|[key val] items IH]; intros af message message' af' H.
  - simpl in H. injection H as <- <-. split; [reflexivity|].
    unfold left_over. simpl. induction af as [|x af IHaf]; simpl; congruence.
  - simpl in H.
    destruct (match dict_get val af with
              | Some msg_val => if is_None msg_val then getattr r val else Ok msg_val
              | None => getattr r val
              end) as [v|e]; simpl in H; [|discriminate].
    apply IH in H. destruct H as [Hk Haf]. split.
    + rewrite Hk, dict_keys_set. reflexivity.
    + rewrite Haf. unfold left_over, dict_del. rewrite filter_twice.
      apply filter_ext. intros [k x]. simpl.
      rewrite (eqb_sym_s val k). destruct (String.eqb k val); reflexivity.
Qed.

Lemma fold_skip_keys (skip : string -> bool) (d message : pydict) :
  dict_keys
    (fold_left
       (fun message kv =>
          if skip (fst kv) then message else dict_set (fst kv) (snd kv) message)
       d message) =
  fold_left add_key (filter (fun k => negb (skip k)) (dict_keys d))
    (dict_keys message).
Proof.
  revert message. induction d as [|[k v] d IH]; intros message; simpl.
  - reflexivity.
  - destruct (skip k); simpl.
    + apply IH.
    + rewrite IH, dict_keys_set. reflexivity.
Qed.

Lemma add_custom_attrs_keys (r : LogRecord) (message : pydict) :
  dict_keys (add_custom_attrs r message) =
  fold_left add_key (extra_fields r) (dict_keys message).
Proof.
  unfold add_custom_attrs, extra_fields.
  apply (fold_skip_keys (fun k => mem k LOG_RECORD_BUILTIN_ATTRS)).
Qed.

Section FormatterFacts.

Variable str_mod : string -> pyval -> result string.

Lemma always_fields_keys (self : JsonFormatter) (r : LogRecord) (af : pydict) :
  always_fields str_mod self r = Ok af ->
  dict_keys af = implicit_fields r.
Proof.
  unfold always_fields, implicit_fields. intros H.
  destruct (getMessage str_mod r); simpl in H; [|discriminate].
  destruct (fromtimestamp_utc (created r)); simpl in H; [|discriminate].
  destruct (exc_info r) as [ei|];
    [destruct (formatException ei); simpl in H; [|discriminate]|];
    simpl in H; injection H as <-; destruct (stack_info r); reflexivity.
Qed.

Lemma prepare_keys (self : JsonFormatter) (r : LogRecord) (out : pydict) :
  _prepare_log_dict str_mod self r = Ok out ->
  dict_keys out =
  first_occurrences
    (map fst (fmt_keys self) ++ unconsumed_fields self r ++ extra_fields r).
Proof.
  unfold _prepare_log_dict. intros H.
  destruct (always_fields str_mod self r) as [af|] eqn:Haf; simpl in H; [|discriminate].
  destruct (apply_fmt_keys r (fmt_keys self) af []) as [[message af']|] eqn:Hap;
    simpl in H; [|discriminate].
  injection H as <-.
  apply apply_fmt_keys_shape in Hap. destruct Hap as [Hk ->].
  apply always_fields_keys in Haf.
  rewrite add_custom_attrs_keys, dict_keys_update, Hk.
  unfold first_occurrences. rewrite !fold_left_app. simpl.
  unfold left_over. rewrite (dict_keys_filter (fun k => negb (mem k (map snd (fmt_keys self))))).
  rewrite Haf. reflexivity.
Qed.

End FormatterFacts.

(** ** The encoder *)

Lemma encode_PList (l : list pyval) :
  encode (PList l) = items <- encode_items l ;; Ok (JArr items).
Proof.
  reflexivity.
Qed.

Lemma encode_PDict (d : list (pykey * pyval)) :
  encode (PDict d) = members <- encode_members d ;; Ok (JObj members).
Proof.
  reflexivity.
Qed.

Lemma bind_Ok {A B : Type} (m : result A) (k : A -> result B) (b : B) :
  bind m k = Ok b -> exists a, m = Ok a /\ k a = Ok b.
Proof. destruct m as [a|e]; simpl; [eauto | discriminate]. Qed.

(** A dict with str keys is written as an object with the same keys in the
    same order, each with the document of its value. *)
Lemma encode_as_value (d : pydict) (j : json) :
  encode (as_value d) = Ok j ->
  exists members,
    j = JObj members
    /\ map fst members = dict_keys d
    /\ (forall k v, dict_get k d = Some v ->
          exists jv, encode v = Ok jv /\ dict_get k members = Some jv)
    /\ (forall k v, In (k, v) d -> exists jv, encode v = Ok jv /\ In (k, jv) members).
Proof.
  unfold as_value. rewrite encode_PDict. intros H.
  apply bind_Ok in H. destruct H as [members [Hm Hj]]. injection Hj as <-.
  exists members. split; [reflexivity|].
  revert members Hm. induction d as [|[k0 v0] d IH]; intros members Hm; simpl in Hm.
  - injection Hm as <-. split; [reflexivity|]. split.
    + intros k v. simpl. discriminate.
    + intros k v [].
  - apply bind_Ok in Hm. destruct Hm as [j0 [Hj0 Hm]].
    apply bind_Ok in Hm. destruct Hm as [ms [Hms Hm]]. injection Hm as <-.
    destruct (IH ms Hms) as [Hk [Hget Hin]].
    split; [|split].
    + simpl. now rewrite Hk.
    + intros k v. simpl. destruct (String.eqb k k0).
      * intros [= <-]. eauto.
      * apply Hget.
    + intros k v [Heq | Hi].
      * injection Heq as <- <-. exists j0. split; [assumption | now left].
      * destruct (Hin k v Hi) as [jv [Hjv Hi']]. exists jv. split; [assumption | now right].
Qed.

Lemma encode_as_value_None (d : pydict) (members : list (string * json)) (k : string) :
  encode (as_value d) = Ok (JObj members) ->
  dict_get k d = None -> dict_get k members = None.
Proof.
  intros H Hnone. apply encode_as_value in H.
  destruct H as [ms [Heq [Hk _]]]. injection Heq as <-.
  apply dict_get_None. rewrite dict_get_None in Hnone.
  unfold dict_keys in *. now rewrite Hk.
Qed.

(** ** Timestamps *)

Lemma digit_char_ok (x : Z) :
  0 <= x < 10 -> is_digit (digit_char x) = true /\ digit_val (digit_char x) = x.
Proof.
  intros H.
  assert (Hx : x = 0 \/ x = 1 \/ x = 2 \/ x = 3 \/ x = 4 \/ x = 5 \/ x = 6
               \/ x = 7 \/ x = 8 \/ x = 9) by lia.
  repeat (destruct Hx as [-> | Hx]; [split; reflexivity|]).
  subst. split; reflexivity.
Qed.

Lemma zpad_take_digits (w : nat) :
  forall n acc m,
    0 <= n < 10 ^ Z.of_nat w ->
    take_digits (w + m) (zpad w n acc) = take_digits m acc.
Proof.
  induction w as [|w IH]; intros n acc m Hn.
  - simpl in *. assert (n = 0) by lia. subst. reflexivity.
  - rewrite Nat2Z.inj_succ, Z.pow_succ_r in Hn by lia.
    cbn [zpad]. replace (S w + m)%nat with (w + S m)%nat by lia.
    rewrite IH.
    + cbn [take_digits].
      destruct (digit_char_ok (n mod 10)) as [Hd _]; [lia|].
      now rewrite Hd.
    + split; [apply Z.div_pos; lia | apply Z.div_lt_upper_bound; lia].
Qed.

Lemma zpad_digits (w : nat) (n : Z) (rest : string) :
  0 <= n < 10 ^ Z.of_nat w -> take_digits w (zpad w n rest) = Some rest.
Proof.
  intros H. rewrite <- (Nat.add_0_r w) at 1. now rewrite zpad_take_digits.
Qed.

Lemma zpad_field (lo hi n : Z) (rest : string) :
  0 <= n < 100 -> lo <= n <= hi ->
  take_field lo hi (zpad 2 n rest) = Some rest.
Proof.
  intros Hn Hr. cbn [zpad].
  assert (H0 : n / 10 / 10 = 0) by lia. rewrite H0. cbn [Z.eqb].
  unfold take_field.
  destruct (digit_char_ok (n / 10 mod 10)) as [Ha Hva]; [lia|].
  destruct (digit_char_ok (n mod 10)) as [Hb Hvb]; [lia|].
  rewrite Ha, Hb, Hva, Hvb. cbn [andb].
  assert (Hv : 10 * (n / 10 mod 10) + n mod 10 = n) by lia.
  rewrite Hv.
  assert (H1 : (lo <=? n) = true) by (apply Z.leb_le; lia).
  assert (H2 : (n <=? hi) = true) by (apply Z.leb_le; lia).
  now rewrite H1, H2.
Qed.

Lemma append_assoc_s (a b c : string) : (a +++ b) +++ c = a +++ (b +++ c).
Proof. induction a as [|x a IH]; simpl; [reflexivity | now rewrite IH]. Qed.

Lemma zpad_append (w : nat) :
  forall n acc s, zpad w n acc +++ s = zpad w n (acc +++ s).
Proof.
  induction w as [|w IH]; intros n acc s; cbn [zpad].
  - destruct (n =? 0); [reflexivity|].
    apply append_assoc_s.
  - rewrite IH. reflexivity.
Qed.

Lemma month_day_table :
  forallb (fun n => month_day_ok (_month_day (Z.of_nat n) true)
                    && month_day_ok (_month_day (Z.of_nat n) false))
          (seq 0 365) = true.
Proof. vm_compute. reflexivity. Qed.

Lemma _month_day_bounds (n : Z) (leapyear : bool) :
  0 <= n < 365 ->
  1 <= fst (_month_day n leapyear) <= 12 /\ 1 <= snd (_month_day n leapyear) <= 31.
Proof.
  intros Hn.
  pose proof month_day_table as T. rewrite forallb_forall in T.
  specialize (T (Z.to_nat n)).
  rewrite Z2Nat.id in T by lia.
  assert (Hin : In (Z.to_nat n) (seq 0 365)) by (apply in_seq; lia).
  apply T in Hin. apply andb_true_iff in Hin. destruct Hin as [Ht Hf].
  assert (Hok : month_day_ok (_month_day n leapyear) = true)
    by (destruct leapyear; assumption).
  unfold month_day_ok in Hok.
  repeat rewrite andb_true_iff in Hok. repeat rewrite Z.leb_le in Hok. lia.
Qed.

Lemma _ord2ymd_bounds (ordinal : Z) :
  1 <= snd (fst (_ord2ymd ordinal)) <= 12 /\ 1 <= snd (_ord2ymd ordinal) <= 31.
Proof.
  unfold _ord2ymd.
  match goal with |- context [if ?c then _ else _] => destruct c end.
  - simpl. lia.
  - cbn [fst snd]. apply _month_day_bounds. apply Z.mod_pos_bound. lia.
Qed.

(** A datetime that [fromtimestamp] returns has its fields in range. *)
Lemma fromtimestamp_utc_range (t : pyfloat) (d : datetime) :
  fromtimestamp_utc t = Ok d ->
  1 <= year d <= 9999 /\ 1 <= month d <= 12 /\ 1 <= day d <= 31
  /\ 0 <= hour d <= 23 /\ 0 <= minute d <= 59 /\ 0 <= second d <= 59
  /\ 0 <= microsecond d <= 999999.
Proof.
  unfold fromtimestamp_utc. destruct (float_micros t) as [m|];
    [|destruct (String.eqb (float_repr t) "nan"); discriminate].
  set (secs := m / 1000000). set (rem := secs mod 86400).
  set (ymd := _ord2ymd (secs / 86400 + EPOCH_ORDINAL)).
  destruct ((secs <? TIME_T_MIN) || (TIME_T_MAX <? secs)); [discriminate|].
  destruct ((fst (fst ymd) - 1900 <? INT_MIN) || (INT_MAX <? fst (fst ymd) - 1900));
    [discriminate|].
  destruct ((fst (fst ymd) <? MINYEAR) || (MAXYEAR <? fst (fst ymd))) eqn:Hy;
    [discriminate|].
  intros [= <-]. cbn [year month day hour minute second microsecond].
  apply orb_false_iff in Hy. destruct Hy as [Hy1 Hy2].
  apply Z.ltb_ge in Hy1. apply Z.ltb_ge in Hy2. unfold MINYEAR, MAXYEAR in *.
  pose proof (_ord2ymd_bounds (secs / 86400 + EPOCH_ORDINAL)) as Hmd.
  fold ymd in Hmd.
  assert (Hrem : 0 <= rem < 86400) by (apply Z.mod_pos_bound; lia).
  assert (Hus : 0 <= m mod 1000000 < 1000000) by (apply Z.mod_pos_bound; lia).
  repeat split; try tauto; try lia.
Qed.

Lemma isoformat_is_iso8601 (d : datetime) :
  1 <= year d <= 9999 -> 1 <= month d <= 12 -> 1 <= day d <= 31 ->
  0 <= hour d <= 23 -> 0 <= minute d <= 59 -> 0 <= second d <= 59 ->
  0 <= microsecond d <= 999999 ->
  is_iso8601_utc (isoformat d) = true.
Proof.
  intros Hy Hm Hd Hh Hmi Hs Hus.
  unfold is_iso8601_utc, isoformat, take_date_time.
  rewrite (zpad_digits 4) by (simpl; lia). cbn [and_then take_char Ascii.eqb Bool.eqb].
  rewrite zpad_field by lia. cbn [and_then take_char Ascii.eqb Bool.eqb].
  rewrite zpad_field by lia. cbn [and_then take_char Ascii.eqb Bool.eqb].
  rewrite zpad_field by lia. cbn [and_then take_char Ascii.eqb Bool.eqb].
  rewrite zpad_field by lia. cbn [and_then take_char Ascii.eqb Bool.eqb].
  rewrite zpad_field by lia.
  destruct (microsecond d =? 0).
  - reflexivity.
  - cbn [String.append]. rewrite zpad_append. cbn [String.append].
    cbn [and_then take_char Ascii.eqb Bool.eqb].
    rewrite (zpad_digits 6) by (simpl; lia).
    rewrite String.eqb_refl. apply orb_true_r.
Qed.

Lemma fromtimestamp_utc_iso (t : pyfloat) (d : datetime) :
  fromtimestamp_utc t = Ok d -> is_iso8601_utc (isoformat d) = true.
Proof.
  intros H. apply fromtimestamp_utc_range in H.
  apply isoformat_is_iso8601; tauto.
Qed.

(** ** Reading back the text of a document *)

Lemma render_JArr_cons ind lvl x items :
  render ind lvl (JArr (x :: items)) =
  "[" +++ newline_indent ind (S lvl) +++ render ind (S lvl) x
  +++ render_items ind (S lvl) items +++ newline_indent ind lvl +++ "]".
Proof.
  cbn [render]. do 3 f_equal.
  induction items as [|y items IH]; [reflexivity|].
  cbn [render_items]. rewrite !append_assoc_s. do 3 f_equal. exact IH.
Qed.

Lemma render_JObj_cons ind lvl k x members :
  render ind lvl (JObj ((k, x) :: members)) =
  "{" +++ newline_indent ind (S lvl) +++ encode_basestring_ascii k +++ key_separator
  +++ render ind (S lvl) x
  +++ render_members ind (S lvl) members +++ newline_indent ind lvl +++ "}".
Proof.
  cbn [render]. do 5 f_equal.
  induction members as [|[k' y] members IH]; [reflexivity|].
  cbn [render_members]. rewrite !append_assoc_s. do 5 f_equal. exact IH.
Qed.

Lemma json_size_JArr items : json_size (JArr items) = S (items_size items).
Proof.
  reflexivity.
Qed.

Lemma json_size_JObj members : json_size (JObj members) = S (members_size members).
Proof.
  reflexivity.
Qed.

(** *** Strings *)

Lemma read_escape_char (c : ascii) (tail : string) :
  read_string (escape_char c +++ tail) = cons_char c (read_string tail).
Proof.
  destruct c as [[] [] [] [] [] [] [] []]; reflexivity.
Qed.

Lemma read_escape (s rest : string) :
  read_string (escape s +++ String quote rest) = Some (s, rest).
Proof.
  induction s as [|c s IH]; simpl.
  - reflexivity.
  - rewrite append_assoc_s, read_escape_char, IH. reflexivity.
Qed.

(** *** Numbers *)

Lemma uint_digits (d : Decimal.uint) :
  all_chars is_digit (NilEmpty.string_of_uint d) = true.
Proof. induction d; simpl; auto. Qed.

(** The decimal text of an int: digits, after a minus sign when it is
    negative. *)
Lemma dec_shape (z : Z) :
  exists c ds,
    is_digit c = true /\ all_chars is_digit ds = true
    /\ (dec z = String c ds \/ dec z = String "-" (String c ds)).
Proof.
  assert (H : forall p, exists c ds,
             is_digit c = true /\ all_chars is_digit ds = true
             /\ NilZero.string_of_uint (Pos.to_uint p) = String c ds).
  { intros p. pose proof (Unsigned.to_uint_nonnil p) as Hn.
    pose proof (uint_digits (Pos.to_uint p)) as Hd.
    destruct (Pos.to_uint p) as [|d|d|d|d|d|d|d|d|d|d]; [congruence| ..];
      simpl in *;
      refine (ex_intro _ _ (ex_intro _ _ (conj _ (conj Hd eq_refl))));
      reflexivity. }
  unfold dec. destruct z as [|p|p]; simpl.
  - exists "0"%char, "". auto.
  - destruct (H p) as [c [ds [Hc [Hds Heq]]]]. exists c, ds. auto.
  - destruct (H p) as [c [ds [Hc [Hds Heq]]]]. exists c, ds. rewrite Heq. auto.
Qed.

Lemma dec_reads (z : Z) :
  NilZero.int_of_string (dec z) = Some (Z.to_int z).
Proof.
  unfold dec. apply NilZero.isi.
  - destruct z as [|p|p]; simpl; try discriminate.
    intros [= H]. now apply (Unsigned.to_uint_nonnil p).
  - destruct z as [|p|p]; simpl; try discriminate.
    intros [= H]. now apply (Unsigned.to_uint_nonnil p).
Qed.

Lemma span_all (f : ascii -> bool) (t rest : string) :
  all_chars f t = true ->
  match rest with EmptyString => true | String c _ => negb (f c) end = true ->
  span f (t +++ rest) = (t, rest).
Proof.
  intros Ht Hr. induction t as [|c t IH]; simpl in *.
  - destruct rest as [|c r]; [reflexivity|]. simpl.
    apply negb_true_iff in Hr. now rewrite Hr.
  - apply andb_true_iff in Ht. destruct Ht as [Hc Ht].
    rewrite Hc, IH by assumption. reflexivity.
Qed.

Lemma span_all_nil (f : ascii -> bool) (t : string) :
  all_chars f t = true -> span f t = (t, "").
Proof.
  intros Ht. induction t as [|c t IH]; simpl in *; [reflexivity|].
  apply andb_true_iff in Ht. destruct Ht as [Hc Ht].
  now rewrite Hc, IH.
Qed.

Lemma digit_not_special (c : ascii) :
  is_digit c = true ->
  is_char "-" c = false /\ is_char "." c = false /\ is_char "e" c = false
  /\ is_char "E" c = false /\ is_char "0" c = Ascii.eqb "0" c.
Proof.
  destruct c as [[] [] [] [] [] [] [] []]; try discriminate; intros _;
    repeat split; reflexivity.
Qed.

Lemma digits_not_float (c : ascii) (ds : string) :
  is_digit c = true -> all_chars is_digit ds = true ->
  is_float_token (String c ds) = false
  /\ is_float_token (String "-" (String c ds)) = false.
Proof.
  intros Hc Hds.
  assert (Hs3 : all_chars is_digit
                  (if is_char "0" c then ds else snd (span is_digit ds)) = true).
  { destruct (is_char "0" c); [assumption|].
    rewrite span_all_nil by assumption. reflexivity. }
  assert (H : is_float_token (String c ds) = false).
  { unfold is_float_token.
    destruct (digit_not_special c Hc) as [Hm _]. rewrite Hm, Hc.
    destruct (if is_char "0" c then ds else snd (span is_digit ds)) as [|d s'];
      [reflexivity|].
    simpl in Hs3. apply andb_true_iff in Hs3. destruct Hs3 as [Hd _].
    destruct (digit_not_special d Hd) as [_ [Hp [He [HE _]]]].
    rewrite Hp, He, HE. reflexivity. }
  split; [exact H|].
  unfold is_float_token in *. cbn [is_char Ascii.eqb Bool.eqb].
  destruct (digit_not_special c Hc) as [Hm _]. rewrite Hm in H. exact H.
Qed.

Lemma number_of_dec (z : Z) : number_of_token (dec z) = Some (JInt z).
Proof.
  unfold number_of_token.
  assert (Hf : is_float_token (dec z) = false).
  { destruct (dec_shape z) as [c [ds [Hc [Hds [-> | ->]]]]];
      now apply digits_not_float. }
  rewrite Hf, dec_reads, DecimalZ.of_to, String.eqb_refl. reflexivity.
Qed.

Lemma dec_starts_number (z : Z) (rest : string) :
  starts_number (dec z +++ rest) = true.
Proof.
  destruct (dec_shape z) as [c [ds [Hc [Hds [-> | ->]]]]]; simpl;
    rewrite Hc; reflexivity.
Qed.

Lemma float_token_starts_number (t rest : string) :
  is_float_token t = true -> starts_number (t +++ rest) = true.
Proof.
  unfold is_float_token. destruct t as [|c t]; [discriminate|].
  destruct (is_char "-" c) eqn:Hm.
  - destruct t as [|c' t']; [discriminate|].
    destruct (is_digit c') eqn:Hd; [|discriminate].
    intros _. cbn [starts_number String.append]. rewrite Hm, Hd. apply orb_true_r.
  - destruct (is_digit c) eqn:Hd; [|discriminate].
    intros _. cbn [starts_number String.append]. now rewrite Hd.
Qed.

(** Before a number, the reader takes none of the other branches. *)
Lemma number_dispatch (s : string) (fuel : nat) :
  starts_number s = true ->
  parse_value (S fuel) s =
  let (t, rest) := span is_number_char s in
  match number_of_token t with
  | Some j => Some (j, rest)
  | None => None
  end.
Proof.
  destruct s as [|c s]; [discriminate|]. cbn [starts_number].
  destruct (is_digit c) eqn:Hd.
  - intros _. revert Hd.
    destruct c as [[] [] [] [] [] [] [] []]; try discriminate; intros _; reflexivity.
  - destruct (is_char "-" c) eqn:Hm; [|discriminate].
    apply Ascii.eqb_eq in Hm. subst c.
    destruct s as [|c' s']; [discriminate|]. cbn [orb andb]. intros Hd'.
    revert Hd'.
    destruct c' as [[] [] [] [] [] [] [] []]; try discriminate; intros _; reflexivity.
Qed.

Lemma all_number_chars_dec (z : Z) : all_chars is_number_char (dec z) = true.
Proof.
  assert (H : forall ds, all_chars is_digit ds = true ->
                         all_chars is_number_char ds = true).
  { induction ds as [|c ds IH]; simpl; [reflexivity|].
    intros Hc. apply andb_true_iff in Hc. destruct Hc as [Hc Hds].
    unfold is_number_char at 1. rewrite Hc. simpl. auto. }
  destruct (dec_shape z) as [c [ds [Hc [Hds [-> | ->]]]]].
  - apply H. simpl. now rewrite Hc.
  - change (all_chars is_number_char (String c ds) = true).
    apply H. simpl. now rewrite Hc.
Qed.

Lemma parse_int (z : Z) (fuel : nat) (rest : string) :
  safe_rest rest = true ->
  parse_value (S fuel) (dec z +++ rest) = Some (JInt z, rest).
Proof.
  intros Hr. rewrite number_dispatch by apply dec_starts_number.
  rewrite (span_all _ _ _ (all_number_chars_dec z) Hr).
  now rewrite number_of_dec.
Qed.

Lemma parse_float (t : string) (fuel : nat) (rest : string) :
  json_float_ok t = true -> safe_rest rest = true ->
  parse_value (S fuel) (t +++ rest) = Some (JFloat t, rest).
Proof.
  unfold json_float_ok. intros Ht Hr.
  destruct (String.eqb t "NaN") eqn:E1; [apply String.eqb_eq in E1; now subst|].
  destruct (String.eqb t "Infinity") eqn:E2; [apply String.eqb_eq in E2; now subst|].
  destruct (String.eqb t "-Infinity") eqn:E3; [apply String.eqb_eq in E3; now subst|].
  simpl in Ht. apply andb_true_iff in Ht. destruct Ht as [Hall Htok].
  rewrite number_dispatch by now apply float_token_starts_number.
  rewrite (span_all _ _ _ Hall Hr).
  unfold number_of_token. now rewrite Htok.
Qed.

(** *** White space *)

Lemma skip_ws_app (w s : string) :
  all_chars is_ws w = true -> skip_ws (w +++ s) = skip_ws s.
Proof.
  induction w as [|c w IH]; simpl; [reflexivity|].
  intros H. apply andb_true_iff in H. destruct H as [Hc Hw].
  rewrite Hc. now apply IH.
Qed.

Lemma all_chars_app (f : ascii -> bool) (a b : string) :
  all_chars f (a +++ b) = all_chars f a && all_chars f b.
Proof.
  induction a as [|c a IH]; simpl; [reflexivity|].
  now rewrite IH, andb_assoc.
Qed.

Lemma newline_indent_ws (ind : option Z) (lvl : nat) :
  all_chars is_ws (newline_indent ind lvl) = true.
Proof.
  destruct ind as [n|]; [|reflexivity]. cbn [newline_indent all_chars].
  assert (Hu : all_chars is_ws (indent_unit n) = true).
  { unfold indent_unit. induction (Z.to_nat n) as [|k IH]; simpl; auto. }
  assert (H : all_chars is_ws (repeat_string lvl (indent_unit n)) = true).
  { induction lvl as [|lvl IH]; simpl; [reflexivity|].
    now rewrite all_chars_app, Hu, IH. }
  now rewrite H.
Qed.

Lemma parse_value_ws (w s : string) (fuel : nat) :
  all_chars is_ws w = true -> parse_value fuel (w +++ s) = parse_value fuel s.
Proof.
  intros H. destruct fuel; [reflexivity|]. cbn [parse_value].
  now rewrite skip_ws_app.
Qed.

Lemma read_key_ws (w s : string) :
  all_chars is_ws w = true -> read_key (w +++ s) = read_key s.
Proof. intros H. unfold read_key. now rewrite skip_ws_app. Qed.

Lemma parse_items_ws (w s : string) (fuel : nat) :
  all_chars is_ws w = true -> parse_items fuel (w +++ s) = parse_items fuel s.
Proof.
  intros H. destruct fuel; [reflexivity|]. cbn [parse_items].
  now rewrite skip_ws_app.
Qed.

Lemma parse_members_ws (w s : string) (fuel : nat) :
  all_chars is_ws w = true -> parse_members fuel (w +++ s) = parse_members fuel s.
Proof.
  intros H. destruct fuel; [reflexivity|]. cbn [parse_members].
  now rewrite skip_ws_app.
Qed.

(** *** The reader's branches *)

Lemma parse_value_array (fuel : nat) (s : string) :
  parse_value (S fuel) (String "[" s) =
  match skip_ws s with
  | EmptyString => None
  | String c' s'' =>
      if is_char "]" c' then Some (JArr [], s'')
      else
        match parse_value fuel s with
        | Some (x, rest) =>
            match parse_items fuel rest with
            | Some (xs, rest') => Some (JArr (x :: xs), rest')
            | None => None
            end
        | None => None
        end
  end.
Proof. reflexivity. Qed.

Lemma parse_value_object (fuel : nat) (s : string) :
  parse_value (S fuel) (String "{" s) =
  match skip_ws s with
  | EmptyString => None
  | String c' s'' =>
      if is_char "}" c' then Some (JObj [], s'')
      else
        match read_key s with
        | Some (k, rest) =>
            match parse_value fuel rest with
            | Some (x, rest') =>
                match parse_members fuel rest' with
                | Some (ms, rest'') => Some (JObj ((k, x) :: ms), rest'')
                | None => None
                end
            | None => None
            end
        | None => None
        end
  end.
Proof. reflexivity. Qed.

Lemma parse_value_string (fuel : nat) (s : string) :
  parse_value (S fuel) (String quote s) =
  match read_string s with
  | Some (str, rest) => Some (JStr str, rest)
  | None => None
  end.
Proof. reflexivity. Qed.

Lemma parse_items_close (fuel : nat) (s : string) :
  parse_items (S fuel) (String "]" s) = Some ([], s).
Proof. reflexivity. Qed.

Lemma parse_items_comma (fuel : nat) (s : string) :
  parse_items (S fuel) (String "," s) =
  match parse_value fuel s with
  | Some (x, rest) =>
      match parse_items fuel rest with
      | Some (xs, rest') => Some (x :: xs, rest')
      | None => None
      end
  | None => None
  end.
Proof. reflexivity. Qed.

Lemma parse_members_close (fuel : nat) (s : string) :
  parse_members (S fuel) (String "}" s) = Some ([], s).
Proof. reflexivity. Qed.

Lemma parse_members_comma (fuel : nat) (s : string) :
  parse_members (S fuel) (String "," s) =
  match read_key s with
  | Some (k, rest) =>
      match parse_value fuel rest with
      | Some (x, rest') =>
          match parse_members fuel rest' with
          | Some (ms, rest'') => Some ((k, x) :: ms, rest'')
          | None => None
          end
      | None => None
      end
  | None => None
  end.
Proof. reflexivity. Qed.

Lemma read_key_render (k rest : string) :
  read_key (encode_basestring_ascii k +++ key_separator +++ rest)
  = Some (k, String " " rest).
Proof.
  unfold encode_basestring_ascii, key_separator.
  cbn [String.append]. rewrite append_assoc_s. cbn [String.append].
  unfold read_key.
  change (skip_ws (String quote ?s)) with (String quote s).
  cbn [skip_ws]. change (is_ws quote) with false. cbv iota.
  rewrite Ascii.eqb_refl, read_escape. reflexivity.
Qed.

(** *** Documents *)

Lemma number_start_plain (s : string) :
  starts_number s = true ->
  exists c s0, s = String c s0 /\ is_ws c = false /\ is_char "]" c = false.
Proof.
  destruct s as [|c s0]; [discriminate|]. cbn [starts_number]. intros H.
  exists c, s0. split; [reflexivity|].
  destruct (is_digit c) eqn:Hd.
  - revert Hd. destruct c as [[] [] [] [] [] [] [] []]; try discriminate;
      intros _; split; reflexivity.
  - destruct (is_char "-" c) eqn:Hm; [|discriminate].
    apply Ascii.eqb_eq in Hm. subst c. split; reflexivity.
Qed.

(** The text of a document opens with a character that is neither white
    space nor a closing bracket. *)
Lemma render_head (ind : option Z) (lvl : nat) (j : json) (rest : string) :
  json_ok j = true ->
  exists c s0,
    render ind lvl j +++ rest = String c s0
    /\ is_ws c = false /\ is_char "]" c = false.
Proof.
  intros Hok. destruct j as [| [|] | z | t | s | [|x items] | [|[k x] members]];
    try (do 2 eexists; split; [reflexivity | split; reflexivity]).
  - apply number_start_plain. apply dec_starts_number.
  - cbn [render]. cbn [json_ok] in Hok. unfold json_float_ok in Hok.
    destruct (String.eqb t "NaN") eqn:E1;
      [apply String.eqb_eq in E1; subst; do 2 eexists;
       split; [reflexivity | split; reflexivity]|].
    destruct (String.eqb t "Infinity") eqn:E2;
      [apply String.eqb_eq in E2; subst; do 2 eexists;
       split; [reflexivity | split; reflexivity]|].
    destruct (String.eqb t "-Infinity") eqn:E3;
      [apply String.eqb_eq in E3; subst; do 2 eexists;
       split; [reflexivity | split; reflexivity]|].
    simpl in Hok. apply andb_true_iff in Hok. destruct Hok as [_ Htok].
    apply number_start_plain. now apply float_token_starts_number.
Qed.

Lemma items_tail_safe (ind : option Z) (lvl lvl' : nat) (items : list json)
    (rest : string) :
  safe_rest (render_items ind lvl items +++ newline_indent ind lvl' +++ String "]" rest)
  = true.
Proof. destruct items, ind; reflexivity. Qed.

Lemma members_tail_safe (ind : option Z) (lvl lvl' : nat)
    (members : list (string * json)) (rest : string) :
  safe_rest (render_members ind lvl members +++ newline_indent ind lvl'
             +++ String "}" rest) = true.
Proof. destruct members as [|[k x] members], ind; reflexivity. Qed.

Lemma item_separator_comma (ind : option Z) (s : string) :
  exists w, all_chars is_ws w = true /\ item_separator ind +++ s = String "," (w +++ s).
Proof.
  destruct ind.
  - exists "". split; reflexivity.
  - exists " ". split; reflexivity.
Qed.

Lemma parse_items_render (items : list json) :
  Forall reads_back items ->
  forallb json_ok items = true ->
  forall ind lvl lvl' fuel rest,
    (S (items_size items) <= fuel)%nat ->
    parse_items fuel
      (render_items ind lvl items +++ newline_indent ind lvl' +++ String "]" rest)
    = Some (items, rest).
Proof.
  intros IH. induction IH as [|y items Hy _ IHitems]; intros Hok ind lvl lvl' fuel rest Hf.
  - cbn [render_items String.append].
    rewrite parse_items_ws by apply newline_indent_ws.
    destruct fuel; [lia|]. apply parse_items_close.
  - cbn [forallb] in Hok. apply andb_true_iff in Hok. destruct Hok as [Hoky Hoks].
    cbn [render_items items_size] in *. rewrite !append_assoc_s.
    destruct (item_separator_comma ind
                (newline_indent ind lvl +++ render ind lvl y
                 +++ render_items ind lvl items +++ newline_indent ind lvl'
                 +++ String "]" rest)) as [w [Hw ->]].
    destruct fuel as [|fuel]; [lia|]. rewrite parse_items_comma.
    rewrite parse_value_ws by assumption.
    rewrite parse_value_ws by apply newline_indent_ws.
    rewrite (Hy Hoky) by (try apply items_tail_safe; lia).
    rewrite IHitems by (try assumption; lia). reflexivity.
Qed.

Lemma parse_members_render (members : list (string * json)) :
  Forall (fun m => reads_back (snd m)) members ->
  forallb (fun m => json_ok (snd m)) members = true ->
  forall ind lvl lvl' fuel rest,
    (S (members_size members) <= fuel)%nat ->
    parse_members fuel
      (render_members ind lvl members +++ newline_indent ind lvl' +++ String "}" rest)
    = Some (members, rest).
Proof.
  intros IH. induction IH as [|[k y] members Hy _ IHmembers];
    intros Hok ind lvl lvl' fuel rest Hf.
  - cbn [render_members String.append].
    rewrite parse_members_ws by apply newline_indent_ws.
    destruct fuel; [lia|]. apply parse_members_close.
  - cbn [forallb snd] in Hok. apply andb_true_iff in Hok. destruct Hok as [Hoky Hoks].
    cbn [render_members members_size snd] in *. rewrite !append_assoc_s.
    destruct (item_separator_comma ind
                (newline_indent ind lvl +++ encode_basestring_ascii k
                 +++ key_separator +++ render ind lvl y
                 +++ render_members ind lvl members +++ newline_indent ind lvl'
                 +++ String "}" rest)) as [w [Hw ->]].
    destruct fuel as [|fuel]; [lia|]. rewrite parse_members_comma.
    rewrite read_key_ws by assumption.
    rewrite read_key_ws by apply newline_indent_ws.
    rewrite read_key_render.
    change (String " " ?s) with (" " +++ s).
    rewrite parse_value_ws by reflexivity.
    rewrite (Hy Hoky) by (try apply members_tail_safe; lia).
    rewrite IHmembers by (try assumption; lia). reflexivity.
Qed.

(** Reading the text of a document gives the document back. *)
Lemma parse_render (j : json) : reads_back j.
Proof.
  induction j as [| b | z | t | s | items IH | members IH] using json_ind;
    intros Hok ind lvl fuel rest Hf Hr.
  - destruct fuel; [simpl in Hf; lia | reflexivity].
  - destruct fuel; [simpl in Hf; lia|]. destruct b; reflexivity.
  - destruct fuel; [simpl in Hf; lia|]. now apply parse_int.
  - destruct fuel; [simpl in Hf; lia|]. now apply parse_float.
  - destruct fuel; [simpl in Hf; lia|]. cbn [render].
    unfold encode_basestring_ascii. cbn [String.append].
    rewrite parse_value_string, append_assoc_s. cbn [String.append].
    now rewrite read_escape.
  - destruct items as [|x items].
    + destruct fuel; [simpl in Hf; lia | reflexivity].
    + rewrite json_size_JArr in Hf. cbn [items_size] in Hf.
      cbn [json_ok forallb] in Hok. apply andb_true_iff in Hok.
      destruct Hok as [Hokx Hoks].
      inversion IH as [|? ? Hx Hitems]; subst.
      rewrite render_JArr_cons, !append_assoc_s. cbn [String.append].
      destruct fuel as [|fuel]; [lia|]. rewrite parse_value_array.
      rewrite skip_ws_app by apply newline_indent_ws.
      destruct (render_head ind (S lvl) x
                  (render_items ind (S lvl) items +++ newline_indent ind lvl
                   +++ String "]" rest) Hokx) as [c [s0 [Heq [Hws Hcl]]]].
      rewrite Heq. cbn [skip_ws]. rewrite Hws, Hcl. rewrite <- Heq.
      rewrite parse_value_ws by apply newline_indent_ws.
      rewrite (Hx Hokx) by (try apply items_tail_safe; lia).
      rewrite (parse_items_render items Hitems Hoks) by lia. reflexivity.
  - destruct members as [|[k x] members].
    + destruct fuel; [simpl in Hf; lia | reflexivity].
    + rewrite json_size_JObj in Hf. cbn [members_size snd] in Hf.
      cbn [json_ok forallb snd] in Hok. apply andb_true_iff in Hok.
      destruct Hok as [Hokx Hoks].
      inversion IH as [|? ? Hx Hmembers]; subst. cbn [snd] in Hx.
      rewrite render_JObj_cons, !append_assoc_s. cbn [String.append].
      destruct fuel as [|fuel]; [lia|]. rewrite parse_value_object.
      rewrite skip_ws_app by apply newline_indent_ws.
      rewrite read_key_ws by apply newline_indent_ws.
      rewrite read_key_render.
      unfold encode_basestring_ascii at 1. cbn [String.append skip_ws].
      change (is_ws quote) with false. change (is_char "}" quote) with false.
      cbv iota.
      change (String " " ?s) with (" " +++ s).
      rewrite parse_value_ws by reflexivity.
      rewrite (Hx Hokx) by (try apply members_tail_safe; lia).
      rewrite (parse_members_render members Hmembers Hoks) by lia. reflexivity.
Qed.

Lemma append_nil_r_s (s : string) : s +++ "" = s.
Proof. induction s as [|c s IH]; simpl; [reflexivity | now rewrite IH]. Qed.

Lemma length_append_s (a b : string) :
  String.length (a +++ b) = (String.length a + String.length b)%nat.
Proof. induction a as [|c a IH]; simpl; [reflexivity | now rewrite IH]. Qed.

Lemma float_text_nonempty (t : string) :
  json_float_ok t = true -> (1 <= String.length t)%nat.
Proof. destruct t; [discriminate | simpl; lia]. Qed.

(** The text of a document has a character at least for each of its
    nodes. *)
Lemma render_length (j : json) :
  json_ok j = true ->
  forall ind lvl, (json_size j <= String.length (render ind lvl j))%nat.
Proof.
  induction j as [| b | z | t | s | items IH | members IH] using json_ind;
    intros Hok ind lvl.
  - simpl. lia.
  - destruct b; simpl; lia.
  - cbn [render json_size].
    destruct (dec_shape z) as [c [ds [_ [_ [-> | ->]]]]]; simpl; lia.
  - cbn [render json_size]. now apply float_text_nonempty.
  - simpl. lia.
  - destruct items as [|x items]; [simpl; lia|].
    rewrite json_size_JArr, render_JArr_cons. cbn [items_size].
    cbn [json_ok forallb] in Hok. apply andb_true_iff in Hok.
    destruct Hok as [Hokx Hoks].
    inversion IH as [|? ? Hx Hitems]; subst.
    rewrite !length_append_s. cbn [String.length].
    specialize (Hx Hokx ind (S lvl)).
    assert (Hrest : (items_size items
                     <= String.length (render_items ind (S lvl) items))%nat).
    { clear -Hitems Hoks. induction Hitems as [|y items Hy _ IHi]; [simpl; lia|].
      cbn [forallb] in Hoks. apply andb_true_iff in Hoks. destruct Hoks as [Hoky Hoks].
      cbn [items_size render_items]. rewrite !length_append_s.
      specialize (Hy Hoky ind (S lvl)). specialize (IHi Hoks).
      assert (1 <= String.length (item_separator ind))%nat
        by (destruct ind; simpl; lia).
      lia. }
    lia.
  - destruct members as [|[k x] members]; [simpl; lia|].
    rewrite json_size_JObj, render_JObj_cons. cbn [members_size snd].
    cbn [json_ok forallb snd] in Hok. apply andb_true_iff in Hok.
    destruct Hok as [Hokx Hoks].
    inversion IH as [|? ? Hx Hmembers]; subst. cbn [snd] in Hx.
    rewrite !length_append_s. cbn [String.length].
    specialize (Hx Hokx ind (S lvl)).
    assert (Hrest : (members_size members
                     <= String.length (render_members ind (S lvl) members))%nat).
    { clear -Hmembers Hoks.
      induction Hmembers as [|[k' y] members Hy _ IHm]; [simpl; lia|].
      cbn [forallb snd] in Hoks. apply andb_true_iff in Hoks.
      destruct Hoks as [Hoky Hoks].
      cbn [members_size render_members snd]. rewrite !length_append_s.
      cbn [snd] in Hy. specialize (Hy Hoky ind (S lvl)). specialize (IHm Hoks).
      assert (1 <= String.length (item_separator ind))%nat
        by (destruct ind; simpl; lia).
      lia. }
    lia.
Qed.

(** Round trip: the text written for a document reads back as the
    document, whatever the indentation. *)
Lemma json_loads_render (ind : option Z) (j : json) :
  json_ok j = true -> json_loads (render ind O j) = Some j.
Proof.
  intros Hok. unfold json_loads.
  pose proof (parse_render j Hok ind O (S (String.length (render ind O j))) ""
                ltac:(pose proof (render_length j Hok ind O); lia) eq_refl) as H.
  rewrite append_nil_r_s in H. rewrite H. reflexivity.
Qed.

(** ** Values of the fields *)

Lemma dict_get_filter {V : Type} (f : string -> bool) (k : string)
    (d : list (string * V)) :
  dict_get k (filter (fun kv => f (fst kv)) d) =
  if f k then dict_get k d else None.
Proof.
  induction d as [|[k0 v0] d IH]; simpl.
  - destruct (f k); reflexivity.
  - destruct (f k0) eqn:E0; simpl; rewrite IH.
    + destruct (String.eqb k k0) eqn:E1; [|reflexivity].
      apply String.eqb_eq in E1. subst. now rewrite E0.
    + destruct (String.eqb k k0) eqn:E1; [|reflexivity].
      apply String.eqb_eq in E1. subst. now rewrite E0.
Qed.

Lemma dict_get_In_NoDup {V : Type} (k : string) (v : V) (d : list (string * V)) :
  NoDup (dict_keys d) -> In (k, v) d -> dict_get k d = Some v.
Proof.
  unfold dict_keys.
  induction d as [|[k0 v0] d IH]; simpl; intros Hnd Hin; [contradiction|].
  inversion Hnd as [|? ? Hnotin Hnd']; subst.
  destruct Hin as [Heq | Hin].
  - injection Heq as -> ->. now rewrite String.eqb_refl.
  - destruct (String.eqb k k0) eqn:E.
    + apply String.eqb_eq in E. subst. exfalso. apply Hnotin.
      apply (in_map fst) in Hin. exact Hin.
    + auto.
Qed.

Lemma dict_get_rev {V : Type} (k : string) (d : list (string * V)) :
  NoDup (dict_keys d) -> dict_get k (rev d) = dict_get k d.
Proof.
  intros Hnd. destruct (dict_get k d) as [v|] eqn:E.
  - apply dict_get_In_NoDup.
    + unfold dict_keys in *. rewrite map_rev. now apply NoDup_rev.
    + apply in_rev. rewrite rev_involutive. now apply dict_get_In.
  - apply dict_get_None. apply dict_get_None in E.
    unfold dict_keys in *. rewrite map_rev. now rewrite <- in_rev.
Qed.

Lemma dict_get_update_NoDup {V : Type} (k : string) (d other : list (string * V)) :
  NoDup (dict_keys other) ->
  dict_get k (dict_update d other) =
  match dict_get k other with
  | Some v => Some v
  | None => dict_get k d
  end.
Proof. intros H. now rewrite dict_get_update, dict_get_rev. Qed.

Lemma fold_skip_get (skip : string -> bool) (k : string) (d message : pydict) :
  ~ In k (filter (fun k => negb (skip k)) (dict_keys d)) ->
  dict_get k
    (fold_left
       (fun message kv =>
          if skip (fst kv) then message else dict_set (fst kv) (snd kv) message)
       d message) = dict_get k message.
Proof.
  revert message. induction d as [|[k0 v0] d IH]; intros message Hnot; simpl.
  - reflexivity.
  - simpl in Hnot. destruct (skip k0) eqn:E; simpl in *.
    + now apply IH.
    + rewrite IH by tauto. rewrite dict_get_set.
      destruct (String.eqb k k0) eqn:E1; [|reflexivity].
      apply String.eqb_eq in E1. subst. tauto.
Qed.

(** A custom attribute alone can replace what the dict holds. *)
Lemma add_custom_attrs_get (r : LogRecord) (k : string) (message : pydict) :
  ~ In k (extra_fields r) ->
  dict_get k (add_custom_attrs r message) = dict_get k message.
Proof.
  unfold add_custom_attrs, extra_fields.
  apply (fold_skip_get (fun k => mem k LOG_RECORD_BUILTIN_ATTRS)).
Qed.

Lemma extra_fields_not_builtin (r : LogRecord) (k : string) :
  In k (extra_fields r) -> mem k LOG_RECORD_BUILTIN_ATTRS = false.
Proof.
  unfold extra_fields. rewrite filter_In. intros [_ H].
  now apply negb_true_iff in H.
Qed.

Lemma apply_fmt_keys_other (r : LogRecord) (k : string)
    (items : list (string * string)) :
  forall af message message' af',
    apply_fmt_keys r items af message = Ok (message', af') ->
    ~ In k (map fst items) ->
    dict_get k message' = dict_get k message.
Proof.
  induction items as [|[key val] items IH]; intros af message message' af' H Hnot.
  - simpl in H. now injection H as <- <-.
  - simpl in H. apply bind_Ok in H. destruct H as [v [_ H]].
    apply IH in H; [|simpl in Hnot; tauto].
    rewrite H, dict_get_set.
    destruct (String.eqb k key) eqn:E; [|reflexivity].
    apply String.eqb_eq in E. subst. simpl in Hnot. tauto.
Qed.

(** A field of [always_fields] that the mapping names, if at all, under its
    own name is either left in [always_fields] or held by the mapped dict. *)
Lemma apply_fmt_keys_field (r : LogRecord) (k : string) (v : pyval)
    (items : list (string * string)) :
  forall af message message' af',
    apply_fmt_keys r items af message = Ok (message', af') ->
    dict_get k af = Some v -> is_None v = false ->
    (forall key, In (key, k) items -> key = k) ->
    NoDup (map fst items) ->
    dict_get k af' = Some v
    \/ (dict_get k af' = None /\ dict_get k message' = Some v).
Proof.
  induction items as [|[key val] items IH];
    intros af message message' af' H Hget Hnn Hown Hnd.
  - simpl in H. injection H as <- <-. now left.
  - simpl in H. inversion Hnd as [|? ? Hnotin Hnd']; subst.
    destruct (String.eqb val k) eqn:E.
    + apply String.eqb_eq in E. subst val.
      assert (key = k) by (apply Hown; now left). subst key.
      rewrite Hget, Hnn in H. simpl in H. right. split.
      * apply apply_fmt_keys_shape in H. destruct H as [_ ->].
        unfold left_over.
        rewrite (dict_get_filter (fun k0 => negb (mem k0 (map snd items)))).
        rewrite dict_get_del, String.eqb_refl.
        destruct (negb (mem k (map snd items))); reflexivity.
      * rewrite (apply_fmt_keys_other _ _ _ _ _ _ _ H Hnotin).
        rewrite dict_get_set, String.eqb_refl. reflexivity.
    + apply bind_Ok in H. destruct H as [x [_ H]].
      eapply IH in H; eauto.
      * rewrite dict_get_del. rewrite eqb_sym_s, E. assumption.
      * intros key' Hin. apply Hown. now right.
Qed.

Lemma implicit_fields_NoDup (r : LogRecord) : NoDup (implicit_fields r).
Proof.
  unfold implicit_fields.
  destruct (exc_info r), (stack_info r); simpl;
    repeat (constructor; [simpl; intuition discriminate|]); constructor.
Qed.

Section FieldFacts.

Variable str_mod : string -> pyval -> result string.

Lemma always_fields_str (self : JsonFormatter) (r : LogRecord) (af : pydict)
    (k : string) (v : pyval) :
  always_fields str_mod self r = Ok af -> dict_get k af = Some v ->
  exists s, v = PStr s.
Proof.
  unfold always_fields. intros H.
  destruct (getMessage str_mod r); simpl in H; [|discriminate].
  destruct (fromtimestamp_utc (created r)); simpl in H; [|discriminate].
  destruct (exc_info r) as [ei|];
    [destruct (formatException ei); simpl in H; [|discriminate]|];
    simpl in H; injection H as <-; destruct (stack_info r); simpl;
    repeat (destruct (String.eqb k _); [intros [= <-]; eauto|]); discriminate.
Qed.

Lemma always_fields_message_timestamp (self : JsonFormatter) (r : LogRecord)
    (af : pydict) :
  always_fields str_mod self r = Ok af ->
  exists message stamp,
    getMessage str_mod r = Ok message
    /\ fromtimestamp_utc (created r) = Ok stamp
    /\ dict_get "message" af = Some (PStr message)
    /\ dict_get "timestamp" af = Some (PStr (isoformat stamp)).
Proof.
  unfold always_fields. intros H.
  destruct (getMessage str_mod r) as [m|]; simpl in H; [|discriminate].
  destruct (fromtimestamp_utc (created r)) as [d|]; simpl in H; [|discriminate].
  exists m, d.
  destruct (exc_info r) as [ei|];
    [destruct (formatException ei); simpl in H; [|discriminate]|];
    simpl in H; injection H as <-; destruct (stack_info r);
    repeat split; reflexivity.
Qed.

(** The dict of [_prepare_log_dict] holds, for an implicit field that the
    mapping does not rename and no custom attribute is named after, the
    value computed for it. *)
Lemma prepare_field (self : JsonFormatter) (r : LogRecord) (af out : pydict)
    (k : string) (v : pyval) :
  always_fields str_mod self r = Ok af ->
  _prepare_log_dict str_mod self r = Ok out ->
  dict_get k af = Some v ->
  not_remapped self k ->
  NoDup (map fst (fmt_keys self)) ->
  ~ In k (extra_fields r) ->
  dict_get k out = Some v.
Proof.
  intros Haf H Hget Hown Hnd Hextra.
  unfold _prepare_log_dict in H. rewrite Haf in H. simpl in H.
  apply bind_Ok in H. destruct H as [[message af'] [Hap H]].
  injection H as <-. cbn [fst snd].
  rewrite add_custom_attrs_get by assumption.
  assert (Hnd' : NoDup (dict_keys af')).
  { pose proof (apply_fmt_keys_shape _ _ _ _ _ _ Hap) as [_ ->].
    unfold left_over.
    rewrite (dict_keys_filter (fun k0 => negb (mem k0 (map snd (fmt_keys self))))).
    apply NoDup_filter. rewrite (always_fields_keys _ _ _ _ Haf).
    apply implicit_fields_NoDup. }
  rewrite dict_get_update_NoDup by assumption.
  destruct (always_fields_str _ _ _ _ _ Haf Hget) as [s ->].
  destruct (apply_fmt_keys_field _ _ _ _ _ _ _ _ Hap Hget eq_refl Hown Hnd)
    as [Hl | [Hl Hm]]; rewrite Hl; [reflexivity | assumption].
Qed.

(** An implicit field that no entry of the mapping consumes, and no custom
    attribute is named after, holds the value computed for it. *)
Lemma prepare_unconsumed (self : JsonFormatter) (r : LogRecord) (af out : pydict)
    (k : string) :
  always_fields str_mod self r = Ok af ->
  _prepare_log_dict str_mod self r = Ok out ->
  In k (unconsumed_fields self r) ->
  ~ In k (extra_fields r) ->
  exists text, dict_get k af = Some (PStr text) /\ dict_get k out = Some (PStr text).
Proof.
  intros Haf H Hun Hextra.
  unfold unconsumed_fields in Hun. apply filter_In in Hun. destruct Hun as [Hin Hsrc].
  rewrite <- (always_fields_keys _ _ _ _ Haf) in Hin.
  destruct (dict_get k af) as [v|] eqn:Hget;
    [|apply dict_get_None in Hget; contradiction].
  destruct (always_fields_str _ _ _ _ _ Haf Hget) as [text ->].
  exists text. split; [reflexivity|].
  unfold _prepare_log_dict in H. rewrite Haf in H. simpl in H.
  apply bind_Ok in H. destruct H as [[message af'] [Hap H]].
  injection H as <-. cbn [fst snd].
  rewrite add_custom_attrs_get by assumption.
  pose proof (apply_fmt_keys_shape _ _ _ _ _ _ Hap) as [_ ->].
  assert (Hnd : NoDup (dict_keys (left_over (fmt_keys self) af))).
  { unfold left_over.
    rewrite (dict_keys_filter (fun k0 => negb (mem k0 (map snd (fmt_keys self))))).
    apply NoDup_filter. rewrite (always_fields_keys _ _ _ _ Haf).
    apply implicit_fields_NoDup. }
  rewrite dict_get_update_NoDup by assumption.
  unfold left_over.
  rewrite (dict_get_filter (fun k0 => negb (mem k0 (map snd (fmt_keys self))))).
  rewrite Hsrc, Hget. reflexivity.
Qed.

End FieldFacts.

(** ** Serialization *)

Lemma encode_key_ok (k : pykey) :
  key_ok k = true <-> exists s, encode_key k = Ok s.
Proof.
  destruct k as [s|z|[|]| |f|s]; simpl; split; intros H; eauto;
    try discriminate; destruct H; discriminate.
Qed.

Lemma encode_key_text (k : pykey) :
  key_ok k = true -> encode_key k = Ok (key_text k).
Proof. destruct k as [s|z|[|]| |f|s]; simpl; intros H; congruence. Qed.

(** The encoder returns on a value exactly when the value is
    [serializable]. *)
Lemma encode_succeeds_iff (v : pyval) :
  serializable v = true <-> exists j, encode v = Ok j.
Proof.
  induction v as [| b | z | f | s | l IH | d IH | s | e |] using pyval_ind;
    try solve [simpl; split; eauto];
    try solve [simpl; split; [discriminate | intros [j H]; discriminate]].
  - rewrite encode_PList. cbn [serializable].
    assert (H : forallb serializable l = true <-> exists js, encode_items l = Ok js).
    { induction IH as [|x l Hx _ IHl]; simpl.
      - split; eauto.
      - rewrite andb_true_iff, Hx, IHl. split.
        + intros [[j Hj] [js Hjs]]. rewrite Hj, Hjs. simpl. eauto.
        + intros [js H]. apply bind_Ok in H. destruct H as [j [Hj H]].
          apply bind_Ok in H. destruct H as [js' [Hjs _]]. eauto. }
    rewrite H. split.
    + intros [js Hjs]. rewrite Hjs. simpl. eauto.
    + intros [j Hj]. apply bind_Ok in Hj. destruct Hj as [js [Hjs _]]. eauto.
  - rewrite encode_PDict. cbn [serializable].
    assert (H : forallb (fun kv => key_ok (fst kv) && serializable (snd kv)) d = true
                <-> exists ms, encode_members d = Ok ms).
    { induction IH as [|[k x] d Hx _ IHd]; simpl.
      - split; eauto.
      - simpl in Hx. rewrite !andb_true_iff, Hx, IHd, encode_key_ok. split.
        + intros [[[ks Hks] [j Hj]] [ms Hms]]. rewrite Hks, Hj, Hms. simpl. eauto.
        + intros [ms H]. apply bind_Ok in H. destruct H as [ks [Hks H]].
          apply bind_Ok in H. destruct H as [j [Hj H]].
          apply bind_Ok in H. destruct H as [ms' [Hms _]]. eauto 6. }
    rewrite H. split.
    + intros [ms Hms]. rewrite Hms. simpl. eauto.
    + intros [j Hj]. apply bind_Ok in Hj. destruct Hj as [ms [Hms _]]. eauto.
Qed.

(** On such a value the encoder writes the document asked for. *)
Lemma encode_serializable (v : pyval) :
  serializable v = true -> encode v = Ok (json_of v).
Proof.
  induction v as [| b | z | f | s | l IH | d IH | s | e |] using pyval_ind;
    try solve [reflexivity]; try solve [discriminate].
  - rewrite encode_PList. cbn [serializable json_of]. intros H.
    assert (Hl : encode_items l = Ok (map json_of l)).
    { induction IH as [|x l Hx _ IHl]; [reflexivity|].
      cbn [forallb] in H. apply andb_true_iff in H. destruct H as [H1 H2].
      cbn [encode_items map]. rewrite (Hx H1), (IHl H2). reflexivity. }
    now rewrite Hl.
  - rewrite encode_PDict. cbn [serializable json_of]. intros H.
    assert (Hd : encode_members d
                 = Ok (map (fun kv => (key_text (fst kv), json_of (snd kv))) d)).
    { induction IH as [|[k x] d Hx _ IHd]; [reflexivity|].
      cbn [forallb fst snd] in H. apply andb_true_iff in H. destruct H as [H1 H2].
      apply andb_true_iff in H1. destruct H1 as [Hk Hv]. cbn [snd] in Hx.
      cbn [encode_members map fst snd].
      rewrite (encode_key_text _ Hk), (Hx Hv), (IHd H2). reflexivity. }
    now rewrite Hd.
Qed.

Lemma serializable_as_value (d : pydict) :
  serializable (as_value d) = dict_serializable d.
Proof.
  unfold as_value, dict_serializable. cbn [serializable].
  induction d as [|[k v] d IH]; [reflexivity|].
  cbn [map forallb fst snd key_ok andb]. now rewrite IH.
Qed.

Lemma json_of_as_value (d : pydict) : json_of (as_value d) = document_of d.
Proof.
  unfold as_value, document_of. cbn [json_of]. f_equal. rewrite map_map.
  reflexivity.
Qed.

Lemma floatstr_ok (f : pyfloat) : json_float_ok (floatstr f) = true.
Proof.
  pose proof (float_repr_wf f) as H. unfold floatstr, float_repr_ok in *.
  destruct (String.eqb (float_repr f) "nan"); [reflexivity|].
  destruct (String.eqb (float_repr f) "inf"); [reflexivity|].
  destruct (String.eqb (float_repr f) "-inf"); [reflexivity|].
  simpl in H. unfold json_float_ok. rewrite H. apply orb_true_r.
Qed.

(** The documents that the encoder writes read back from their text. *)
Lemma encode_json_ok (v : pyval) (j : json) : encode v = Ok j -> json_ok j = true.
Proof.
  revert j.
  induction v as [| b | z | f | s | l IH | d IH | s | e |] using pyval_ind;
    intros j; try (simpl; intros [= <-]; reflexivity); try discriminate.
  - simpl. intros [= <-]. apply floatstr_ok.
  - rewrite encode_PList. intros H. apply bind_Ok in H.
    destruct H as [js [Hjs H]]. injection H as <-. cbn [json_ok].
    revert js Hjs. induction IH as [|x l Hx _ IHl]; intros js Hjs; simpl in Hjs.
    + now injection Hjs as <-.
    + apply bind_Ok in Hjs. destruct Hjs as [jx [Hjx Hjs]].
      apply bind_Ok in Hjs. destruct Hjs as [js' [Hjs' Hjs]].
      injection Hjs as <-. simpl. now rewrite (Hx _ Hjx), (IHl _ Hjs').
  - rewrite encode_PDict. intros H. apply bind_Ok in H.
    destruct H as [ms [Hms H]]. injection H as <-. cbn [json_ok].
    revert ms Hms. induction IH as [|[k x] d Hx _ IHd]; intros ms Hms; simpl in Hms.
    + now injection Hms as <-.
    + apply bind_Ok in Hms. destruct Hms as [ks [_ Hms]].
      apply bind_Ok in Hms. destruct Hms as [jx [Hjx Hms]].
      apply bind_Ok in Hms. destruct Hms as [ms' [Hms' Hms]].
      injection Hms as <-. simpl in *. now rewrite (Hx _ Hjx), (IHd _ Hms').
Qed.

Section SerializationFacts.

Variable str_mod : string -> pyval -> result string.

(** [format] writes out the document of [format_json]. *)
Lemma format_renders (self : JsonFormatter) (r : LogRecord) :
  format str_mod self r =
  (j <- format_json str_mod self r ;; Ok (render (indent self) O j)).
Proof.
  unfold format, format_json, json_dumps.
  destruct (_prepare_log_dict str_mod self r); simpl; reflexivity.
Qed.

Lemma format_Ok (self : JsonFormatter) (r : LogRecord) (s : string) :
  format str_mod self r = Ok s ->
  exists out members,
    _prepare_log_dict str_mod self r = Ok out
    /\ encode (as_value out) = Ok (JObj members)
    /\ format_json str_mod self r = Ok (JObj members)
    /\ s = render (indent self) O (JObj members)
    /\ json_loads s = Some (JObj members).
Proof.
  rewrite format_renders. intros H. apply bind_Ok in H.
  destruct H as [j [Hj Hs]]. injection Hs as <-.
  unfold format_json in *. apply bind_Ok in Hj. destruct Hj as [out [Hout Hj]].
  pose proof (encode_json_ok _ _ Hj) as Hok.
  destruct (encode_as_value _ _ Hj) as [members [-> _]].
  exists out, members. rewrite Hout.
  split; [reflexivity|]. split; [exact Hj|]. split; [exact Hj|].
  split; [reflexivity|]. now apply json_loads_render.
Qed.

End SerializationFacts.

(** ** The formatter's output *)

Lemma NoDup_snoc (l : list string) (k : string) :
  NoDup l -> ~ In k l -> NoDup (l ++ [k]).
Proof.
  induction l as [|x l IH]; simpl; intros Hnd Hnot.
  - repeat constructor. intros [].
  - inversion Hnd as [|? ? Hx Hl]; subst. constructor.
    + rewrite in_app_iff. simpl. intuition congruence.
    + apply IH; tauto.
Qed.

Lemma fold_add_key_keeps_NoDup (l acc : list string) :
  NoDup acc -> NoDup (fold_left add_key l acc).
Proof.
  revert acc. induction l as [|x l IH]; intros acc Hnd; simpl; [assumption|].
  apply IH. unfold add_key. destruct (mem x acc) eqn:E; [assumption|].
  apply NoDup_snoc; [assumption | now apply mem_false].
Qed.

Lemma json_member_In (k : string) (j jv : json) :
  json_member k j = Some jv -> In k (json_keys j).
Proof.
  destruct j; simpl; try discriminate. intros H.
  apply dict_get_In in H. apply (in_map fst) in H. exact H.
Qed.

Lemma example_mapping_NoDup : NoDup (map fst (fmt_keys example_formatter)).
Proof. simpl. repeat (constructor; [simpl; intuition discriminate|]). constructor. Qed.

Lemma example_mapping_not_remapped (f : string) :
  In f RESERVED -> not_remapped example_formatter f.
Proof.
  unfold not_remapped. simpl. intros Hf key Hin.
  intuition congruence.
Qed.

(** C3: [NonErrorFilter.filter] returns true exactly for the records whose
    level is at most INFO: it admits DEBUG and INFO records and rejects
    WARNING, ERROR and CRITICAL records. *)
Theorem non_error_filter_iff (record : LogRecord) :
  (NonErrorFilter.filter record = true <-> levelno record <= INFO)
  /\ (levelno record = DEBUG \/ levelno record = INFO ->
      NonErrorFilter.filter record = true)
  /\ (levelno record = WARNING \/ levelno record = ERROR
      \/ levelno record = CRITICAL ->
      NonErrorFilter.filter record = false).
Proof.
  unfold NonErrorFilter.filter, DEBUG, INFO, WARNING, ERROR, CRITICAL.
  split; [apply Z.leb_le|]. split.
  - intros H. apply Z.leb_le. lia.
  - intros H. apply Z.leb_gt. lia.
Qed.

Section OutputProperties.

Variable str_mod : string -> pyval -> result string.

(** C2: the record of severity INFO with message "Started application" and
    the extra field note = "some extra info here", formatted with the
    mapping level: levelname, message: message, timestamp: timestamp, gives
    the JSON object with the keys level, message, timestamp and note, in
    which note is "some extra info here". *)
Theorem started_application_example (self : JsonFormatter) (r : LogRecord)
    (stamp : datetime) :
  fmt_keys self = example_mapping ->
  levelname r = "INFO" ->
  msg r = "Started application" ->
  truthy (args r) = false ->
  exc_info r = None ->
  stack_info r = None ->
  extra r = [("note", PStr "some extra info here")] ->
  fromtimestamp_utc (created r) = Ok stamp ->
  let document :=
    JObj [("level", JStr "INFO");
          ("message", JStr "Started application");
          ("timestamp", JStr (isoformat stamp));
          ("note", JStr "some extra info here")] in
  format_json str_mod self r = Ok document
  /\ format str_mod self r = Ok (render (indent self) O document)
  /\ json_loads (render (indent self) O document) = Some document
  /\ json_keys document = ["level"; "message"; "timestamp"; "note"]
  /\ json_member "note" document = Some (JStr "some extra info here").
Proof.
  intros Hfmt Hlevel Hmsg Hargs Hexc Hstack Hextra Hstamp document.
  assert (Hj : format_json str_mod self r = Ok document).
  { unfold format_json, _prepare_log_dict, always_fields, getMessage.
    rewrite Hargs, Hmsg, Hstamp, Hexc, Hstack, Hfmt. cbn [bind].
    unfold example_mapping, add_custom_attrs, __dict__, getattr, __dict__.
    rewrite Hextra. subst document. generalize (isoformat stamp). intros text.
    destruct r; cbn [levelname] in Hlevel; subst; vm_compute; reflexivity. }
  split; [exact Hj|]. split; [|split; [|split; reflexivity]].
  - rewrite format_renders, Hj. reflexivity.
  - apply json_loads_render. reflexivity.
Qed.

(** C6, as amended: the keys of the JSON object stand in the order of their
    first occurrence in the sequence made of the mapping's output keys, then
    the implicit fields that no entry of the mapping consumed, then the
    extra fields; no key stands twice; and when no name occurs twice in
    that sequence, the keys are exactly that sequence. *)
Theorem key_order (self : JsonFormatter) (r : LogRecord) (s : string) :
  format str_mod self r = Ok s ->
  let sequence :=
    map fst (fmt_keys self) ++ unconsumed_fields self r ++ extra_fields r in
  exists j,
    format_json str_mod self r = Ok j
    /\ s = render (indent self) O j
    /\ json_loads s = Some j
    /\ json_keys j = first_occurrences sequence
    /\ NoDup (json_keys j)
    /\ (NoDup sequence -> json_keys j = sequence).
Proof.
  intros H sequence. apply format_Ok in H.
  destruct H as [out [members [Hout [Henc [Hj [-> Hload]]]]]].
  exists (JObj members). split; [assumption|]. split; [reflexivity|].
  split; [exact Hload|].
  apply encode_as_value in Henc. destruct Henc as [ms [Heq [Hk _]]].
  injection Heq as <-.
  assert (Hkeys : json_keys (JObj members) = first_occurrences sequence).
  { simpl. rewrite Hk. now apply prepare_keys with (str_mod := str_mod). }
  split; [assumption|]. rewrite Hkeys. split.
  - apply fold_add_key_keeps_NoDup. constructor.
  - apply first_occurrences_NoDup.
Qed.

(** C10: the keys of the JSON object are exactly the mapping's output keys,
    the unconsumed implicit fields and the record attributes outside the
    built-in set.  So a built-in attribute name is a key only when the
    mapping has it as output key, or as one of the unconsumed implicit
    fields, and then with the value computed for that field: no built-in
    attribute of the record is copied unless the mapping names it. *)
Theorem key_set (self : JsonFormatter) (r : LogRecord) (s : string) :
  format str_mod self r = Ok s ->
  exists j,
    format_json str_mod self r = Ok j
    /\ s = render (indent self) O j
    /\ json_loads s = Some j
    /\ (forall k, In k (json_keys j) <->
                  In k (map fst (fmt_keys self))
                  \/ In k (unconsumed_fields self r)
                  \/ In k (extra_fields r))
    /\ (forall k, In k LOG_RECORD_BUILTIN_ATTRS ->
                  In k (json_keys j) ->
                  In k (map fst (fmt_keys self))
                  \/ (In k (unconsumed_fields self r)
                      /\ exists af text,
                           always_fields str_mod self r = Ok af
                           /\ dict_get k af = Some (PStr text)
                           /\ json_member k j = Some (JStr text)))
    /\ (forall k, In k LOG_RECORD_BUILTIN_ATTRS ->
                  ~ In k (implicit_fields r) ->
                  In k (json_keys j) -> In k (map fst (fmt_keys self))).
Proof.
  intros H. apply format_Ok in H.
  destruct H as [out [members [Hout [Henc [Hj [-> Hload]]]]]].
  exists (JObj members). split; [assumption|]. split; [reflexivity|].
  split; [exact Hload|].
  apply encode_as_value in Henc. destruct Henc as [ms [Heq [Hk [Hg _]]]].
  injection Heq as <-.
  assert (Hiff : forall k, In k (json_keys (JObj members)) <->
                 In k (map fst (fmt_keys self))
                 \/ In k (unconsumed_fields self r) \/ In k (extra_fields r)).
  { intros k. simpl. rewrite Hk, (prepare_keys _ _ _ _ Hout).
    unfold first_occurrences. rewrite fold_add_key_In, !in_app_iff.
    simpl. tauto. }
  assert (Hnot : forall k, In k LOG_RECORD_BUILTIN_ATTRS -> ~ In k (extra_fields r)).
  { intros k Hb Hin. apply extra_fields_not_builtin in Hin.
    apply mem_In in Hb. congruence. }
  split; [assumption|]. split.
  - intros k Hb Hin. apply Hiff in Hin.
    destruct Hin as [Hin | [Hin | Hin]]; [now left | | now apply Hnot in Hin].
    right. split; [assumption|].
    assert (Haf : exists af, always_fields str_mod self r = Ok af).
    { unfold _prepare_log_dict in Hout. apply bind_Ok in Hout.
      destruct Hout as [af [Haf _]]. eauto. }
    destruct Haf as [af Haf].
    destruct (prepare_unconsumed _ _ _ _ _ _ Haf Hout Hin (Hnot _ Hb))
      as [text [Hga Hgo]].
    exists af, text. split; [assumption|]. split; [assumption|].
    destruct (Hg _ _ Hgo) as [jv [Hjv Hm]]. simpl in Hjv. injection Hjv as <-.
    exact Hm.
  - intros k Hb Himp Hin. apply Hiff in Hin.
    destruct Hin as [Hin | [Hin | Hin]].
    + assumption.
    + unfold unconsumed_fields in Hin. apply filter_In in Hin. tauto.
    + now apply Hnot in Hin.
Qed.

End OutputProperties.

Lemma started_application_example_witness :
  format_json no_str_mod example_formatter started_record =
    Ok (JObj [("level", JStr "INFO");
              ("message", JStr "Started application");
              ("timestamp", JStr sample_stamp);
              ("note", JStr "some extra info here")])
  /\ json_keys
       (JObj [("level", JStr "INFO");
              ("message", JStr "Started application");
              ("timestamp", JStr sample_stamp);
              ("note", JStr "some extra info here")])
     = ["level"; "message"; "timestamp"; "note"].
Proof.
  pose proof (started_application_example no_str_mod example_formatter
                started_record
                {| year := 2024; month := 11; day := 3; hour := 13;
                   minute := 20; second := 0; microsecond := 123456 |}
                eq_refl eq_refl eq_refl eq_refl eq_refl eq_refl eq_refl eq_refl)
    as H.
  cbv zeta in H. destruct H as [Hj [_ [_ [Hk _]]]]. split.
  - exact Hj.
  - exact Hk.
Defined.

Lemma key_order_witness :
  exists j,
    format_json no_str_mod example_formatter started_record = Ok j
    /\ json_keys j = ["level"; "message"; "timestamp"; "note"].
Proof.
  destruct (key_order no_str_mod example_formatter started_record
              (render None O
                 (JObj [("level", JStr "INFO");
                        ("message", JStr "Started application");
                        ("timestamp", JStr sample_stamp);
                        ("note", JStr "some extra info here")]))
              eq_refl) as [j [Hj [_ [_ [Hk _]]]]].
  exists j. split; [exact Hj|]. rewrite Hk. reflexivity.
Defined.

(** With the mapping of the example and an extra field named level, the
    key level stands first, where the mapping put it, and not after the
    implicit fields. *)
Lemma key_order_counterexample :
  exists j,
    format_json no_str_mod example_formatter level_record = Ok j
    /\ json_keys j = ["level"; "message"; "timestamp"]
    /\ map fst (fmt_keys example_formatter)
       ++ unconsumed_fields example_formatter level_record
       ++ extra_fields level_record
       = ["level"; "message"; "timestamp"; "level"]
    /\ json_keys j <>
       map fst (fmt_keys example_formatter)
       ++ unconsumed_fields example_formatter level_record
       ++ extra_fields level_record
    /\ json_member "level" j = Some (JStr "override").
Proof.
  eexists. split; [reflexivity|]. repeat split. discriminate.
Qed.

Lemma key_set_witness :
  exists j,
    format_json no_str_mod example_formatter started_record = Ok j
    /\ (In "levelno" (json_keys j) ->
        In "levelno" (map fst (fmt_keys example_formatter))).
Proof.
  destruct (key_set no_str_mod example_formatter started_record
              (render None O
                 (JObj [("level", JStr "INFO");
                        ("message", JStr "Started application");
                        ("timestamp", JStr sample_stamp);
                        ("note", JStr "some extra info here")]))
              eq_refl) as [j [Hj [_ [_ [_ [_ Hb]]]]]].
  exists j. split; [exact Hj|].
  apply Hb.
  - simpl. tauto.
  - simpl. intuition discriminate.
Defined.

Section FieldProperties.

Variable str_mod : string -> pyval -> result string.

(** C1, as amended: when the mapping (a dict, so no output key twice) emits
    the reserved names, if it names them as sources at all, under their own
    names, the keys message, exc_info and stack_info of the JSON object hold
    the implicitly computed values whatever custom attributes the record
    carries, and so does the key timestamp when the record carries no
    custom attribute named timestamp. *)
Theorem implicit_fields_not_shadowed (self : JsonFormatter) (r : LogRecord)
    (af : pydict) (s k text : string) :
  NoDup (map fst (fmt_keys self)) ->
  (forall f, In f RESERVED -> not_remapped self f) ->
  always_fields str_mod self r = Ok af ->
  format str_mod self r = Ok s ->
  In k ["message"; "exc_info"; "stack_info"]
  \/ (k = "timestamp" /\ ~ In "timestamp" (extra_fields r)) ->
  dict_get k af = Some (PStr text) ->
  exists j,
    format_json str_mod self r = Ok j
    /\ s = render (indent self) O j
    /\ json_loads s = Some j
    /\ json_member k j = Some (JStr text).
Proof.
  intros Hnd Hown Haf H Hk Hget. apply format_Ok in H.
  destruct H as [out [members [Hout [Henc [Hj [-> Hload]]]]]].
  exists (JObj members). split; [assumption|]. split; [reflexivity|].
  split; [exact Hload|].
  assert (Hres : In k RESERVED /\ ~ In k (extra_fields r)).
  { destruct Hk as [Hk | [-> Hk]].
    - split; [simpl in *; tauto|]. intros Hin.
      apply extra_fields_not_builtin in Hin.
      simpl in Hk. destruct Hk as [<- | [<- | [<- | []]]]; discriminate.
    - split; [simpl; tauto | assumption]. }
  destruct Hres as [Hres Hextra].
  pose proof (prepare_field _ _ _ _ _ _ _ Haf Hout Hget (Hown _ Hres) Hnd Hextra)
    as Hval.
  apply encode_as_value in Henc. destruct Henc as [ms [Heq [_ [Hg _]]]].
  injection Heq as <-.
  destruct (Hg _ _ Hval) as [jv [Hjv Hm]]. simpl in Hjv. injection Hjv as <-.
  exact Hm.
Qed.

(** C4, as amended: for a mapping that emits message and timestamp, if it
    names them as sources at all, under their own names, the text that
    [format] returns is that of a JSON object with the keys message and
    timestamp, whatever the record carries; and when the record carries no
    custom attribute named timestamp (the mapping being a dict, with no
    output key twice), the timestamp is ISO 8601 text with the offset
    +00:00. *)
Theorem message_and_timestamp_present (self : JsonFormatter) (r : LogRecord)
    (s : string) :
  not_remapped self "message" ->
  not_remapped self "timestamp" ->
  format str_mod self r = Ok s ->
  exists j,
    format_json str_mod self r = Ok j
    /\ s = render (indent self) O j
    /\ json_loads s = Some j
    /\ is_object j = true
    /\ In "message" (json_keys j)
    /\ In "timestamp" (json_keys j)
    /\ (NoDup (map fst (fmt_keys self)) ->
        ~ In "timestamp" (extra_fields r) ->
        exists stamp,
          json_member "timestamp" j = Some (JStr stamp)
          /\ is_iso8601_utc stamp = true).
Proof.
  intros Hmsg Hts H. apply format_Ok in H.
  destruct H as [out [members [Hout [Henc [Hj [-> Hload]]]]]].
  exists (JObj members).
  split; [assumption|]. split; [reflexivity|]. split; [exact Hload|].
  split; [reflexivity|].
  apply encode_as_value in Henc. destruct Henc as [ms [Heq [Hk [Hg _]]]].
  injection Heq as <-.
  assert (Hkey : forall k, In k (implicit_fields r) -> not_remapped self k ->
                           In k (json_keys (JObj members))).
  { intros k Hin Hown. simpl. rewrite Hk, (prepare_keys _ _ _ _ Hout).
    unfold first_occurrences. apply fold_add_key_In. right.
    destruct (mem k (map snd (fmt_keys self))) eqn:Hsrc.
    - apply in_or_app. left. apply mem_In in Hsrc. apply in_map_iff in Hsrc.
      destruct Hsrc as [[key val] [Hval Hentry]]. simpl in Hval. subst val.
      rewrite (Hown _ Hentry) in Hentry. apply (in_map fst) in Hentry.
      exact Hentry.
    - apply in_or_app. right. apply in_or_app. left. unfold unconsumed_fields.
      apply filter_In. split; [exact Hin|]. now rewrite Hsrc. }
  split; [apply Hkey; [unfold implicit_fields; simpl; tauto | exact Hmsg]|].
  split; [apply Hkey; [unfold implicit_fields; simpl; tauto | exact Hts]|].
  intros Hnd Hextra.
  assert (Haf : exists af, always_fields str_mod self r = Ok af).
  { unfold _prepare_log_dict in Hout. apply bind_Ok in Hout.
    destruct Hout as [af [Haf _]]. eauto. }
  destruct Haf as [af Haf].
  destruct (always_fields_message_timestamp _ _ _ _ Haf)
    as [message [stamp [_ [Hstamp [_ Hgt]]]]].
  assert (Ht : dict_get "timestamp" out = Some (PStr (isoformat stamp))).
  { exact (prepare_field _ _ _ _ _ _ _ Haf Hout Hgt Hts Hnd Hextra). }
  destruct (Hg _ _ Ht) as [jt [Hjt Hmt]]. simpl in Hjt. injection Hjt as <-.
  exists (isoformat stamp). split; [exact Hmt|].
  exact (fromtimestamp_utc_iso _ _ Hstamp).
Qed.

(** C5, as amended: once the dict of the record is built, serialization
    does not raise when that dict holds, at any depth, no dict key other
    than a str, int, float, bool or None, no list or dict that holds
    itself, and no object of a non-JSON type whose [str()] raises: [format]
    then returns the text of the JSON object in which every value of a
    JSON-native type stands as it is and every value of another type, at
    any depth, as the string [str()] gives for it.  When the dict holds
    one of the three, [format] raises. *)
Theorem format_serializes (self : JsonFormatter) (r : LogRecord) (out : pydict) :
  _prepare_log_dict str_mod self r = Ok out ->
  (dict_serializable out = true ->
   format_json str_mod self r = Ok (document_of out)
   /\ format str_mod self r = Ok (render (indent self) O (document_of out))
   /\ json_loads (render (indent self) O (document_of out))
      = Some (document_of out))
  /\ (dict_serializable out = false ->
      exists e, format str_mod self r = Raise e).
Proof.
  intros Hout. split.
  - intros Hs. rewrite <- serializable_as_value in Hs.
    pose proof (encode_serializable _ Hs) as Hj. rewrite json_of_as_value in Hj.
    assert (Hfj : format_json str_mod self r = Ok (document_of out)).
    { unfold format_json. rewrite Hout. exact Hj. }
    split; [exact Hfj|]. split.
    + rewrite format_renders, Hfj. reflexivity.
    + apply json_loads_render. exact (encode_json_ok _ _ Hj).
  - intros Hs. rewrite <- serializable_as_value in Hs.
    unfold format, json_dumps. rewrite Hout. cbn [bind].
    destruct (encode (as_value out)) as [j|e] eqn:Hj; [|cbn [bind]; eauto].
    assert (Ht : serializable (as_value out) = true)
      by (apply encode_succeeds_iff; eauto).
    congruence.
Qed.

End FieldProperties.

Lemma implicit_fields_not_shadowed_witness :
  exists j,
    format_json no_str_mod example_formatter started_record = Ok j
    /\ json_member "timestamp" j = Some (JStr sample_stamp).
Proof.
  destruct (implicit_fields_not_shadowed no_str_mod example_formatter
              started_record
              [("message", PStr "Started application");
               ("timestamp", PStr sample_stamp)]
              (render None O
                 (JObj [("level", JStr "INFO");
                        ("message", JStr "Started application");
                        ("timestamp", JStr sample_stamp);
                        ("note", JStr "some extra info here")]))
              "timestamp" sample_stamp
              example_mapping_NoDup example_mapping_not_remapped
              eq_refl eq_refl)
    as [j [Hj [_ [_ Hm]]]].
  - right. split; [reflexivity|]. simpl. intuition discriminate.
  - reflexivity.
  - exists j. split; [exact Hj | exact Hm].
Defined.

(** With no mapping at all, an extra field named timestamp takes the place
    of the computed timestamp. *)
Lemma extra_timestamp_shadows :
  (forall f, In f RESERVED -> not_remapped default_formatter f)
  /\ exists af j,
       always_fields no_str_mod default_formatter shadow_record = Ok af
       /\ dict_get "timestamp" af = Some (PStr sample_stamp)
       /\ format_json no_str_mod default_formatter shadow_record = Ok j
       /\ json_member "timestamp" j = Some (JStr "yesterday")
       /\ json_member "timestamp" j <> Some (JStr sample_stamp).
Proof.
  split.
  - intros f _ key [].
  - eexists. eexists. split; [reflexivity|]. split; [reflexivity|].
    split; [reflexivity|]. split; [reflexivity | discriminate].
Qed.

Lemma message_and_timestamp_present_witness :
  exists j,
    format_json no_str_mod example_formatter started_record = Ok j
    /\ In "message" (json_keys j)
    /\ In "timestamp" (json_keys j)
    /\ exists stamp,
         json_member "timestamp" j = Some (JStr stamp)
         /\ is_iso8601_utc stamp = true.
Proof.
  destruct (message_and_timestamp_present no_str_mod example_formatter
              started_record
              (render None O
                 (JObj [("level", JStr "INFO");
                        ("message", JStr "Started application");
                        ("timestamp", JStr sample_stamp);
                        ("note", JStr "some extra info here")])))
    as [j [Hj [_ [_ [_ [Hm [Ht Hv]]]]]]].
  - apply example_mapping_not_remapped. simpl. tauto.
  - apply example_mapping_not_remapped. simpl. tauto.
  - reflexivity.
  - exists j. split; [exact Hj|]. split; [exact Hm|]. split; [exact Ht|].
    apply Hv; [exact example_mapping_NoDup|]. simpl. intuition discriminate.
Defined.

(** A mapping that emits the timestamp under the key ts leaves the JSON
    object without a key timestamp, and one that emits the message under
    the key msg leaves it without a key message.  And with no mapping at
    all, a custom attribute named timestamp takes the place of the implicit
    one: the key is there, and its value is no ISO 8601 text. *)
Lemma renamed_timestamp_missing :
  (exists s j,
     format no_str_mod renaming_formatter started_record = Ok s
     /\ format_json no_str_mod renaming_formatter started_record = Ok j
     /\ s = render (indent renaming_formatter) O j
     /\ json_keys j = ["ts"; "message"; "note"]
     /\ ~ In "timestamp" (json_keys j))
  /\ (exists s j,
        format no_str_mod message_renaming_formatter started_record = Ok s
        /\ format_json no_str_mod message_renaming_formatter started_record = Ok j
        /\ s = render (indent message_renaming_formatter) O j
        /\ json_keys j = ["msg"; "timestamp"; "note"]
        /\ ~ In "message" (json_keys j))
  /\ (exists s j,
        format no_str_mod default_formatter shadow_record = Ok s
        /\ format_json no_str_mod default_formatter shadow_record = Ok j
        /\ s = render (indent default_formatter) O j
        /\ json_member "timestamp" j = Some (JStr "yesterday")
        /\ is_iso8601_utc "yesterday" = false).
Proof.
  split; [|split].
  - eexists. eexists. split; [reflexivity|]. split; [reflexivity|].
    split; [reflexivity|]. split; [reflexivity|].
    simpl. intuition discriminate.
  - eexists. eexists. split; [reflexivity|]. split; [reflexivity|].
    split; [reflexivity|]. split; [reflexivity|].
    simpl. intuition discriminate.
  - eexists. eexists. split; [reflexivity|]. split; [reflexivity|].
    split; [reflexivity|]. split; reflexivity.
Qed.

Lemma format_serializes_witness :
  format_json no_str_mod default_formatter object_record
  = Ok (JObj [("message", JStr "Started application");
              ("timestamp", JStr sample_stamp);
              ("where", JArr [JStr "/tmp/x"; JInt 3])]).
Proof.
  destruct (format_serializes no_str_mod default_formatter object_record
              [("message", PStr "Started application");
               ("timestamp", PStr sample_stamp);
               ("where", PList [PObj "/tmp/x"; PInt 3])]
              eq_refl) as [H _].
  destruct (H eq_refl) as [Hj _]. exact Hj.
Defined.

(** Three records on which serialization raises.  An extra field whose
    value is a dict with a tuple as key: TypeError.  One whose value is a
    list that holds itself: ValueError.  One whose value is an object whose
    [__str__] raises: that exception. *)
Lemma serialization_raises :
  (exists out,
     _prepare_log_dict no_str_mod default_formatter tuple_key_record = Ok out
     /\ dict_get "d" out = Some (PDict [(KOther "(1, 2)", PInt 3)])
     /\ format no_str_mod default_formatter tuple_key_record =
        Raise (TypeError "keys must be str, int, float, bool or None"))
  /\ (exists out,
        _prepare_log_dict no_str_mod default_formatter circular_record = Ok out
        /\ dict_get "l" out = Some (PList [PCircular])
        /\ format no_str_mod default_formatter circular_record =
           Raise (ValueError "Circular reference detected"))
  /\ (exists out,
        _prepare_log_dict no_str_mod default_formatter raising_str_record = Ok out
        /\ dict_get "o" out = Some (PRaising (OtherError "RuntimeError" "no text"))
        /\ format no_str_mod default_formatter raising_str_record =
           Raise (OtherError "RuntimeError" "no text")).
Proof.
  split; [|split]; eexists; (split; [reflexivity|]); split; reflexivity.
Qed.

(** ** The queue listener *)

Section BridgeFacts.

Context {R : Type}.

Import AsyncBridge.

Lemma join_stopping (q d : list R) :
  join (S (List.length q)) {| phase := STOPPING; queue := q; delivered := d |}
  = {| phase := STOPPED; queue := []; delivered := d ++ q |}.
Proof.
  revert d. induction q as [|r q IH]; intros d.
  - simpl. unfold consume. simpl. now rewrite app_nil_r.
  - change (join (S (List.length (r :: q)))
              {| phase := STOPPING; queue := r :: q; delivered := d |})
      with (join (S (List.length q))
              {| phase := STOPPING; queue := q; delivered := d ++ [r] |}).
    rewrite IH. now rewrite <- app_assoc.
Qed.

Lemma stop_drains (b : bridge R) :
  phase b = RUNNING \/ phase b = STOPPING ->
  stop b = {| phase := STOPPED; queue := []; delivered := delivered b ++ queue b |}.
Proof.
  destruct b as [ph q d]. simpl. intros [-> | ->]; unfold stop, signal_stop;
    cbn [phase queue delivered]; apply join_stopping.
Qed.

Lemma stop_no_op (b : bridge R) :
  phase b = UNSTARTED \/ phase b = STOPPED -> stop b = b.
Proof. unfold stop. intros [-> | ->]; reflexivity. Qed.

Lemma stop_phase (b : bridge R) :
  phase (stop b) = UNSTARTED \/ phase (stop b) = STOPPED.
Proof.
  destruct (phase b) eqn:E.
  - left. rewrite stop_no_op; auto.
  - right. rewrite stop_drains; auto.
  - right. rewrite stop_drains; auto.
  - right. rewrite stop_no_op; auto.
Qed.

(** While the bridge runs, every record enqueued is either delivered or
    still queued, in the order of enqueueing. *)
Lemma run_invariant (events : list (@event R)) :
  forall b,
    phase b = RUNNING ->
    exists b',
      run events b = Some b'
      /\ phase b' = RUNNING
      /\ delivered b' ++ queue b' = delivered b ++ queue b ++ enqueued events.
Proof.
  induction events as [|[r|] events IH]; intros b Hb.
  - exists b. simpl. now rewrite app_nil_r.
  - cbn [run enqueued]. unfold put. rewrite Hb. cbn [and_then].
    destruct (IH {| phase := RUNNING; queue := queue b ++ [r];
                    delivered := delivered b |} eq_refl) as [b' [Hrun [Hph Hinv]]].
    exists b'. split; [exact Hrun|]. split; [exact Hph|].
    rewrite Hinv. cbn [queue delivered]. now rewrite <- !app_assoc.
  - cbn [run enqueued].
    destruct b as [ph q d]. simpl in Hb. subst ph.
    destruct q as [|r q].
    + apply (IH {| phase := RUNNING; queue := []; delivered := d |} eq_refl).
    + unfold consume. cbn [phase queue delivered].
      destruct (IH {| phase := RUNNING; queue := q; delivered := d ++ [r] |} eq_refl)
        as [b' [Hrun [Hph Hinv]]].
      exists b'. split; [exact Hrun|]. split; [exact Hph|].
      rewrite Hinv. cbn [queue delivered]. now rewrite <- !app_assoc.
Qed.

(** C7: [stop()] on a bridge is idempotent.  As a total function it never
    raises; called on a bridge that is UNSTARTED or STOPPED, and so on one
    never started or just stopped, it changes nothing; a second call in
    succession leaves the bridge, and so the records delivered, as the first
    call left them. *)
Theorem stop_idempotent (b : bridge R) :
  stop (stop b) = stop b
  /\ delivered (stop (stop b)) = delivered (stop b)
  /\ (phase b = UNSTARTED \/ phase b = STOPPED -> stop b = b)
  /\ stop (@create R) = create.
Proof.
  assert (H : stop (stop b) = stop b) by (apply stop_no_op, stop_phase).
  split; [exact H|]. split; [now rewrite H|]. split.
  - apply stop_no_op.
  - reflexivity.
Qed.

(** Whatever records the producers enqueue on a started bridge, and
    however the consumer's turns fall between them, [stop()] leaves the
    bridge STOPPED, its queue empty, and every record enqueued delivered, in
    the order of enqueueing. *)
Lemma stop_delivers_enqueued (events : list (@event R)) :
  exists b,
    run events (start create) = Some b
    /\ phase (stop b) = STOPPED
    /\ queue (stop b) = []
    /\ delivered (stop b) = enqueued events.
Proof.
  destruct (run_invariant events (start create) eq_refl) as [b [Hrun [Hph Hinv]]].
  exists b. split; [exact Hrun|].
  rewrite stop_drains by (now left). cbn [phase queue delivered].
  split; [reflexivity|]. split; [reflexivity|].
  rewrite Hinv. reflexivity.
Qed.

Lemma stop_iter (b : bridge R) (k : nat) :
  Nat.iter (S k) stop b = stop b.
Proof.
  induction k as [|k IH]; [reflexivity|].
  change (Nat.iter (S (S k)) stop b) with (stop (Nat.iter (S k) stop b)).
  rewrite IH. apply stop_no_op, stop_phase.
Qed.

End BridgeFacts.

(** ** Set-up *)

Section SetupFacts.

Import Setup.

Lemma count_running_app (l1 l2 : list (AsyncBridge.bridge LogRecord)) :
  count_running (l1 ++ l2) = (count_running l1 + count_running l2)%nat.
Proof. unfold count_running. now rewrite filter_app, length_app. Qed.

Lemma update_nth_app {A : Type} (f : A -> A) (l1 l2 : list A) (n : nat) :
  (List.length l1 <= n)%nat ->
  update_nth n f (l1 ++ l2) = l1 ++ update_nth (n - List.length l1) f l2.
Proof.
  revert n. induction l1 as [|x l1 IH]; intros n Hn; simpl.
  - now rewrite Nat.sub_0_r.
  - destruct n as [|n]; simpl in *; [lia|]. rewrite IH by lia. reflexivity.
Qed.

Lemma count_running_fresh (ls : list (AsyncBridge.bridge LogRecord)) (n : nat) :
  Forall (fun b => b = AsyncBridge.create) ls ->
  (n < List.length ls)%nat ->
  count_running ls = O
  /\ count_running (update_nth n AsyncBridge.start ls) = 1%nat.
Proof.
  intros H. revert n. induction H as [|b ls Hb H IH]; intros n Hn; simpl in Hn.
  - lia.
  - subst b. destruct n as [|n].
    + destruct ls as [|b' ls].
      * split; reflexivity.
      * destruct (IH O) as [H0 _]; [simpl; lia|].
        unfold count_running in *. simpl in *. split; [exact H0|].
        now rewrite H0.
    + destruct (IH n) as [H0 H1]; [lia|].
      unfold count_running in *. simpl in *. split; assumption.
Qed.

Lemma build_handlers_spec (cfg : Config) :
  forall next hs ls,
    build_handlers cfg next = (hs, ls) ->
    Forall (fun b => b = AsyncBridge.create) ls
    /\ (forall name n, dict_get name hs = Some (QueueHandler n) ->
          (next <= n < next + List.length ls)%nat)
    /\ (forall name, dict_get name hs = None <-> ~ In name (dict_keys cfg)).
Proof.
  induction cfg as [|[name0 [|]] cfg IH]; intros next hs ls H; simpl in H.
  - injection H as <- <-. split; [constructor|]. split.
    + intros name n. discriminate.
    + intros name. simpl. tauto.
  - destruct (build_handlers cfg (S next)) as [hs' ls'] eqn:E.
    injection H as <- <-. destruct (IH _ _ _ E) as [Hall [Hrange Hnone]].
    split; [constructor; [reflexivity | assumption]|]. split.
    + intros name n. rewrite dict_get_set.
      destruct (String.eqb name name0).
      * intros [= <-]. simpl. lia.
      * intros Hg. apply Hrange in Hg. simpl. lia.
    + intros name. rewrite dict_get_set. simpl.
      destruct (String.eqb name name0) eqn:En.
      * apply String.eqb_eq in En. subst. split; [discriminate | tauto].
      * apply String.eqb_neq in En. rewrite Hnone.
        split; [intros Hn [Heq | Hin]; [congruence | tauto] | tauto].
  - destruct (build_handlers cfg next) as [hs' ls'] eqn:E.
    injection H as <- <-. destruct (IH _ _ _ E) as [Hall [Hrange Hnone]].
    split; [assumption|]. split.
    + intros name n. rewrite dict_get_set.
      destruct (String.eqb name name0); [discriminate | apply Hrange].
    + intros name. rewrite dict_get_set. simpl.
      destruct (String.eqb name name0) eqn:En.
      * apply String.eqb_eq in En. subst. split; [discriminate | tauto].
      * apply String.eqb_neq in En. rewrite Hnone.
        split; [intros Hn [Heq | Hin]; [congruence | tauto] | tauto].
Qed.

Lemma handlers_names (cfg : Config) (hs : list (string * Handler)) :
  (forall name, dict_get name hs = None <-> ~ In name (dict_keys cfg)) ->
  forall name, In name (dict_keys hs) <-> In name (dict_keys cfg).
Proof.
  intros Hnone name. split; intros Hin.
  - destruct (in_dec string_dec name (dict_keys cfg)) as [|Hno]; [assumption|].
    apply Hnone in Hno. apply dict_get_None in Hno. contradiction.
  - destruct (in_dec string_dec name (dict_keys hs)) as [|Hno]; [assumption|].
    apply dict_get_None in Hno. apply Hnone in Hno. contradiction.
Qed.

Lemma nth_error_update_nth {A : Type} (f : A -> A) (l : list A) (m n : nat) :
  nth_error (update_nth m f l) n =
  if Nat.eqb n m then option_map f (nth_error l n) else nth_error l n.
Proof.
  revert m n. induction l as [|x l IH]; intros m n.
  - destruct m, n; simpl; try reflexivity; destruct (Nat.eqb n m); reflexivity.
  - destruct m as [|m], n as [|n]; simpl; try reflexivity. apply IH.
Qed.

Lemma nth_error_fresh (lp ls : list (AsyncBridge.bridge LogRecord)) (n : nat) :
  Forall (fun b => b = AsyncBridge.create) ls ->
  (List.length lp <= n < List.length lp + List.length ls)%nat ->
  nth_error (lp ++ ls) n = Some AsyncBridge.create.
Proof.
  intros Hall Hn. rewrite nth_error_app2 by lia.
  destruct (nth_error ls (n - List.length lp)) as [b|] eqn:E.
  - rewrite Forall_forall in Hall. apply nth_error_In in E.
    now rewrite (Hall _ E).
  - apply nth_error_None in E. lia.
Qed.

(** C9, as amended: [setup_logging] is a once-off set-up and not
    idempotent.  A call that returns has re-applied the configuration (the
    registry holds the handlers of the configuration) and left the
    listeners made before as they were.  When the configuration names a
    handler queue_handler, the call has started one more listener thread,
    that of the listener of this handler, made by this call, and no other;
    and it has registered one more exit hook, the [stop] of that same
    listener.  When the configuration names no such handler, the call has
    done no more than apply the configuration: it has started no thread and
    registered no hook. *)
Theorem setup_logging_once_off (cfg : Config) (p p' : Process) :
  setup_logging (Ok cfg) p = Ok p' ->
  (forall name, In name (dict_keys (handlers p')) <-> In name (dict_keys cfg))
  /\ (forall m, (m < List.length (listeners p))%nat ->
        nth_error (listeners p') m = nth_error (listeners p) m)
  /\ (In "queue_handler" (dict_keys cfg) ->
      exists n,
        getHandlerByName "queue_handler" p' = Some (QueueHandler n)
        /\ (List.length (listeners p) <= n)%nat
        /\ nth_error (listeners (dictConfig cfg p)) n = Some AsyncBridge.create
        /\ nth_error (listeners p') n
           = Some (AsyncBridge.start AsyncBridge.create)
        /\ (forall m, m <> n ->
              nth_error (listeners p') m
              = nth_error (listeners (dictConfig cfg p)) m)
        /\ running_listeners p' = S (running_listeners p)
        /\ atexit_hooks p' = atexit_hooks p ++ [n]
        /\ nth_error (listeners (run_hook n p')) n
           = Some (AsyncBridge.stop (AsyncBridge.start AsyncBridge.create)))
  /\ (~ In "queue_handler" (dict_keys cfg) ->
      p' = dictConfig cfg p
      /\ running_listeners p' = running_listeners p
      /\ atexit_hooks p' = atexit_hooks p).
Proof.
  unfold setup_logging, getHandlerByName, dictConfig. cbn [bind].
  destruct (build_handlers cfg (List.length (listeners p))) as [hs ls] eqn:E.
  destruct (build_handlers_spec _ _ _ _ E) as [Hall [Hrange Hnone]].
  cbn [handlers].
  destruct (dict_get "queue_handler" hs) as [[n|]|] eqn:Hq; [|discriminate|];
    intros [= <-].
  - pose proof (Hrange _ _ Hq) as Hn.
    assert (Hfresh : nth_error (listeners p ++ ls) n = Some AsyncBridge.create)
      by (apply nth_error_fresh; [exact Hall | lia]).
    unfold atexit_register, listener_start.
    cbn [handlers listeners atexit_hooks].
    split; [exact (handlers_names _ _ Hnone)|]. split.
    { intros m Hm. rewrite nth_error_update_nth.
      assert (Hne : Nat.eqb m n = false) by (apply Nat.eqb_neq; lia).
      rewrite Hne. now apply nth_error_app1. }
    split.
    + intros _. exists n. split; [exact Hq|]. split; [lia|].
      split; [exact Hfresh|]. split.
      { now rewrite nth_error_update_nth, Nat.eqb_refl, Hfresh. }
      split.
      { intros m Hm. rewrite nth_error_update_nth.
        assert (Hne : Nat.eqb m n = false) by (now apply Nat.eqb_neq).
        now rewrite Hne. }
      split.
      { unfold running_listeners. cbn [listeners].
        rewrite update_nth_app by lia. rewrite !count_running_app.
        destruct (count_running_fresh ls (n - List.length (listeners p)) Hall)
          as [_ H1]; [lia|].
        rewrite H1. lia. }
      split; [reflexivity|].
      unfold run_hook. cbn [listeners].
      now rewrite !nth_error_update_nth, Nat.eqb_refl, Hfresh.
    + intros Hnot. apply Hnone in Hnot. congruence.
  - cbn [handlers listeners atexit_hooks].
    split; [exact (handlers_names _ _ Hnone)|]. split.
    { intros m Hm. now apply nth_error_app1. }
    split.
    + intros Hin. apply Hnone in Hq. contradiction.
    + intros _. split; [reflexivity|].
      unfold running_listeners. cbn [listeners atexit_hooks].
      rewrite count_running_app.
      assert (H0 : count_running ls = O).
      { clear -Hall. induction Hall as [|b ls Hb _ IH]; [reflexivity|].
        subst b. exact IH. }
      rewrite H0. split; [lia | reflexivity].
Qed.

(** After the exit hooks have run, a listener stands as [stop()] left it,
    once for each hook registered for it. *)
Lemma run_hooks_nth (hooks : list nat) (n : nat) :
  forall p,
    nth_error (listeners (fold_left (fun p m => run_hook m p) hooks p)) n =
    option_map (Nat.iter (count_occ Nat.eq_dec hooks n) AsyncBridge.stop)
      (nth_error (listeners p) n).
Proof.
  induction hooks as [|m hooks IH]; intros p.
  - simpl. destruct (nth_error (listeners p) n); reflexivity.
  - cbn [fold_left]. rewrite IH. unfold run_hook. cbn [listeners].
    rewrite nth_error_update_nth. cbn [count_occ].
    destruct (Nat.eq_dec m n) as [-> | Hne].
    + rewrite Nat.eqb_refl. destruct (nth_error (listeners p) n) as [b|]; [|reflexivity].
      cbn [option_map]. f_equal.
      generalize (count_occ Nat.eq_dec hooks n). intros k.
      induction k as [|k IHk]; [reflexivity|]. simpl. now rewrite IHk.
    + destruct (Nat.eqb n m) eqn:E; [|reflexivity].
      apply Nat.eqb_eq in E. congruence.
Qed.

(** C8: on a started bridge, whatever records the producers enqueue and
    however the consumer's turns fall between them, [stop()] returns with
    the bridge STOPPED, its queue empty and every record enqueued before the
    call delivered to the dispatcher, in the order of enqueueing.  So at
    normal process exit: [setup_logging] has started the listener of the
    handler queue_handler and registered its [stop]; whatever records are
    enqueued on that listener in between, once the exit hooks have run it
    is STOPPED and has delivered every one of them; none is lost. *)
Theorem drain_on_stop (events : list (@AsyncBridge.event LogRecord)) :
  (exists b,
     AsyncBridge.run events (AsyncBridge.start AsyncBridge.create) = Some b
     /\ AsyncBridge.phase (AsyncBridge.stop b) = AsyncBridge.STOPPED
     /\ AsyncBridge.queue (AsyncBridge.stop b) = []
     /\ AsyncBridge.delivered (AsyncBridge.stop b) = AsyncBridge.enqueued events)
  /\ (forall cfg p p',
        setup_logging (Ok cfg) p = Ok p' ->
        In "queue_handler" (dict_keys cfg) ->
        exists n,
          getHandlerByName "queue_handler" p' = Some (QueueHandler n)
          /\ exists p'' b,
               listener_events n events p' = Some p''
               /\ getHandlerByName "queue_handler" p'' = Some (QueueHandler n)
               /\ nth_error (listeners (exit_process p'')) n = Some b
               /\ AsyncBridge.phase b = AsyncBridge.STOPPED
               /\ AsyncBridge.queue b = []
               /\ AsyncBridge.delivered b = AsyncBridge.enqueued events).
Proof.
  destruct (stop_delivers_enqueued events) as [b [Hrun [Hph [Hq Hd]]]].
  split; [exists b; auto|].
  intros cfg p p' H Hin.
  unfold setup_logging, getHandlerByName, dictConfig in *. cbn [bind] in H.
  destruct (build_handlers cfg (List.length (listeners p))) as [hs ls] eqn:E.
  destruct (build_handlers_spec _ _ _ _ E) as [Hall [Hrange Hnone]].
  cbn [handlers] in H.
  destruct (dict_get "queue_handler" hs) as [[n|]|] eqn:Hget; [|discriminate|].
  - injection H as <-. pose proof (Hrange _ _ Hget) as Hn.
    assert (Hs : nth_error (update_nth n AsyncBridge.start (listeners p ++ ls)) n
                 = Some (AsyncBridge.start AsyncBridge.create)).
    { rewrite nth_error_update_nth, Nat.eqb_refl.
      now rewrite (nth_error_fresh _ _ _ Hall Hn). }
    unfold listener_events.
    cbn [atexit_register listener_start listeners handlers atexit_hooks].
    exists n. split; [exact Hget|]. rewrite Hs, Hrun.
    eexists _, (AsyncBridge.stop b). split; [reflexivity|].
    cbn [handlers]. split; [exact Hget|].
    split; [|auto].
    unfold exit_process. rewrite run_hooks_nth.
    cbn [atexit_hooks listeners].
    rewrite nth_error_update_nth, Nat.eqb_refl, Hs. cbn [option_map].
    rewrite rev_app_distr. cbn [rev app count_occ].
    destruct (Nat.eq_dec n n) as [_ | Hne]; [|congruence].
    now rewrite stop_iter.
  - apply Hnone in Hget. contradiction.
Qed.

End SetupFacts.

Lemma setup_logging_once_off_witness :
  exists n,
    Setup.getHandlerByName "queue_handler"
      (Setup.atexit_register 0
         (Setup.listener_start 0
            (Setup.dictConfig Setup.example_config Setup.fresh_process)))
    = Some (Setup.QueueHandler n)
    /\ nth_error
         (Setup.listeners
            (Setup.atexit_register 0
               (Setup.listener_start 0
                  (Setup.dictConfig Setup.example_config Setup.fresh_process)))) n
       = Some (AsyncBridge.start AsyncBridge.create)
    /\ Setup.atexit_hooks
         (Setup.atexit_register 0
            (Setup.listener_start 0
               (Setup.dictConfig Setup.example_config Setup.fresh_process)))
       = Setup.atexit_hooks Setup.fresh_process ++ [n].
Proof.
  destruct (setup_logging_once_off Setup.example_config Setup.fresh_process
              (Setup.atexit_register 0
                 (Setup.listener_start 0
                    (Setup.dictConfig Setup.example_config Setup.fresh_process)))
              eq_refl) as [_ [_ [Hq _]]].
  destruct Hq as [n [Hh [_ [_ [Hs [_ [_ [Hhooks _]]]]]]]].
  - simpl. tauto.
  - exists n. split; [exact Hh|]. split; [exact Hs | exact Hhooks].
Defined.

(** Two calls in a row on the same configuration: two listener threads
    run and two exit hooks are registered, where one call leaves one of
    each. *)
Lemma setup_twice_differs :
  exists p1 p2,
    Setup.setup_logging (Ok Setup.example_config) Setup.fresh_process = Ok p1
    /\ Setup.setup_logging (Ok Setup.example_config) p1 = Ok p2
    /\ Setup.atexit_hooks p1 = [0%nat]
    /\ Setup.atexit_hooks p2 = [0%nat; 1%nat]
    /\ Setup.running_listeners p1 = 1%nat
    /\ Setup.running_listeners p2 = 2%nat
    /\ p2 <> p1.
Proof.
  eexists. eexists. split; [reflexivity|]. split; [reflexivity|].
  repeat split. discriminate.
Qed.

Lemma drain_on_stop_witness :
  exists n,
    Setup.getHandlerByName "queue_handler"
      (Setup.atexit_register 0
         (Setup.listener_start 0
            (Setup.dictConfig Setup.example_config Setup.fresh_process)))
    = Some (Setup.QueueHandler n)
    /\ exists p'' b,
         Setup.listener_events n
           [AsyncBridge.Put started_record; AsyncBridge.Turn;
            AsyncBridge.Put level_record]
           (Setup.atexit_register 0
              (Setup.listener_start 0
                 (Setup.dictConfig Setup.example_config Setup.fresh_process)))
         = Some p''
         /\ nth_error (Setup.listeners (Setup.exit_process p'')) n = Some b
         /\ AsyncBridge.phase b = AsyncBridge.STOPPED
         /\ AsyncBridge.queue b = []
         /\ AsyncBridge.delivered b = [started_record; level_record].
Proof.
  destruct (drain_on_stop
              [AsyncBridge.Put started_record; AsyncBridge.Turn;
               AsyncBridge.Put level_record]) as [_ H].
  destruct (H Setup.example_config Setup.fresh_process
              (Setup.atexit_register 0
                 (Setup.listener_start 0
                    (Setup.dictConfig Setup.example_config Setup.fresh_process))))
    as [n [Hh [p'' [b [He [_ Hrest]]]]]].
  - reflexivity.
  - simpl. tauto.
  - exists n. split; [exact Hh|]. exists p'', b. split; [exact He | exact Hrest].
Defined.

(** * Further properties *)

(** ** What the mapping and the custom attributes put in the dict *)

Lemma getattr_Ok (r : LogRecord) (attr : string) :
  has_attr r attr = true <-> exists v, getattr r attr = Ok v.
Proof.
  unfold has_attr, getattr.
  destruct (dict_get attr (__dict__ r)), (dict_get attr (cls_attrs r));
    split; intros H; eauto; try discriminate; destruct H; discriminate.
Qed.

Lemma getattr_Raise (r : LogRecord) (attr : string) (e : pyerr) :
  getattr r attr = Raise e -> has_attr r attr = false /\ e = AttributeError attr.
Proof.
  unfold has_attr, getattr.
  destruct (dict_get attr (__dict__ r)), (dict_get attr (cls_attrs r));
    try discriminate. intros [= <-]. split; reflexivity.
Qed.

Lemma init_attrs_skipped (r : LogRecord) (message : pydict) :
  fold_left
    (fun message kv =>
       if mem (fst kv) LOG_RECORD_BUILTIN_ATTRS then message
       else dict_set (fst kv) (snd kv) message)
    (init_attrs r) message = message.
Proof. reflexivity. Qed.

Lemma fold_skip_In (skip : string -> bool) (k : string) (v : pyval) (d : pydict) :
  NoDup (dict_keys d) -> In (k, v) d -> skip k = false ->
  forall message,
    dict_get k
      (fold_left
         (fun message kv =>
            if skip (fst kv) then message else dict_set (fst kv) (snd kv) message)
         d message) = Some v.
Proof.
  unfold dict_keys. induction d as [|[k0 v0] d IH]; intros Hnd Hin Hskip message.
  - contradiction.
  - simpl in Hnd. inversion Hnd as [|? ? Hnotin Hnd']; subst.
    cbn [fold_left fst snd]. destruct Hin as [Heq | Hin].
    + injection Heq as -> ->. rewrite Hskip.
      rewrite fold_skip_get.
      * rewrite dict_get_set, String.eqb_refl. reflexivity.
      * intros Hf. apply filter_In in Hf. tauto.
    + now apply IH.
Qed.

(** A custom attribute of the record is in the dict with its value,
    whatever the mapping and the implicit fields put there. *)
Lemma add_custom_attrs_extra (r : LogRecord) (k : string) (v : pyval)
    (message : pydict) :
  NoDup (dict_keys (extra r)) -> In (k, v) (extra r) ->
  mem k LOG_RECORD_BUILTIN_ATTRS = false ->
  dict_get k (add_custom_attrs r message) = Some v.
Proof.
  intros Hnd Hin Hk. unfold add_custom_attrs, __dict__.
  rewrite fold_left_app, init_attrs_skipped.
  now apply (fold_skip_In (fun k => mem k LOG_RECORD_BUILTIN_ATTRS)).
Qed.

(** An entry whose source is not in [always_fields] puts the record's
    attribute under its key. *)
Lemma apply_fmt_keys_attr (r : LogRecord) (key val : string)
    (items : list (string * string)) :
  forall af message message' af',
    apply_fmt_keys r items af message = Ok (message', af') ->
    In (key, val) items -> NoDup (map fst items) ->
    dict_get val af = None ->
    exists v, getattr r val = Ok v /\ dict_get key message' = Some v.
Proof.
  induction items as [|[key0 val0] items IH];
    intros af message message' af' H Hin Hnd Hnone.
  - contradiction.
  - simpl in H. inversion Hnd as [|? ? Hnotin Hnd']; subst.
    destruct Hin as [Heq | Hin].
    + injection Heq as -> ->. rewrite Hnone in H.
      apply bind_Ok in H. destruct H as [v [Hv H]].
      exists v. split; [exact Hv|].
      rewrite (apply_fmt_keys_other _ _ _ _ _ _ _ H Hnotin).
      now rewrite dict_get_set, String.eqb_refl.
    + apply bind_Ok in H. destruct H as [v0 [_ H]].
      apply (IH _ _ _ _ H Hin Hnd').
      rewrite dict_get_del. destruct (String.eqb val val0); [reflexivity | exact Hnone].
Qed.

(** The comprehension raises nothing but the AttributeError of a source
    that the record lacks. *)
Lemma apply_fmt_keys_Raise (r : LogRecord) (items : list (string * string)) :
  forall af message e,
    apply_fmt_keys r items af message = Raise e ->
    exists val,
      In val (map snd items) /\ has_attr r val = false /\ e = AttributeError val.
Proof.
  induction items as [|[key val] items IH]; intros af message e H.
  - discriminate.
  - simpl in H.
    destruct (match dict_get val af with
              | Some msg_val => if is_None msg_val then getattr r val else Ok msg_val
              | None => getattr r val
              end) as [v|e'] eqn:Hv; simpl in H.
    + apply IH in H. destruct H as [val' [Hin H]]. exists val'. simpl. tauto.
    + injection H as <-. exists val. split; [simpl; tauto|].
      destruct (dict_get val af) as [msg_val|];
        [destruct (is_None msg_val); [|discriminate]|];
        now apply getattr_Raise.
Qed.

(** When the comprehension returns, a source that is no attribute of the
    record was in [always_fields], and is the source of one entry only. *)
Lemma apply_fmt_keys_Ok_count (r : LogRecord) (items : list (string * string)) :
  forall af message res,
    apply_fmt_keys r items af message = Ok res ->
    forall val, has_attr r val = false ->
      (count_occ string_dec (map snd items) val
       <= match dict_get val af with Some _ => 1 | None => 0 end)%nat.
Proof.
  induction items as [|[key val0] items IH]; intros af message res H val Hno.
  - simpl. lia.
  - simpl in H. apply bind_Ok in H. destruct H as [v [Hv H]].
    specialize (IH _ _ _ H val Hno). rewrite dict_get_del in IH.
    cbn [map snd count_occ]. destruct (string_dec val0 val) as [-> | Hne].
    + rewrite String.eqb_refl in IH.
      destruct (dict_get val af) as [msg_val|]; [lia|].
      assert (Ha : has_attr r val = true) by (apply getattr_Ok; eauto).
      congruence.
    + assert (E : String.eqb val val0 = false) by (apply String.eqb_neq; congruence).
      now rewrite E in IH.
Qed.

(** The test [sources_available], in terms of the count of each source. *)
Lemma sources_available_count (self : JsonFormatter) (r : LogRecord) (af : pydict) :
  dict_keys af = implicit_fields r ->
  sources_available self r = true <->
  (forall val, has_attr r val = false ->
     (count_occ string_dec (map snd (fmt_keys self)) val
      <= match dict_get val af with Some _ => 1 | None => 0 end)%nat).
Proof.
  intros Hk. unfold sources_available, source_available. rewrite forallb_forall.
  split.
  - intros H val Ha.
    destruct (in_dec string_dec val (map snd (fmt_keys self))) as [Hin | Hnot].
    + specialize (H val Hin). rewrite Ha in H. cbn [orb] in H.
      apply andb_true_iff in H. destruct H as [Hm Hc].
      apply Nat.eqb_eq in Hc. rewrite Hc.
      apply mem_In in Hm. rewrite <- Hk in Hm.
      destruct (dict_get val af) eqn:E; [lia|].
      apply dict_get_None in E. contradiction.
    + apply (count_occ_not_In string_dec) in Hnot. rewrite Hnot. lia.
  - intros H val Hin. destruct (has_attr r val) eqn:Ha; [reflexivity|].
    cbn [orb]. specialize (H val Ha).
    apply (count_occ_In string_dec) in Hin.
    destruct (dict_get val af) eqn:E; [|lia].
    apply andb_true_iff. split.
    + apply mem_In. rewrite <- Hk. apply dict_get_In in E.
      apply (in_map fst) in E. exact E.
    + apply Nat.eqb_eq. lia.
Qed.

Section MappingProperties.

Variable str_mod : string -> pyval -> result string.

Lemma prepare_parts (self : JsonFormatter) (r : LogRecord) (out : pydict) :
  _prepare_log_dict str_mod self r = Ok out ->
  exists af message,
    always_fields str_mod self r = Ok af
    /\ apply_fmt_keys r (fmt_keys self) af [] =
       Ok (message, left_over (fmt_keys self) af)
    /\ out = add_custom_attrs r (dict_update message (left_over (fmt_keys self) af))
    /\ NoDup (dict_keys (left_over (fmt_keys self) af))
    /\ dict_keys (left_over (fmt_keys self) af) = unconsumed_fields self r.
Proof.
  unfold _prepare_log_dict. intros H.
  apply bind_Ok in H. destruct H as [af [Haf H]].
  apply bind_Ok in H. destruct H as [[message af'] [Hap H]].
  injection H as <-. cbn [fst snd].
  pose proof (apply_fmt_keys_shape _ _ _ _ _ _ Hap) as [_ ->].
  exists af, message. split; [exact Haf|]. split; [exact Hap|].
  split; [reflexivity|].
  assert (Hk : dict_keys (left_over (fmt_keys self) af) = unconsumed_fields self r).
  { unfold left_over, unconsumed_fields.
    rewrite (dict_keys_filter (fun k0 => negb (mem k0 (map snd (fmt_keys self))))).
    now rewrite (always_fields_keys _ _ _ _ Haf). }
  split; [|exact Hk]. rewrite Hk. unfold unconsumed_fields.
  apply NoDup_filter, implicit_fields_NoDup.
Qed.

(** X1: a mapping entry whose source is not an implicit field puts the
    record's attribute of that name in the JSON object, under the entry's
    output key, provided no unconsumed implicit field and no custom
    attribute has that key. *)
Theorem mapped_attribute_emitted (self : JsonFormatter) (r : LogRecord)
    (s key val : string) :
  NoDup (map fst (fmt_keys self)) ->
  In (key, val) (fmt_keys self) ->
  ~ In val (implicit_fields r) ->
  ~ In key (unconsumed_fields self r) ->
  ~ In key (extra_fields r) ->
  format str_mod self r = Ok s ->
  exists j v jv,
    json_loads s = Some j
    /\ getattr r val = Ok v
    /\ encode v = Ok jv
    /\ json_member key j = Some jv.
Proof.
  intros Hnd Hin Hval Hun Hextra H. apply format_Ok in H.
  destruct H as [out [members [Hout [Henc [_ [-> Hload]]]]]].
  destruct (prepare_parts _ _ _ Hout) as [af [message [Haf [Hap [-> [Hnd' Hk]]]]]].
  assert (Hnone : dict_get val af = None).
  { apply dict_get_None. now rewrite (always_fields_keys _ _ _ _ Haf). }
  destruct (apply_fmt_keys_attr _ _ _ _ _ _ _ _ Hap Hin Hnd Hnone) as [v [Hv Hm]].
  assert (Hget : dict_get key
                   (add_custom_attrs r
                      (dict_update message (left_over (fmt_keys self) af)))
                 = Some v).
  { rewrite add_custom_attrs_get by assumption.
    rewrite dict_get_update_NoDup by assumption.
    assert (Hl : dict_get key (left_over (fmt_keys self) af) = None).
    { apply dict_get_None. now rewrite Hk. }
    now rewrite Hl. }
  apply encode_as_value in Henc. destruct Henc as [ms [Heq [_ [Hg _]]]].
  injection Heq as <-. destruct (Hg _ _ Hget) as [jv [Hjv Hmem]].
  exists (JObj members), v, jv. auto.
Qed.

(** X2: every custom attribute of the record is a top-level member of the
    JSON object, with the document of its own value: nothing that the
    mapping or the implicit fields wrote under that name is kept. *)
Theorem extra_fields_preserved (self : JsonFormatter) (r : LogRecord)
    (s k : string) (v : pyval) :
  NoDup (dict_keys (extra r)) ->
  In (k, v) (extra r) ->
  mem k LOG_RECORD_BUILTIN_ATTRS = false ->
  format str_mod self r = Ok s ->
  exists j jv,
    json_loads s = Some j
    /\ encode v = Ok jv
    /\ json_member k j = Some jv.
Proof.
  intros Hnd Hin Hk H. apply format_Ok in H.
  destruct H as [out [members [Hout [Henc [_ [-> Hload]]]]]].
  destruct (prepare_parts _ _ _ Hout) as [af [message [_ [_ [-> _]]]]].
  pose proof (add_custom_attrs_extra r k v
                (dict_update message (left_over (fmt_keys self) af)) Hnd Hin Hk)
    as Hget.
  apply encode_as_value in Henc. destruct Henc as [ms [Heq [_ [Hg _]]]].
  injection Heq as <-. destruct (Hg _ _ Hget) as [jv [Hjv Hmem]].
  exists (JObj members), jv. auto.
Qed.

(** X3: when the implicit fields can be computed and some source of the
    mapping can not be resolved (it is no attribute of the record, and it
    is no implicit field or an earlier entry has consumed it), [format]
    raises AttributeError for a source that the record lacks. *)
Theorem missing_source_raises (self : JsonFormatter) (r : LogRecord) (af : pydict) :
  always_fields str_mod self r = Ok af ->
  sources_available self r = false ->
  exists val,
    In val (map snd (fmt_keys self))
    /\ has_attr r val = false
    /\ format str_mod self r = Raise (AttributeError val).
Proof.
  intros Haf Hsrc.
  destruct (apply_fmt_keys r (fmt_keys self) af []) as [res|e] eqn:Hap.
  - exfalso.
    pose proof (apply_fmt_keys_Ok_count _ _ _ _ _ Hap) as Hc.
    apply (sources_available_count self r af (always_fields_keys _ _ _ _ Haf)) in Hc.
    congruence.
  - destruct (apply_fmt_keys_Raise _ _ _ _ _ Hap) as [val [Hin [Ha ->]]].
    exists val. split; [exact Hin|]. split; [exact Ha|].
    unfold format, _prepare_log_dict. rewrite Haf. cbn [bind]. rewrite Hap.
    reflexivity.
Qed.

End MappingProperties.

Lemma mapped_attribute_emitted_witness :
  exists j,
    json_loads
      (render None O
         (JObj [("level", JStr "INFO");
                ("message", JStr "Started application");
                ("timestamp", JStr sample_stamp);
                ("note", JStr "some extra info here")])) = Some j
    /\ json_member "level" j = Some (JStr "INFO").
Proof.
  destruct (mapped_attribute_emitted no_str_mod example_formatter started_record
              (render None O
                 (JObj [("level", JStr "INFO");
                        ("message", JStr "Started application");
                        ("timestamp", JStr sample_stamp);
                        ("note", JStr "some extra info here")]))
              "level" "levelname" example_mapping_NoDup)
    as [j [v [jv [Hload [Hv [Hjv Hm]]]]]].
  - simpl. tauto.
  - simpl. intuition discriminate.
  - simpl. intuition discriminate.
  - simpl. intuition discriminate.
  - reflexivity.
  - exists j. split; [exact Hload|].
    vm_compute in Hv. injection Hv as <-. simpl in Hjv. injection Hjv as <-.
    exact Hm.
Defined.

Lemma extra_fields_preserved_witness :
  exists j,
    json_loads
      (render None O
         (JObj [("level", JStr "INFO");
                ("message", JStr "Started application");
                ("timestamp", JStr sample_stamp);
                ("note", JStr "some extra info here")])) = Some j
    /\ json_member "note" j = Some (JStr "some extra info here").
Proof.
  destruct (extra_fields_preserved no_str_mod example_formatter started_record
              (render None O
                 (JObj [("level", JStr "INFO");
                        ("message", JStr "Started application");
                        ("timestamp", JStr sample_stamp);
                        ("note", JStr "some extra info here")]))
              "note" (PStr "some extra info here"))
    as [j [jv [Hload [Hjv Hm]]]].
  - simpl. repeat constructor. intros [].
  - simpl. tauto.
  - reflexivity.
  - reflexivity.
  - exists j. split; [exact Hload|]. simpl in Hjv. injection Hjv as <-. exact Hm.
Defined.

Lemma missing_source_raises_witness :
  exists val,
    format no_str_mod missing_source_formatter started_record
    = Raise (AttributeError val).
Proof.
  destruct (missing_source_raises no_str_mod missing_source_formatter
              started_record
              [("message", PStr "Started application");
               ("timestamp", PStr sample_stamp)] eq_refl eq_refl)
    as [val [_ [_ H]]].
  exists val. exact H.
Defined.

(** ** Renamed implicit fields *)

(** An entry that is the only one to name a field of [always_fields] as its
    source puts the value of the field under its key. *)
Lemma apply_fmt_keys_renamed (r : LogRecord) (key val : string) (v : pyval)
    (items : list (string * string)) :
  forall af message message' af',
    apply_fmt_keys r items af message = Ok (message', af') ->
    In (key, val) items -> NoDup (map fst items) ->
    count_occ string_dec (map snd items) val = 1%nat ->
    dict_get val af = Some v -> is_None v = false ->
    dict_get key message' = Some v.
Proof.
  induction items as [|[key0 val0] items IH];
    intros af message message' af' H Hin Hnd Hc Hget Hnn.
  - contradiction.
  - simpl in H. inversion Hnd as [|? ? Hnotin Hnd']; subst.
    cbn [map snd count_occ] in Hc.
    destruct Hin as [Heq | Hin].
    + injection Heq as -> ->. rewrite Hget, Hnn in H. cbn [bind] in H.
      rewrite (apply_fmt_keys_other _ _ _ _ _ _ _ H Hnotin).
      now rewrite dict_get_set, String.eqb_refl.
    + assert (Hpos : (0 < count_occ string_dec (map snd items) val)%nat).
      { apply (count_occ_In string_dec). apply (in_map snd) in Hin. exact Hin. }
      destruct (string_dec val0 val) as [-> | Hne]; [lia|].
      apply bind_Ok in H. destruct H as [v0 [_ H]].
      apply (IH _ _ _ _ H Hin Hnd' Hc); [|exact Hnn].
      rewrite dict_get_del.
      assert (E : String.eqb val val0 = false) by (apply String.eqb_neq; congruence).
      now rewrite E.
Qed.

Section RenamedFields.

Variable str_mod : string -> pyval -> result string.

(** X6: a mapping entry that is the only one to name an implicit field
    (message, timestamp, exc_info, stack_info) as its source puts the value
    computed for that field in the JSON object, under the entry's output
    key, provided no unconsumed implicit field and no custom attribute has
    that key. *)
Theorem renamed_field_emitted (self : JsonFormatter) (r : LogRecord)
    (af : pydict) (s key val text : string) :
  NoDup (map fst (fmt_keys self)) ->
  In (key, val) (fmt_keys self) ->
  count_occ string_dec (map snd (fmt_keys self)) val = 1%nat ->
  always_fields str_mod self r = Ok af ->
  dict_get val af = Some (PStr text) ->
  ~ In key (unconsumed_fields self r) ->
  ~ In key (extra_fields r) ->
  format str_mod self r = Ok s ->
  exists j,
    json_loads s = Some j
    /\ json_member key j = Some (JStr text).
Proof.
  intros Hnd Hin Hc Haf Hget Hun Hextra H. apply format_Ok in H.
  destruct H as [out [members [Hout [Henc [_ [-> Hload]]]]]].
  destruct (prepare_parts _ _ _ _ Hout) as [af0 [message [Haf0 [Hap [-> [Hnd' Hk]]]]]].
  rewrite Haf in Haf0. injection Haf0 as <-.
  pose proof (apply_fmt_keys_renamed _ _ _ _ _ _ _ _ _ Hap Hin Hnd Hc Hget eq_refl)
    as Hm.
  assert (Hout' : dict_get key
                    (add_custom_attrs r
                       (dict_update message (left_over (fmt_keys self) af)))
                  = Some (PStr text)).
  { rewrite add_custom_attrs_get by assumption.
    rewrite dict_get_update_NoDup by assumption.
    assert (Hl : dict_get key (left_over (fmt_keys self) af) = None).
    { apply dict_get_None. now rewrite Hk. }
    now rewrite Hl. }
  apply encode_as_value in Henc. destruct Henc as [ms [Heq [_ [Hg _]]]].
  injection Heq as <-. destruct (Hg _ _ Hout') as [jv [Hjv Hmem]].
  simpl in Hjv. injection Hjv as <-.
  exists (JObj members). auto.
Qed.

End RenamedFields.

Lemma renamed_field_emitted_witness :
  exists j,
    json_loads
      (render None O
         (JObj [("ts", JStr sample_stamp);
                ("message", JStr "Started application");
                ("note", JStr "some extra info here")])) = Some j
    /\ json_member "ts" j = Some (JStr sample_stamp).
Proof.
  apply (renamed_field_emitted no_str_mod renaming_formatter started_record
           [("message", PStr "Started application");
            ("timestamp", PStr sample_stamp)]
           (render None O
              (JObj [("ts", JStr sample_stamp);
                     ("message", JStr "Started application");
                     ("note", JStr "some extra info here")]))
           "ts" "timestamp" sample_stamp).
  - simpl. repeat (constructor; [simpl; intuition discriminate|]). constructor.
  - simpl. tauto.
  - reflexivity.
  - reflexivity.
  - reflexivity.
  - simpl. intuition discriminate.
  - simpl. intuition discriminate.
  - reflexivity.
Defined.

(** ** The characters of the text *)

Lemma all_chars_impl (f g : ascii -> bool) (s : string) :
  (forall c, f c = true -> g c = true) ->
  all_chars f s = true -> all_chars g s = true.
Proof.
  intros Hfg. induction s as [|c s IH]; simpl; [reflexivity|].
  intros H. apply andb_true_iff in H. destruct H as [Hc Hs].
  now rewrite (Hfg _ Hc), IH.
Qed.

Lemma escape_char_printable (c : ascii) :
  all_chars printable (escape_char c) = true.
Proof.
  destruct c as [[|] [|] [|] [|] [|] [|] [|] [|]]; reflexivity.
Qed.

Lemma number_char_printable (c : ascii) :
  is_number_char c = true -> printable c = true.
Proof.
  destruct c as [[|] [|] [|] [|] [|] [|] [|] [|]];
    first [reflexivity | discriminate].
Qed.

Lemma encode_basestring_printable (s : string) :
  all_chars printable (encode_basestring_ascii s) = true.
Proof.
  unfold encode_basestring_ascii. cbn [all_chars].
  rewrite all_chars_app. apply andb_true_iff. split; [reflexivity|].
  apply andb_true_iff. split; [|reflexivity].
  induction s as [|c s IH]; [reflexivity|].
  cbn [escape]. now rewrite all_chars_app, escape_char_printable, IH.
Qed.

Lemma float_text_printable (t : string) :
  json_float_ok t = true -> all_chars printable t = true.
Proof.
  unfold json_float_ok. intros Ht.
  destruct (String.eqb t "NaN") eqn:E1; [apply String.eqb_eq in E1; now subst|].
  destruct (String.eqb t "Infinity") eqn:E2; [apply String.eqb_eq in E2; now subst|].
  destruct (String.eqb t "-Infinity") eqn:E3; [apply String.eqb_eq in E3; now subst|].
  simpl in Ht. apply andb_true_iff in Ht. destruct Ht as [Hall _].
  exact (all_chars_impl _ _ _ number_char_printable Hall).
Qed.

Section RenderChars.

Variable p : ascii -> bool.
Variable ind : option Z.
Hypothesis p_printable : forall c, printable c = true -> p c = true.
Hypothesis p_newline_indent :
  forall lvl, all_chars p (newline_indent ind lvl) = true.

Lemma p_text (s : string) : all_chars printable s = true -> all_chars p s = true.
Proof. apply all_chars_impl. exact p_printable. Qed.

Lemma p_item_separator : all_chars p (item_separator ind) = true.
Proof. apply p_text. destruct ind; reflexivity. Qed.

Lemma render_all_chars (j : json) :
  json_ok j = true -> forall lvl, all_chars p (render ind lvl j) = true.
Proof.
  induction j as [| b | z | t | s | items IH | members IH] using json_ind;
    intros Hok lvl.
  - reflexivity || (apply p_text; reflexivity).
  - apply p_text. destruct b; reflexivity.
  - apply p_text. cbn [render].
    exact (all_chars_impl _ _ _ number_char_printable (all_number_chars_dec z)).
  - apply p_text. cbn [render]. now apply float_text_printable.
  - apply p_text. apply encode_basestring_printable.
  - destruct items as [|x items]; [apply p_text; reflexivity|].
    rewrite render_JArr_cons. cbn [json_ok forallb] in Hok.
    apply andb_true_iff in Hok. destruct Hok as [Hx Hitems].
    inversion IH as [|? ? IHx IHitems]; subst.
    rewrite !all_chars_app, p_newline_indent, (IHx Hx), p_newline_indent.
    assert (Hrest : all_chars p (render_items ind (S lvl) items) = true).
    { clear IH IHx Hx. induction IHitems as [|y items IHy _ IHl]; [reflexivity|].
      cbn [forallb] in Hitems. apply andb_true_iff in Hitems.
      destruct Hitems as [Hy Hitems]. cbn [render_items].
      rewrite !all_chars_app, p_item_separator, p_newline_indent, (IHy Hy).
      now rewrite (IHl Hitems). }
    rewrite Hrest. rewrite (p_text "[" eq_refl), (p_text "]" eq_refl). reflexivity.
  - destruct members as [|[k x] members]; [apply p_text; reflexivity|].
    rewrite render_JObj_cons. cbn [json_ok forallb snd] in Hok.
    apply andb_true_iff in Hok. destruct Hok as [Hx Hmembers].
    inversion IH as [|? ? IHx IHmembers]; subst. cbn [snd] in IHx.
    rewrite !all_chars_app, p_newline_indent, (IHx Hx), p_newline_indent.
    rewrite (p_text _ (encode_basestring_printable k)).
    assert (Hrest : all_chars p (render_members ind (S lvl) members) = true).
    { clear IH IHx Hx.
      induction IHmembers as [|[k' y] members IHy _ IHl]; [reflexivity|].
      cbn [forallb snd] in Hmembers. apply andb_true_iff in Hmembers.
      destruct Hmembers as [Hy Hmembers]. cbn [render_members]. cbn [snd] in IHy.
      rewrite !all_chars_app, p_item_separator, p_newline_indent, (IHy Hy).
      rewrite (p_text _ (encode_basestring_printable k')).
      rewrite (p_text key_separator eq_refl).
      now rewrite (IHl Hmembers). }
    rewrite Hrest.
    rewrite (p_text "{" eq_refl), (p_text "}" eq_refl), (p_text key_separator eq_refl).
    reflexivity.
Qed.

End RenderChars.

Lemma newline_indent_chars (ind : option Z) (lvl : nat) :
  all_chars printable_or_newline (newline_indent ind lvl) = true.
Proof.
  destruct ind as [n|]; [|reflexivity]. cbn [newline_indent all_chars].
  assert (Hu : all_chars printable_or_newline (indent_unit n) = true).
  { unfold indent_unit. induction (Z.to_nat n) as [|k IH]; simpl; auto. }
  assert (H : all_chars printable_or_newline (repeat_string lvl (indent_unit n)) = true).
  { induction lvl as [|lvl IH]; simpl; [reflexivity|].
    now rewrite all_chars_app, Hu, IH. }
  now rewrite H.
Qed.

Section TextProperties.

Variable str_mod : string -> pyval -> result string.

(** X7: the text that [format] returns is plain ASCII: each of its
    characters is a printable ASCII character or a line feed, and without
    [indent] there is no line feed in it, so that a record is one line of
    the log whatever the message and the attributes hold. *)
Theorem format_ascii (self : JsonFormatter) (r : LogRecord) (s : string) :
  format str_mod self r = Ok s ->
  all_chars printable_or_newline s = true
  /\ (indent self = None -> all_chars printable s = true).
Proof.
  intros H. apply format_Ok in H.
  destruct H as [out [members [_ [Henc [_ [-> _]]]]]].
  pose proof (encode_json_ok _ _ Henc) as Hok. split.
  - apply render_all_chars; [|apply newline_indent_chars|exact Hok].
    intros c Hc. unfold printable_or_newline. now rewrite Hc.
  - intros ->. apply render_all_chars; [auto|reflexivity|exact Hok].
Qed.

(** X8: [indent] changes the layout of the text and nothing else: two
    formatters with the same mapping raise the same exception on a record,
    or return texts of the same JSON document. *)
Theorem indent_layout_only (self1 self2 : JsonFormatter) (r : LogRecord) :
  fmt_keys self1 = fmt_keys self2 ->
  match format str_mod self1 r, format str_mod self2 r with
  | Ok s1, Ok s2 =>
      exists j, json_loads s1 = Some j /\ json_loads s2 = Some j
                /\ s1 = render (indent self1) O j
                /\ s2 = render (indent self2) O j
  | Raise e1, Raise e2 => e1 = e2
  | _, _ => False
  end.
Proof.
  intros Hk.
  assert (Hp : _prepare_log_dict str_mod self1 r = _prepare_log_dict str_mod self2 r).
  { unfold _prepare_log_dict, always_fields. now rewrite Hk. }
  unfold format, json_dumps. rewrite <- Hp.
  destruct (_prepare_log_dict str_mod self1 r) as [out|e]; cbn [bind]; [|reflexivity].
  destruct (encode (as_value out)) as [j|e] eqn:Hj; cbn [bind]; [|reflexivity].
  pose proof (encode_json_ok _ _ Hj) as Hok.
  exists j. repeat split; auto using json_loads_render.
Qed.

End TextProperties.

Lemma format_ascii_witness :
  all_chars printable_or_newline
    (render None O
       (JObj [("level", JStr "INFO");
              ("message", JStr "Started application");
              ("timestamp", JStr sample_stamp);
              ("note", JStr "some extra info here")])) = true
  /\ (indent example_formatter = None ->
      all_chars printable
        (render None O
           (JObj [("level", JStr "INFO");
                  ("message", JStr "Started application");
                  ("timestamp", JStr sample_stamp);
                  ("note", JStr "some extra info here")])) = true).
Proof.
  apply (format_ascii no_str_mod example_formatter started_record).
  reflexivity.
Defined.

Lemma indent_layout_only_witness :
  match format no_str_mod example_formatter started_record,
        format no_str_mod indented_formatter started_record with
  | Ok s1, Ok s2 =>
      exists j, json_loads s1 = Some j /\ json_loads s2 = Some j
                /\ s1 = render (indent example_formatter) O j
                /\ s2 = render (indent indented_formatter) O j
  | Raise e1, Raise e2 => e1 = e2
  | _, _ => False
  end.
Proof.
  apply (indent_layout_only no_str_mod example_formatter indented_formatter
           started_record).
  reflexivity.
Defined.

(** ** Set-up, again *)

Section SetupProperties.

Import Setup.

Lemma build_handlers_get (cfg : Config) (name : string) :
  forall next hs ls,
    build_handlers cfg next = (hs, ls) ->
    match dict_get name cfg with
    | Some true => exists n, dict_get name hs = Some (QueueHandler n)
    | Some false => dict_get name hs = Some OtherHandler
    | None => dict_get name hs = None
    end.
Proof.
  induction cfg as [|[name0 [|]] cfg IH]; intros next hs ls H; simpl in H.
  - injection H as <- <-. reflexivity.
  - destruct (build_handlers cfg (S next)) as [hs' ls'] eqn:E.
    injection H as <- <-. specialize (IH _ _ _ E).
    cbn [dict_get]. rewrite dict_get_set.
    destruct (String.eqb name name0); [eauto | exact IH].
  - destruct (build_handlers cfg next) as [hs' ls'] eqn:E.
    injection H as <- <-. specialize (IH _ _ _ E).
    cbn [dict_get]. rewrite dict_get_set.
    destruct (String.eqb name name0); [reflexivity | exact IH].
Qed.

(** X9: when the handler that the configuration names queue_handler is
    not a queue handler, [setup_logging] raises AttributeError for
    [listener], whatever the process was before. *)
Theorem setup_logging_without_listener (cfg : Config) (p : Process) :
  dict_get "queue_handler" cfg = Some false ->
  setup_logging (Ok cfg) p = Raise (AttributeError "listener").
Proof.
  intros Hq. unfold setup_logging, getHandlerByName, dictConfig. cbn [bind].
  destruct (build_handlers cfg (List.length (listeners p))) as [hs ls] eqn:E.
  pose proof (build_handlers_get cfg "queue_handler" _ _ _ E) as Hg.
  rewrite Hq in Hg. cbn [handlers]. now rewrite Hg.
Qed.

Lemma count_running_none (l : list (AsyncBridge.bridge LogRecord)) :
  (forall b, In b l -> is_running b = false) -> count_running l = O.
Proof.
  unfold count_running. induction l as [|b l IH]; intros H; [reflexivity|].
  cbn [filter]. rewrite (H b) by (now left). apply IH.
  intros b' Hin. apply H. now right.
Qed.

Lemma stop_not_running (b : AsyncBridge.bridge LogRecord) :
  is_running (AsyncBridge.stop b) = false.
Proof.
  unfold is_running. destruct (stop_phase b) as [-> | ->]; reflexivity.
Qed.

(** Exit leaves no thread running when every running listener is hooked. *)
Lemma exit_process_stops (p : Process) :
  hooked p -> running_listeners (exit_process p) = O.
Proof.
  intros Hh. unfold running_listeners. apply count_running_none.
  intros b' Hin. apply In_nth_error in Hin. destruct Hin as [n Hn].
  unfold exit_process in Hn. rewrite run_hooks_nth in Hn.
  destruct (nth_error (listeners p) n) as [b|] eqn:Hb; [|discriminate].
  cbn [option_map] in Hn. injection Hn as <-.
  destruct (count_occ Nat.eq_dec (rev (atexit_hooks p)) n) as [|k] eqn:Hc.
  - cbn [Nat.iter nat_rect]. destruct (is_running b) eqn:Hr; [|reflexivity].
    exfalso. apply (count_occ_not_In Nat.eq_dec) in Hc. apply Hc.
    apply -> in_rev. exact (Hh _ _ Hb Hr).
  - rewrite stop_iter. apply stop_not_running.
Qed.

Lemma run_not_started (events : list (@AsyncBridge.event LogRecord)) :
  forall b b',
    AsyncBridge.run events b = Some b' ->
    is_running b' = true -> is_running b = true.
Proof.
  induction events as [|[r|] events IH]; intros b b' H Hr.
  - simpl in H. now injection H as <-.
  - cbn [AsyncBridge.run] in H. unfold AsyncBridge.put in H. unfold is_running.
    destruct (AsyncBridge.phase b); try discriminate. reflexivity.
  - cbn [AsyncBridge.run] in H. specialize (IH _ _ H Hr).
    unfold is_running, AsyncBridge.consume in *.
    destruct b as [[| | |] [|r q] d]; cbn in *; congruence.
Qed.

Lemma setup_logging_hooked (cfg : Config) (p p' : Process) :
  hooked p -> setup_logging (Ok cfg) p = Ok p' -> hooked p'.
Proof.
  intros Hh. unfold setup_logging, getHandlerByName, dictConfig. cbn [bind].
  destruct (build_handlers cfg (List.length (listeners p))) as [hs ls] eqn:E.
  destruct (build_handlers_spec _ _ _ _ E) as [Hall _].
  cbn [handlers].
  assert (Hold : forall m b,
             nth_error (listeners p ++ ls) m = Some b -> is_running b = true ->
             In m (atexit_hooks p)).
  { intros m b Hm Hr.
    destruct (Nat.lt_ge_cases m (List.length (listeners p))) as [Hlt | Hge].
    - rewrite nth_error_app1 in Hm by exact Hlt. exact (Hh _ _ Hm Hr).
    - rewrite nth_error_app2 in Hm by exact Hge. apply nth_error_In in Hm.
      rewrite Forall_forall in Hall. rewrite (Hall _ Hm) in Hr. discriminate. }
  destruct (dict_get "queue_handler" hs) as [[n|]|]; [|discriminate|].
  - intros [= <-] m b Hm Hr.
    cbn [atexit_register listener_start listeners atexit_hooks] in *.
    rewrite nth_error_update_nth in Hm. apply in_or_app.
    destruct (Nat.eqb m n) eqn:En.
    + apply Nat.eqb_eq in En. right. simpl. auto.
    + left. exact (Hold _ _ Hm Hr).
  - intros [= <-] m b Hm Hr. cbn [listeners atexit_hooks] in *.
    exact (Hold _ _ Hm Hr).
Qed.

Lemma listener_events_hooked (n : nat)
    (events : list (@AsyncBridge.event LogRecord)) (p p' : Process) :
  hooked p -> listener_events n events p = Some p' -> hooked p'.
Proof.
  intros Hh. unfold listener_events.
  destruct (nth_error (listeners p) n) as [b|] eqn:Hb; [|discriminate].
  destruct (AsyncBridge.run events b) as [b'|] eqn:Hrun; [|discriminate].
  intros [= <-] m b0 Hm Hr. cbn [listeners atexit_hooks] in *.
  rewrite nth_error_update_nth in Hm.
  destruct (Nat.eqb m n) eqn:En.
  - apply Nat.eqb_eq in En. subst m. rewrite Hb in Hm. cbn [option_map] in Hm.
    injection Hm as <-. apply (Hh _ _ Hb). exact (run_not_started _ _ _ Hrun Hr).
  - exact (Hh _ _ Hm Hr).
Qed.

(** X10: [setup_logging] keeps every running listener hooked: when each
    listener thread running before the call has its [stop] among the exit
    hooks, so has each one running after the call; and then, whatever
    records are enqueued and delivered afterwards, no listener thread is
    left running once the exit hooks have run. *)
Theorem exit_stops_every_listener (cfg : Config) (p p' : Process) :
  hooked p ->
  setup_logging (Ok cfg) p = Ok p' ->
  hooked p'
  /\ running_listeners (exit_process p') = O
  /\ (forall n events p'',
        listener_events n events p' = Some p'' ->
        running_listeners (exit_process p'') = O).
Proof.
  intros Hh H. pose proof (setup_logging_hooked _ _ _ Hh H) as Hh'.
  split; [exact Hh'|]. split; [exact (exit_process_stops _ Hh')|].
  intros n events p'' He. apply exit_process_stops.
  exact (listener_events_hooked _ _ _ _ Hh' He).
Qed.

End SetupProperties.

Lemma setup_logging_without_listener_witness :
  Setup.setup_logging (Ok plain_config) Setup.fresh_process
  = Raise (AttributeError "listener").
Proof.
  apply (setup_logging_without_listener plain_config Setup.fresh_process).
  reflexivity.
Defined.

Lemma exit_stops_every_listener_witness :
  Setup.running_listeners
    (Setup.exit_process
       (Setup.atexit_register 0
          (Setup.listener_start 0
             (Setup.dictConfig Setup.example_config Setup.fresh_process))))
  = O.
Proof.
  destruct (exit_stops_every_listener Setup.example_config Setup.fresh_process
              (Setup.atexit_register 0
                 (Setup.listener_start 0
                    (Setup.dictConfig Setup.example_config Setup.fresh_process))))
    as [_ [H _]].
  - intros n b Hn. destruct n; discriminate.
  - reflexivity.
  - exact H.
Defined.

(** ** The timestamp and the instant *)

Lemma month_day_inverse_table :
  forallb (fun n =>
             forallb (fun leap =>
                        let md := _month_day (Z.of_nat n) leap in
                        _DAYS_BEFORE_MONTH (fst md)
                        + (if (2 <? fst md) && leap then 1 else 0) + snd md
                        =? Z.of_nat n + 1)
               [true; false])
          (seq 0 366) = true.
Proof. vm_compute. reflexivity. Qed.

Lemma _month_day_inverse (n : Z) (leap : bool) :
  0 <= n < 366 ->
  _DAYS_BEFORE_MONTH (fst (_month_day n leap))
  + (if (2 <? fst (_month_day n leap)) && leap then 1 else 0)
  + snd (_month_day n leap) = n + 1.
Proof.
  intros Hn.
  pose proof month_day_inverse_table as T. rewrite forallb_forall in T.
  specialize (T (Z.to_nat n)).
  rewrite Z2Nat.id in T by lia.
  assert (Hin : In (Z.to_nat n) (seq 0 366)) by (apply in_seq; lia).
  apply T in Hin. cbn [forallb] in Hin.
  apply andb_true_iff in Hin. destruct Hin as [Ht Hf].
  apply andb_true_iff in Hf. destruct Hf as [Hf _].
  destruct leap; [apply Z.eqb_eq in Ht | apply Z.eqb_eq in Hf]; assumption.
Qed.

(** [_ymd2ord] undoes [_ord2ymd]. *)
Lemma _ymd2ord_ord2ymd (ordinal : Z) :
  _ymd2ord (fst (fst (_ord2ymd ordinal))) (snd (fst (_ord2ymd ordinal)))
    (snd (_ord2ymd ordinal)) = ordinal.
Proof.
  unfold _ord2ymd.
  set (n0 := ordinal - 1).
  set (n400 := n0 / 146097). set (r0 := n0 mod 146097).
  set (n100 := r0 / 36524). set (r1 := r0 mod 36524).
  set (n4 := r1 / 1461). set (r2 := r1 mod 1461).
  set (n1 := r2 / 365). set (r3 := r2 mod 365).
  assert (H0 : n0 = 146097 * n400 + r0 /\ 0 <= r0 < 146097)
    by (subst n400 r0; lia).
  assert (H1 : r0 = 36524 * n100 + r1 /\ 0 <= r1 < 36524)
    by (subst n100 r1; lia).
  assert (H2 : r1 = 1461 * n4 + r2 /\ 0 <= r2 < 1461)
    by (subst n4 r2; lia).
  assert (H3 : r2 = 365 * n1 + r3 /\ 0 <= r3 < 365)
    by (subst n1 r3; lia).
  clearbody n400 r0 n100 r1 n4 r2 n1 r3.
  destruct ((n1 =? 4) || (n100 =? 4)) eqn:Hs; cbn [fst snd].
  - unfold _ymd2ord, _days_before_year, _days_before_month, _is_leap.
    cbn [_DAYS_BEFORE_MONTH Z.ltb Z.compare Pos.compare Pos.compare_cont andb].
    apply orb_true_iff in Hs. rewrite !Z.eqb_eq in Hs.
    set (y := n400 * 400 + 1 + n100 * 100 + n4 * 4 + n1 - 1).
    assert (Hy : y = 400 * n400 + 100 * n100 + 4 * n4 + n1) by (subst y; lia).
    assert (Hleap : (y mod 4 =? 0) && (negb (y mod 100 =? 0) || (y mod 400 =? 0))
                    = true).
    { destruct Hs as [Hs | Hs].
      - assert (n100 <= 3 \/ n100 = 4) by lia.
        assert (E4 : y mod 4 = 0) by lia.
        apply andb_true_iff. split; [apply Z.eqb_eq; exact E4|].
        apply orb_true_iff.
        destruct (Z.eq_dec (y mod 100) 0) as [E100 | E100].
        + right. apply Z.eqb_eq. lia.
        + left. apply negb_true_iff. apply Z.eqb_neq. exact E100.
      - assert (E : y mod 400 = 0) by lia.
        assert (E4 : y mod 4 = 0) by lia.
        apply andb_true_iff. split; [apply Z.eqb_eq; exact E4|].
        apply orb_true_iff. right. apply Z.eqb_eq. exact E. }
    rewrite Hleap. clearbody y. subst n0. lia.
  - apply orb_false_iff in Hs. rewrite !Z.eqb_neq in Hs. destruct Hs as [Hn1 Hn100].
    set (leap := (n1 =? 3) && (negb (n4 =? 24) || (n100 =? 3))).
    set (y := n400 * 400 + 1 + n100 * 100 + n4 * 4 + n1).
    assert (Hb : 0 <= n100 <= 3 /\ 0 <= n4 <= 24 /\ 0 <= n1 <= 3) by lia.
    assert (Hleap : _is_leap y = leap).
    { unfold _is_leap, leap. subst y.
      destruct (Z.eq_dec n1 3) as [E1 | E1].
      - assert (E4 : (n400 * 400 + 1 + n100 * 100 + n4 * 4 + n1) mod 4 = 0) by lia.
        rewrite E4. rewrite (proj2 (Z.eqb_eq n1 3) E1). cbn [Z.eqb andb].
        destruct (Z.eq_dec n4 24) as [E24 | E24].
        + rewrite (proj2 (Z.eqb_eq n4 24) E24). cbn [negb orb].
          assert (E100 : (n400 * 400 + 1 + n100 * 100 + n4 * 4 + n1) mod 100 = 0)
            by lia.
          rewrite E100. cbn [Z.eqb negb orb].
          destruct (Z.eq_dec n100 3) as [E3 | E3].
          * rewrite (proj2 (Z.eqb_eq n100 3) E3). apply Z.eqb_eq. lia.
          * rewrite (proj2 (Z.eqb_neq n100 3) E3). apply Z.eqb_neq. lia.
        + rewrite (proj2 (Z.eqb_neq n4 24) E24). cbn [negb orb].
          assert (E100 : (n400 * 400 + 1 + n100 * 100 + n4 * 4 + n1) mod 100 <> 0)
            by lia.
          rewrite (proj2 (Z.eqb_neq _ 0) E100). reflexivity.
      - rewrite (proj2 (Z.eqb_neq n1 3) E1). cbn [andb].
        assert (E4 : (n400 * 400 + 1 + n100 * 100 + n4 * 4 + n1) mod 4 <> 0) by lia.
        rewrite (proj2 (Z.eqb_neq _ 0) E4). reflexivity. }
    unfold _ymd2ord, _days_before_month. rewrite Hleap.
    assert (Hr3 : 0 <= r3 < 366) by lia.
    pose proof (_month_day_inverse r3 leap Hr3) as Hmd.
    destruct (_month_day r3 leap) as [mo da]. cbn [fst snd] in *.
    set (c := if (2 <? mo) && leap then 1 else 0) in *. clearbody c.
    unfold _days_before_year. subst y n0. lia.
Qed.

(** The creation instant is the instant of the datetime. *)
Lemma fromtimestamp_utc_instant (t : pyfloat) (d : datetime) :
  fromtimestamp_utc t = Ok d -> float_micros t = Some (instant_of d).
Proof.
  unfold fromtimestamp_utc. destruct (float_micros t) as [m|];
    [|destruct (String.eqb (float_repr t) "nan"); discriminate].
  set (secs := m / 1000000). set (rem := secs mod 86400).
  set (ymd := _ord2ymd (secs / 86400 + EPOCH_ORDINAL)).
  destruct ((secs <? TIME_T_MIN) || (TIME_T_MAX <? secs)); [discriminate|].
  destruct ((fst (fst ymd) - 1900 <? INT_MIN) || (INT_MAX <? fst (fst ymd) - 1900));
    [discriminate|].
  destruct ((fst (fst ymd) <? MINYEAR) || (MAXYEAR <? fst (fst ymd)));
    [discriminate|].
  intros [= <-]. f_equal. unfold instant_of.
  cbn [year month day hour minute second microsecond].
  subst ymd. rewrite _ymd2ord_ord2ymd. subst rem secs. lia.
Qed.

Lemma digit_char_inj (x y : Z) :
  0 <= x < 10 -> 0 <= y < 10 -> digit_char x = digit_char y -> x = y.
Proof.
  intros Hx Hy H.
  destruct (digit_char_ok x Hx) as [_ Ex]. destruct (digit_char_ok y Hy) as [_ Ey].
  congruence.
Qed.

Lemma zpad_inj (w : nat) :
  forall n n' acc acc',
    0 <= n < 10 ^ Z.of_nat w -> 0 <= n' < 10 ^ Z.of_nat w ->
    zpad w n acc = zpad w n' acc' -> n = n' /\ acc = acc'.
Proof.
  induction w as [|w IH]; intros n n' acc acc' Hn Hn' H.
  - simpl in Hn, Hn'. assert (n = 0) by lia. assert (n' = 0) by lia. subst.
    simpl in H. auto.
  - rewrite Nat2Z.inj_succ, Z.pow_succ_r in Hn, Hn' by lia.
    cbn [zpad] in H. apply IH in H.
    + destruct H as [Hq Hs]. injection Hs as Hd ->.
      apply digit_char_inj in Hd; [|lia|lia]. split; [lia | reflexivity].
    + split; [apply Z.div_pos; lia | apply Z.div_lt_upper_bound; lia].
    + split; [apply Z.div_pos; lia | apply Z.div_lt_upper_bound; lia].
Qed.

Lemma append_String (c : ascii) (s t : string) :
  String c s +++ t = String c (s +++ t).
Proof. reflexivity. Qed.

Lemma fraction_inj (us us' : Z) :
  0 <= us <= 999999 -> 0 <= us' <= 999999 ->
  (if us =? 0 then "" else String "." (zpad 6 us "")) +++ "+00:00"
  = (if us' =? 0 then "" else String "." (zpad 6 us' "")) +++ "+00:00" ->
  us = us'.
Proof.
  intros Hus Hus' H.
  destruct (us =? 0) eqn:E; destruct (us' =? 0) eqn:E'.
  - apply Z.eqb_eq in E. apply Z.eqb_eq in E'. congruence.
  - rewrite append_String in H. discriminate.
  - rewrite append_String in H. discriminate.
  - rewrite !append_String, !zpad_append in H. injection H as H.
    apply (zpad_inj 6) in H; [tauto|simpl; lia|simpl; lia].
Qed.

(** Datetimes in range with the same text are the same. *)
Lemma isoformat_inj (d d' : datetime) :
  (1 <= year d <= 9999 /\ 1 <= month d <= 12 /\ 1 <= day d <= 31
   /\ 0 <= hour d <= 23 /\ 0 <= minute d <= 59 /\ 0 <= second d <= 59
   /\ 0 <= microsecond d <= 999999) ->
  (1 <= year d' <= 9999 /\ 1 <= month d' <= 12 /\ 1 <= day d' <= 31
   /\ 0 <= hour d' <= 23 /\ 0 <= minute d' <= 59 /\ 0 <= second d' <= 59
   /\ 0 <= microsecond d' <= 999999) ->
  isoformat d = isoformat d' -> d = d'.
Proof.
  intros Hd Hd' H. unfold isoformat in H.
  pose proof (fraction_inj (microsecond d) (microsecond d')) as Hus.
  set (t := (if microsecond d =? 0 then ""
             else String "." (zpad 6 (microsecond d) "")) +++ "+00:00") in *.
  set (t' := (if microsecond d' =? 0 then ""
              else String "." (zpad 6 (microsecond d') "")) +++ "+00:00") in *.
  clearbody t t'.
  apply (zpad_inj 4) in H; [|simpl; lia|simpl; lia]. destruct H as [Hy H].
  injection H as H.
  apply (zpad_inj 2) in H; [|simpl; lia|simpl; lia]. destruct H as [Hmo H].
  injection H as H.
  apply (zpad_inj 2) in H; [|simpl; lia|simpl; lia]. destruct H as [Hda H].
  injection H as H.
  apply (zpad_inj 2) in H; [|simpl; lia|simpl; lia]. destruct H as [Hh H].
  injection H as H.
  apply (zpad_inj 2) in H; [|simpl; lia|simpl; lia]. destruct H as [Hmi H].
  injection H as H.
  apply (zpad_inj 2) in H; [|simpl; lia|simpl; lia]. destruct H as [Hs H].
  assert (Hf : microsecond d = microsecond d') by (apply Hus; [lia | lia | exact H]).
  clear - Hy Hmo Hda Hh Hmi Hs Hf.
  destruct d as [y mo da h mi s us], d' as [y' mo' da' h' mi' s' us'].
  cbn [year month day hour minute second microsecond] in *.
  congruence.
Qed.

(** X11: the timestamp is faithful to the creation time: the datetime
    behind it denotes the record's creation instant to the microsecond, and
    two creation times with the same timestamp text are the same instant. *)
Theorem timestamp_faithful (t1 : pyfloat) (d1 : datetime) :
  fromtimestamp_utc t1 = Ok d1 ->
  float_micros t1 = Some (instant_of d1)
  /\ (forall t2 d2,
        fromtimestamp_utc t2 = Ok d2 ->
        isoformat d1 = isoformat d2 ->
        float_micros t1 = float_micros t2).
Proof.
  intros H1. split; [exact (fromtimestamp_utc_instant _ _ H1)|].
  intros t2 d2 H2 Hiso.
  pose proof (fromtimestamp_utc_range _ _ H1) as R1.
  pose proof (fromtimestamp_utc_range _ _ H2) as R2.
  pose proof (isoformat_inj _ _ R1 R2 Hiso) as Hd.
  rewrite (fromtimestamp_utc_instant _ _ H1), (fromtimestamp_utc_instant _ _ H2).
  now rewrite Hd.
Qed.

Lemma timestamp_faithful_witness :
  float_micros sample_created = Some 1730640000123456.
Proof.
  destruct (timestamp_faithful sample_created
              {| year := 2024; month := 11; day := 3; hour := 13;
                 minute := 20; second := 0; microsecond := 123456 |} eq_refl)
    as [H _].
  exact H.
Defined.

(** ** What the formatter reads of a record *)

Lemma apply_fmt_keys_ext (r1 r2 : LogRecord) (items : list (string * string)) :
  (forall val, In val (map snd items) -> getattr r1 val = getattr r2 val) ->
  forall af message,
    apply_fmt_keys r1 items af message = apply_fmt_keys r2 items af message.
Proof.
  induction items as [|[key val] items IH]; intros Hg af message; [reflexivity|].
  cbn [apply_fmt_keys dict_pop]. rewrite (Hg val) by (simpl; tauto).
  destruct (match dict_get val af with
            | Some msg_val => if is_None msg_val then getattr r2 val else Ok msg_val
            | None => getattr r2 val
            end) as [v|e]; cbn [bind]; [|reflexivity].
  apply IH. intros val' Hin. apply Hg. simpl. tauto.
Qed.

Section ReadProperties.

Variable str_mod : string -> pyval -> result string.

(** X12: [format] reads of a record its message and arguments, its
    creation time, its exception and stack information, its custom
    attributes and the attributes that the mapping names as sources, and
    nothing else: two records that agree on these are formatted alike,
    whatever their other built-in attributes are. *)
Theorem format_reads_named_only (self : JsonFormatter) (r1 r2 : LogRecord) :
  msg r1 = msg r2 -> args r1 = args r2 -> created r1 = created r2 ->
  exc_info r1 = exc_info r2 -> stack_info r1 = stack_info r2 ->
  extra r1 = extra r2 ->
  (forall val, In val (map snd (fmt_keys self)) -> getattr r1 val = getattr r2 val) ->
  format str_mod self r1 = format str_mod self r2.
Proof.
  intros Hmsg Hargs Hcreated Hexc Hstack Hextra Hg.
  assert (Haf : always_fields str_mod self r1 = always_fields str_mod self r2).
  { unfold always_fields, getMessage.
    now rewrite Hmsg, Hargs, Hcreated, Hexc, Hstack. }
  assert (Hadd : forall message,
             add_custom_attrs r1 message = add_custom_attrs r2 message).
  { intros message. unfold add_custom_attrs, __dict__.
    rewrite !fold_left_app, !init_attrs_skipped. now rewrite Hextra. }
  unfold format, _prepare_log_dict. rewrite Haf.
  destruct (always_fields str_mod self r2) as [af|e]; cbn [bind]; [|reflexivity].
  rewrite (apply_fmt_keys_ext r1 r2 _ Hg).
  destruct (apply_fmt_keys r2 (fmt_keys self) af []) as [mapped|e]; cbn [bind];
    [|reflexivity].
  now rewrite Hadd.
Qed.

(** X13: with any [indent], be it 0 or False, the text is broken into
    lines: it opens with a brace and a line feed. *)
Theorem indent_breaks_lines (self : JsonFormatter) (r : LogRecord)
    (s : string) (n : Z) :
  indent self = Some n ->
  format str_mod self r = Ok s ->
  exists rest, s = String "{" (String newline rest).
Proof.
  intros Hind H. apply format_Ok in H.
  destruct H as [out [members [Hout [Henc [_ [-> _]]]]]].
  apply encode_as_value in Henc. destruct Henc as [ms [Heq [Hk _]]].
  injection Heq as <-.
  assert (Hne : exists k, In k (map fst members)).
  { rewrite Hk, (prepare_keys _ _ _ _ Hout). unfold first_occurrences.
    destruct (fmt_keys self) as [|[key val] items] eqn:Hf.
    - exists "message". apply fold_add_key_In. right. apply in_or_app. right.
      apply in_or_app. left. unfold unconsumed_fields. rewrite Hf.
      apply filter_In. split; [|reflexivity]. unfold implicit_fields. simpl. tauto.
    - exists key. apply fold_add_key_In. right. simpl. tauto. }
  destruct Hne as [k Hin]. destruct members as [|[k0 x] members]; [contradiction|].
  rewrite render_JObj_cons, Hind. cbn [newline_indent String.append]. eauto.
Qed.

End ReadProperties.

Lemma format_reads_named_only_witness :
  format no_str_mod example_formatter started_record
  = format no_str_mod example_formatter relocated_record.
Proof.
  apply (format_reads_named_only no_str_mod example_formatter started_record
           relocated_record); try reflexivity.
  intros val [<- | [<- | [<- | []]]]; reflexivity.
Defined.

Lemma indent_breaks_lines_witness :
  exists rest,
    render (Some 2) O
      (JObj [("level", JStr "INFO");
             ("message", JStr "Started application");
             ("timestamp", JStr sample_stamp);
             ("note", JStr "some extra info here")])
    = String "{" (String newline rest).
Proof.
  apply (indent_breaks_lines no_str_mod indented_formatter started_record _ 2).
  - reflexivity.
  - reflexivity.
Defined.
